(** * File server: size codec, chunked-upload route and chunk planner

    A shallow embedding of

    - [StorageUtils.parseSize] and [StorageUtils.formatSize] (app/config/nas.ts),
    - the upload route [POST] with [handleChunkedUpload] (app/api/upload/route.ts),
    - the client-side [FileUploader] with [uploadSmallFile] and
      [uploadLargeFile] (app/utils/upload.ts),
    - the listing and delete routes (app/api/files), and the storage figures
      of the page and of the sidebar,

    followed by the properties of the chunked-upload protocol and of the
    code around it.

    Conventions of the embedding.
    - A JavaScript string is a [string] whose characters are the code units
      below 256; [Buffer.from] encodes them as UTF-8.
    - A JavaScript number that holds a count, an index or a byte length is an
      integer of [Z]; [Js.number] adds [NaN], which [parseInt] can return.
      [parseSize] multiplies a decimal fraction, its result is a rational of
      [Q] (the rounding of the fraction to a double is not modelled).  The
      unit index of [formatSize] is the one the double logarithms of the
      code give, which leaves the exact one just below [1024^5].
    - The file system is a finite map from paths to contents.  Everything the
      handlers read from the outside (the clock, the random source, the
      success of each file-system call) comes in an [env] record. *)

From Stdlib Require Import ZArith QArith Lia List String Ascii.
From stdpp Require Import base gmap strings pretty list.

Local Open Scope string_scope.
Local Open Scope list_scope.
Local Open Scope Z_scope.

(** ** JavaScript primitives used by the sources *)

Module Js.

(** A number that is an integer or [NaN]. *)
Inductive number : Type :=
| NaN
| Num (z : Z).

Definition lt (a b : number) : bool :=
  match a, b with Num x, Num y => x <? y | _, _ => false end.

Definition le (a b : number) : bool :=
  match a, b with Num x, Num y => x <=? y | _, _ => false end.

Definition ge (a b : number) : bool :=
  match a, b with Num x, Num y => y <=? x | _, _ => false end.

(** [a === b] on numbers: [NaN] is equal to nothing. *)
Definition strictEq (a b : number) : bool :=
  match a, b with Num x, Num y => x =? y | _, _ => false end.

Definition add (a b : number) : number :=
  match a, b with Num x, Num y => Num (x + y) | _, _ => NaN end.

Definition sub (a b : number) : number :=
  match a, b with Num x, Num y => Num (x - y) | _, _ => NaN end.

(** [`${a}`] *)
Definition toString (a : number) : string :=
  match a with NaN => "NaN" | Num z => pretty z end.

Definition code (c : ascii) : N := N_of_ascii c.

Definition between (lo hi : N) (c : ascii) : bool :=
  ((lo <=? code c) && (code c <=? hi))%N.

(** [\d] *)
Definition isDigit (c : ascii) : bool := between 48 57 c.

(** [[a-zA-Z0-9]] *)
Definition isAlnum (c : ascii) : bool :=
  between 48 57 c || between 65 90 c || between 97 122 c.

(** [\s], and the characters removed by [trim]: TAB, LF, VT, FF, CR, space
    and the no-break space. *)
Definition isWhiteSpace (c : ascii) : bool :=
  between 9 13 c || (code c =? 32)%N || (code c =? 160)%N.

Definition digitValue (c : ascii) : N := (code c - 48)%N.

Fixpoint allb (p : ascii → bool) (s : string) : bool :=
  match s with
  | "" => true
  | String c r => p c && allb p r
  end.

Fixpoint filter (p : ascii → bool) (s : string) : string :=
  match s with
  | "" => ""
  | String c r => if p c then String c (filter p r) else filter p r
  end.

Fixpoint map (f : ascii → ascii) (s : string) : string :=
  match s with
  | "" => ""
  | String c r => String (f c) (map f r)
  end.

(** [s.substring(0, n)] *)
Fixpoint prefix (n : nat) (s : string) : string :=
  match n, s with
  | S n', String c r => String c (prefix n' r)
  | _, _ => ""
  end.

(** The longest prefix of [s] whose characters satisfy [p], and the rest. *)
Fixpoint span (p : ascii → bool) (s : string) : string * string :=
  match s with
  | "" => ("", "")
  | String c r =>
      if p c then let '(a, b) := span p r in (String c a, b) else ("", s)
  end.

(** [toUpperCase] of an ASCII letter; other characters are kept. *)
Definition upper (c : ascii) : ascii :=
  if between 97 122 c then ascii_of_N (code c - 32) else c.

Definition toUpperCase (s : string) : string := map upper s.

Fixpoint trimStart (s : string) : string :=
  match s with
  | "" => ""
  | String c r => if isWhiteSpace c then trimStart r else s
  end.

Definition trim (s : string) : string :=
  String.rev (trimStart (String.rev (trimStart s))).

(** [s.split(sep)] for a one-character separator: never empty. *)
Fixpoint split (sep : ascii) (s : string) : list string :=
  match s with
  | "" => [""]
  | String c r =>
      if Ascii.eqb c sep then "" :: split sep r
      else match split sep r with
           | p :: ps => String c p :: ps
           | [] => [String c ""]
           end
  end.

(** [parts.join(sep)] *)
Fixpoint join (sep : string) (parts : list string) : string :=
  match parts with
  | [] => ""
  | [p] => p
  | p :: ps => p +:+ sep +:+ join sep ps
  end.

(** [parts.pop()]: the last element and the array without it. *)
Definition pop (parts : list string) : string * list string :=
  (List.last parts "", List.removelast parts).

(** The value of a string of decimal digits. *)
Fixpoint digitsValueFrom (acc : N) (s : string) : N :=
  match s with
  | "" => acc
  | String c r => digitsValueFrom (10 * acc + digitValue c)%N r
  end.

Definition digitsValue (s : string) : N := digitsValueFrom 0 s.

Definition isHexDigit (c : ascii) : bool :=
  between 48 57 c || between 65 70 c || between 97 102 c.

Definition hexDigitValue (c : ascii) : N :=
  if between 48 57 c then (code c - 48)%N
  else if between 65 70 c then (code c - 55)%N
  else (code c - 87)%N.

Fixpoint hexValueFrom (acc : N) (s : string) : N :=
  match s with
  | "" => acc
  | String c r => hexValueFrom (16 * acc + hexDigitValue c)%N r
  end.

(** [parseInt(s)] without a radix: leading white space, an optional sign,
    then the longest run of digits (hexadecimal after [0x]); [NaN] when
    there is no digit. *)
Definition parseInt (s : string) : number :=
  let s1 := trimStart s in
  let '(sign, s2) :=
    match s1 with
    | String "-" r => (-1, r)
    | String "+" r => (1, r)
    | _ => (1, s1)
    end in
  let hex r :=
    let '(ds, _) := span isHexDigit r in
    if String.eqb ds "" then NaN else Num (sign * Z.of_N (hexValueFrom 0 ds)) in
  let dec :=
    let '(ds, _) := span isDigit s2 in
    if String.eqb ds "" then NaN else Num (sign * Z.of_N (digitsValue ds)) in
  match s2 with
  | String "0" (String "x" r) => hex r
  | String "0" (String "X" r) => hex r
  | _ => dec
  end.

(** [parseFloat] on an unsigned decimal literal [digits] or
    [digits.digits], the only strings the size pattern captures. *)
Definition parseFloat (s : string) : Q :=
  let '(ip, r) := span isDigit s in
  match r with
  | String "." f =>
      let '(fp, _) := span isDigit f in
      Qmake (Z.of_N (digitsValue (ip +:+ fp)))
            (Z.to_pos (10 ^ Z.of_nat (String.length fp)))
  | _ => inject_Z (Z.of_N (digitsValue ip))
  end.

(** A non-negative number of hundredths printed the way
    [parseFloat(x.toFixed(2))] prints in a string concatenation: the
    shortest decimal, without trailing zeros. *)
Definition hundredthsToString (n : Z) : string :=
  let ip := n / 100 in
  let fr := n mod 100 in
  if fr =? 0 then pretty ip
  else if fr mod 10 =? 0 then pretty ip +:+ "." +:+ pretty (fr / 10)
  else pretty ip +:+ "." +:+ pretty (fr / 10) +:+ pretty (fr mod 10).

(** [toLowerCase] of a letter of Latin-1; other characters are kept. *)
Definition lower (c : ascii) : ascii :=
  if between 65 90 c || between 192 214 c || between 216 222 c
  then ascii_of_N (code c + 32) else c.

Definition toLowerCase (s : string) : string := map lower s.

(** [array.includes(x)] on strings. *)
Definition includes (array : list string) (x : string) : bool :=
  existsb (String.eqb x) array.

(** [array.sort(compare)].  The sort is stable; for a comparator that
    orders the elements by a key, as the one of the listing does, its result
    is the one of inserting the elements from the right. *)
Fixpoint insertSorted {A : Type} (compare : A → A → Z) (x : A)
    (sorted : list A) : list A :=
  match sorted with
  | [] => [x]
  | y :: rest =>
      if 0 <? compare x y then y :: insertSorted compare x rest
      else x :: sorted
  end.

Definition sort {A : Type} (compare : A → A → Z) (array : list A) : list A :=
  foldr (insertSorted compare) [] array.

(** [array.reduce((sum, x) => sum + x, 0)] *)
Definition sum (array : list Z) : Z := foldl Z.add 0 array.

End Js.

(** ** The size codec (app/config/nas.ts) *)

Module StorageUtils.

Definition units (unit : string) : option Z :=
  if String.eqb unit "B" then Some 1
  else if String.eqb unit "KB" then Some 1024
  else if String.eqb unit "MB" then Some (1024 * 1024)
  else if String.eqb unit "GB" then Some (1024 * 1024 * 1024)
  else if String.eqb unit "TB" then Some (1024 * 1024 * 1024 * 1024)
  else None.

(** [[KMGT]?B] under the [i] flag, up to the end of the string. *)
Definition isUnit (s : string) : bool :=
  match s with
  | String b "" => Ascii.eqb (Js.upper b) "B"
  | String p (String b "") =>
      (Ascii.eqb (Js.upper p) "K" || Ascii.eqb (Js.upper p) "M"
       || Ascii.eqb (Js.upper p) "G" || Ascii.eqb (Js.upper p) "T")
      && Ascii.eqb (Js.upper b) "B"
  | _ => false
  end.

(** [sizeString.match(/^(\d+(?:\.\d+)?)\s*([KMGT]?B)$/i)]: the two captured
    groups.  The character classes of consecutive pieces are disjoint, so
    the greedy scan below takes the only decomposition there is. *)
Definition sizePattern (sizeString : string) : option (string * string) :=
  let '(ip, r1) := Js.span Js.isDigit sizeString in
  if String.eqb ip "" then None
  else
    let '(num, r2) :=
      match r1 with
      | String "." f =>
          let '(fp, r) := Js.span Js.isDigit f in
          if String.eqb fp "" then (ip, r1) else (ip +:+ "." +:+ fp, r)
      | _ => (ip, r1)
      end in
    let '(_, r3) := Js.span Js.isWhiteSpace r2 in
    if isUnit r3 then Some (num, r3) else None.

Definition parseSize (sizeString : string) : Q :=
  match sizePattern sizeString with
  | None => 0%Q
  | Some (m1, m2) =>
      let value := Js.parseFloat m1 in
      let unit := Js.toUpperCase m2 in
      Qred (value * inject_Z (default 1 (units unit)))
  end.

Definition sizes : list string := ["B"; "KB"; "MB"; "GB"; "TB"].

(** [Math.floor(Math.log(bytes) / Math.log(1024))] for [bytes >= 1].  The
    two logarithms are doubles.  For the three integers below [1024^5] the
    logarithm is nearer to the double of [Math.log(1024^5)] than to the one
    before it, so the quotient is [5] already; at every other integer that a
    double holds exactly, the floor of the quotient is the integer logarithm
    in base [2^10]. *)
Definition unitIndex (bytes : Z) : Z :=
  if (1024 ^ 5 - 3 <=? bytes) && (bytes <? 1024 ^ 5) then 5
  else Z.log2 bytes / 10.

(** [sizes[i]] inside a string concatenation. *)
Definition sizeName (i : Z) : string :=
  default "undefined" (sizes !! Z.to_nat i).

(** [(bytes / Math.pow(1024, i)).toFixed(2)] in hundredths: the quotient
    rounded to the nearest hundredth, halves upwards. *)
Definition mantissaHundredths (bytes i : Z) : Z :=
  (200 * bytes + 1024 ^ i) / (2 * 1024 ^ i).

(** [formatSize(bytes)] for an integer [bytes].  The logarithm of a negative
    number is [NaN], and so is everything computed from it. *)
Definition formatSize (bytes : Z) : string :=
  if bytes =? 0 then "0 B"
  else if bytes <? 0 then "NaN" +:+ " " +:+ "undefined"
  else
    let i := unitIndex bytes in
    Js.hundredthsToString (mantissaHundredths bytes i) +:+ " " +:+ sizeName i.

(** [calculatePercentage(used, total)], on exact numbers. *)
Definition calculatePercentage (used total : Q) : Q :=
  if Qeq_bool total 0 then 0%Q
  else
    let ratio := (used / total * 100)%Q in
    if Qle_bool ratio 100 then ratio else 100%Q.

Definition getStorageStatusColor (percentage : Q) : string :=
  if Qle_bool 90 percentage then "from-red-500 to-red-600"
  else if Qle_bool 75 percentage then "from-yellow-500 to-yellow-600"
  else if Qle_bool 50 percentage then "from-orange-500 to-orange-600"
  else "from-green-500 to-green-600".

End StorageUtils.

(** ** The upload route (app/api/upload/route.ts) *)

Module Route.

(** A [File] (or [Blob]) of a multipart body; [file.size] is the length of
    its contents. *)
Record File : Type := {
  f_name : string;
  f_type : string;
  f_bytes : list Byte.byte
}.

Definition f_size (f : File) : Z := Z.of_nat (length (f_bytes f)).

(** [NAS_CONFIG.STORAGE_PATH], fixed when the server starts: the default of
    the configuration.  Nothing below depends on its value, except where a
    path is normalized: there it counts that it is absolute and has no ".."
    segment. *)
Definition STORAGE_PATH : string := "/mnt/nas/storage".

(** What one request reads from outside the program. *)
Record env : Type := {
  now : N;                (* Date.now() where a file name is minted *)
  idNow : N;              (* Date.now() inside the id of a chunked record *)
  random : string;        (* Math.random().toString(36).substring(2, 8) *)
  isoNow : string;        (* new Date().toISOString() *)
  accessOk : bool;        (* access(STORAGE_PATH) resolves *)
  mkdirOk : bool;         (* mkdir(fullUploadPath, { recursive: true }) resolves *)
  writeOk : bool;         (* writeFile of the uploaded bytes resolves *)
  appendOk : bool;        (* appendFile resolves *)
  renameOk : bool;        (* rename resolves *)
  statOk : bool;          (* stat resolves *)
  readOk : bool;          (* readFile of the fallback resolves *)
  copyOk : bool;          (* writeFile of the fallback resolves *)
  unlinkOk : bool;        (* unlink resolves *)
  ioError : string        (* error.message of a call that rejects *)
}.

(** The regular files of the storage, by path.  Directories are not
    tracked: [mkdir] only succeeds or fails. *)
Abbreviation store := (gmap string (list Byte.byte)).

Definition existsSync (fs : store) (p : string) : bool :=
  bool_decide (is_Some (fs !! p)).

Definition writeFile (ok : bool) (fs : store) (p : string)
    (data : list Byte.byte) : option store :=
  if ok then Some (<[p := data]> fs) else None.

(** [appendFile] creates the file when it does not exist. *)
Definition appendFile (ok : bool) (fs : store) (p : string)
    (data : list Byte.byte) : option store :=
  if ok then Some (<[p := default [] (fs !! p) ++ data]> fs) else None.

Definition rename (ok : bool) (fs : store) (old new : string) : option store :=
  if ok then
    match fs !! old with
    | Some data => Some (<[new := data]> (delete old fs))
    | None => None
    end
  else None.

(** [(await stat(p)).size] *)
Definition stat (ok : bool) (fs : store) (p : string) : option Z :=
  if ok then (λ data, Z.of_nat (length data)) <$> fs !! p else None.

Definition readFile (ok : bool) (fs : store) (p : string)
    : option (list Byte.byte) :=
  if ok then fs !! p else None.

Definition unlink (ok : bool) (fs : store) (p : string) : option store :=
  if ok then
    match fs !! p with
    | Some _ => Some (delete p fs)
    | None => None
    end
  else None.

(** [join(dir, name)] of the path module, before its normalisation: a name
    is a key of its directory, path syntax inside it is not interpreted.
    The storage is keyed by these texts; [Path.normalize] below gives the
    path the file system is asked for. *)
Definition pathJoin (dir name : string) : string := dir +:+ "/" +:+ name.

(** [.replace(/\.\./g, '')] *)
Fixpoint removeDotDot (s : string) : string :=
  match s with
  | String "." (String "." r) => removeDotDot r
  | String c r => String c (removeDotDot r)
  | "" => ""
  end.

(** [.replace(/\/+/g, '/')]; [afterSlash] tells that the previous character
    was a slash. *)
Fixpoint collapseSlashes (afterSlash : bool) (s : string) : string :=
  match s with
  | "" => ""
  | String c r =>
      if Ascii.eqb c "/" then
        if afterSlash then collapseSlashes true r
        else String c (collapseSlashes true r)
      else String c (collapseSlashes false r)
  end.

Definition sanitize (uploadPath : string) : string :=
  collapseSlashes false (removeDotDot uploadPath).

(** *** Temp file name *)

(** [Buffer.from(s)]: the UTF-8 bytes of the code units of [s]. *)
Fixpoint utf8 (s : string) : list N :=
  match s with
  | "" => []
  | String c r =>
      let n := Js.code c in
      if (n <? 128)%N then n :: utf8 r
      else (192 + n / 64)%N :: (128 + n mod 64)%N :: utf8 r
  end.

Definition base64Alphabet : string :=
  "ABCDEFGHIJKLMNOPQRSTUVWXYZabcdefghijklmnopqrstuvwxyz0123456789+/".

Definition base64Char (i : N) : ascii :=
  default "="%char (String.get (N.to_nat i) base64Alphabet).

(** [.toString('base64')] *)
Fixpoint base64 (data : list N) : string :=
  match data with
  | a :: b :: c :: r =>
      String (base64Char (a / 4))
        (String (base64Char ((a mod 4) * 16 + b / 16))
           (String (base64Char ((b mod 16) * 4 + c / 64))
              (String (base64Char (c mod 64)) (base64 r))))
  | [a; b] =>
      String (base64Char (a / 4))
        (String (base64Char ((a mod 4) * 16 + b / 16))
           (String (base64Char ((b mod 16) * 4)) "="))
  | [a] =>
      String (base64Char (a / 4))
        (String (base64Char ((a mod 4) * 16)) "==")
  | [] => ""
  end%N.

Definition fileHash (fileName : string) : string :=
  Js.prefix 16 (Js.filter Js.isAlnum (base64 (utf8 fileName))).

Definition tempFileName (fileName : string) (dateNow : N) : string :=
  "temp_" +:+ fileHash fileName +:+ "_" +:+ pretty dateNow.

(** *** Collision-free final name *)

(** The body of the [while] loop: [`${baseName}_${counter}.${extension}`]. *)
Definition candidate (finalFileName : string) (counter : Z) : string :=
  let '(extension, nameParts) := Js.pop (Js.split "." finalFileName) in
  let baseName := Js.join "." nameParts in
  baseName +:+ "_" +:+ pretty counter +:+ "." +:+ extension.

(** The [while (existsSync(...))] loop, at most [fuel] iterations. *)
Fixpoint probe (fuel : nat) (taken : string → bool) (finalFileName : string)
    (uniqueFileName : string) (counter : Z) : option string :=
  if taken uniqueFileName then
    match fuel with
    | O => None
    | S fuel' =>
        probe fuel' taken finalFileName (candidate finalFileName counter)
          (counter + 1)
    end
  else Some uniqueFileName.

(** The loop started from [uniqueFileName = finalFileName], [counter = 1].
    One more iteration than the store has files is enough ([probe_total]
    below), so the default is never used. *)
Definition uniqueFileName (fs : store) (fullUploadPath finalFileName : string)
    : string :=
  default finalFileName
    (probe (S (size fs)) (λ n, existsSync fs (pathJoin fullUploadPath n))
       finalFileName finalFileName 1).

(** *** Responses *)

Record fileRecord : Type := {
  r_id : string;
  r_name : string;
  r_originalName : string;
  r_size : Z;
  r_type : string;
  r_path : string;
  r_uploadedAt : string;
  r_sizeFormatted : string
}.

(** The JSON object of a response; an absent key is [None]. *)
Record body : Type := {
  success : option bool;
  message : option string;
  files : option (list fileRecord);
  uploadPath : option string;
  chunkIndex : option Js.number;
  totalChunks : option Js.number;
  completed : option bool;
  error : option string
}.

Record response : Type := {
  status : Z;
  json : body
}.

(** [NextResponse.json({ error }, { status })] *)
Definition errorResponse (code : Z) (msg : string) : response :=
  {| status := code;
     json := {| success := None; message := None; files := None;
                uploadPath := None; chunkIndex := None; totalChunks := None;
                completed := None; error := Some msg |} |}.

(** The answer to a chunk that is not the last one. *)
Definition chunkReceived (index total : Js.number) : response :=
  {| status := 200;
     json := {| success := Some true;
                message := Some ("Chunk " +:+ Js.toString (Js.add index (Js.Num 1))
                                 +:+ "/" +:+ Js.toString total
                                 +:+ " uploaded successfully");
                files := None; uploadPath := None;
                chunkIndex := Some index; totalChunks := Some total;
                completed := Some false; error := None |} |}.

(** The answer to the last chunk. *)
Definition chunkedCompleted (rec : fileRecord) (sanitizedPath : string)
    : response :=
  {| status := 200;
     json := {| success := Some true;
                message := Some "Chunked upload completed successfully";
                files := Some [rec]; uploadPath := Some sanitizedPath;
                chunkIndex := None; totalChunks := None;
                completed := Some true; error := None |} |}.

Definition chunkedRecord (e : env) (chunk : File) (sanitizedPath : string)
    (uniqueName fileName : string) (finalFileSize : Z) : fileRecord :=
  {| r_id := "chunked_" +:+ pretty (idNow e) +:+ "_" +:+ random e;
     r_name := uniqueName;
     r_originalName := fileName;
     r_size := finalFileSize;
     r_type := f_type chunk;
     r_path := sanitizedPath +:+ "/" +:+ uniqueName;
     r_uploadedAt := isoNow e;
     r_sizeFormatted := StorageUtils.formatSize finalFileSize |}.

(** *** handleChunkedUpload *)

(** The last chunk: pick the final name, promote the temp file. *)
Definition finalize (e : env) (fs : store) (chunk : File)
    (sanitizedPath fullUploadPath tempFilePath fileName : string)
    (failed : string → response) : store * response :=
  let finalFileName := fileName in
  let uniqueName := uniqueFileName fs fullUploadPath finalFileName in
  let finalUniquePath := pathJoin fullUploadPath uniqueName in
  let done size :=
    chunkedCompleted
      (chunkedRecord e chunk sanitizedPath uniqueName fileName size)
      sanitizedPath in
  (* catch: copy, then delete *)
  let fallback (fs1 : store) :=
    match readFile (readOk e) fs1 tempFilePath with
    | None => (fs1, failed (ioError e))
    | Some completeFileBuffer =>
        match writeFile (copyOk e) fs1 finalUniquePath completeFileBuffer with
        | None => (fs1, failed (ioError e))
        | Some fs2 =>
            let fs3 := default fs2 (unlink (unlinkOk e) fs2 tempFilePath) in
            (fs3, done (Z.of_nat (length completeFileBuffer)))
        end
    end in
  match rename (renameOk e) fs tempFilePath finalUniquePath with
  | None => fallback fs
  | Some fs1 =>
      match stat (statOk e) fs1 finalUniquePath with
      | None => fallback fs1
      | Some finalFileSize => (fs1, done finalFileSize)
      end
  end.

Definition handleChunkedUpload (e : env) (fs : store) (chunk : File)
    (uploadPath : string) (chunkIndex totalChunks : Js.number)
    (fileName : string) : store * response :=
  if Js.lt chunkIndex (Js.Num 0) || Js.ge chunkIndex totalChunks then
    (fs, errorResponse 400
           ("Invalid chunk index: " +:+ Js.toString chunkIndex
            +:+ " (must be 0-" +:+ Js.toString (Js.sub totalChunks (Js.Num 1))
            +:+ ")"))
  else if Js.le totalChunks (Js.Num 0) then
    (fs, errorResponse 400
           ("Invalid total chunks: " +:+ Js.toString totalChunks))
  else if String.eqb fileName "" || String.eqb (Js.trim fileName) "" then
    (fs, errorResponse 400 "Invalid filename provided")
  else
    let failed msg :=
      errorResponse 500
        ("Failed to upload chunk " +:+ Js.toString (Js.add chunkIndex (Js.Num 1))
         +:+ ": " +:+ msg) in
    let sanitizedPath := sanitize uploadPath in
    let fullUploadPath := pathJoin STORAGE_PATH sanitizedPath in
    if negb (mkdirOk e) then (fs, failed (ioError e))
    else
      let tempFilePath :=
        pathJoin fullUploadPath (tempFileName fileName (now e)) in
      let buffer := f_bytes chunk in
      let written :=
        if Js.strictEq chunkIndex (Js.Num 0)
        then writeFile (writeOk e) fs tempFilePath buffer
        else appendFile (appendOk e) fs tempFilePath buffer in
      match written with
      | None => (fs, failed (ioError e))
      | Some fs1 =>
          if Js.strictEq chunkIndex (Js.sub totalChunks (Js.Num 1)) then
            finalize e fs1 chunk sanitizedPath fullUploadPath tempFilePath
              fileName failed
          else (fs1, chunkReceived chunkIndex totalChunks)
      end.

(** *** POST *)

(** [file.name.replace(/\.[^/.]+$/, '')]: the name without its last
    extension, when that extension is not empty and holds no slash. *)
Definition stripExtension (name : string) : string :=
  let '(ext, parts) := Js.pop (Js.split "." name) in
  match parts with
  | [] => name
  | _ :: _ =>
      if String.eqb ext "" || negb (Js.allb (λ c, negb (Ascii.eqb c "/")) ext)
      then name
      else Js.join "." parts
  end.

(** The name a whole file is stored under. *)
Definition generatedName (name : string) (timestamp : N) (randomSuffix : string)
    : string :=
  let fileExtension := fst (Js.pop (Js.split "." name)) in
  let baseName := stripExtension name in
  baseName +:+ "_" +:+ pretty timestamp +:+ "_" +:+ randomSuffix
    +:+ "." +:+ fileExtension.

Definition wholeRecord (e : env) (file : File) (sanitizedPath : string)
    : fileRecord :=
  {| r_id := pretty (now e) +:+ "_" +:+ random e;
     r_name := f_name file;
     r_originalName := f_name file;
     r_size := f_size file;
     r_type := f_type file;
     r_path := sanitizedPath +:+ "/"
               +:+ generatedName (f_name file) (now e) (random e);
     r_uploadedAt := isoNow e;
     r_sizeFormatted := StorageUtils.formatSize (f_size file) |}.

(** [for (const file of files)]: [fe i] is what the [i]-th iteration reads
    from outside. *)
Fixpoint storeFiles (fe : nat → env) (i : nat) (fs : store)
    (sanitizedPath fullUploadPath : string) (todo : list File)
    (uploadedFiles : list fileRecord)
    : store * (string + list fileRecord) :=
  match todo with
  | [] => (fs, inr uploadedFiles)
  | file :: rest =>
      let e := fe i in
      let uniqueName := generatedName (f_name file) (now e) (random e) in
      let filePath := pathJoin fullUploadPath uniqueName in
      match writeFile (writeOk e) fs filePath (f_bytes file) with
      | None =>
          (fs, inl ("Failed to upload " +:+ f_name file +:+ ": " +:+ ioError e))
      | Some fs1 =>
          storeFiles fe (S i) fs1 sanitizedPath fullUploadPath rest
            (uploadedFiles ++ [wholeRecord e file sanitizedPath])
      end
  end.

Definition uploadedResponse (uploadedFiles : list fileRecord)
    (sanitizedPath : string) : response :=
  {| status := 200;
     json := {| success := Some true;
                message := Some ("Successfully uploaded "
                                 +:+ pretty (length uploadedFiles)
                                 +:+ " file(s)");
                files := Some uploadedFiles;
                uploadPath := Some sanitizedPath;
                chunkIndex := None; totalChunks := None;
                completed := None; error := None |} |}.

(** The fields of the multipart body; [formData.get] of an absent field is
    [null]. *)
Record formData : Type := {
  fd_files : list File;
  fd_path : option string;
  fd_chunkIndex : option string;
  fd_totalChunks : option string;
  fd_fileName : option string
}.

Definition wholeUpload (e : env) (fe : nat → env) (fs : store)
    (files : list File) (uploadPath : string) : store * response :=
  let sanitizedPath := sanitize uploadPath in
  let fullUploadPath := pathJoin STORAGE_PATH sanitizedPath in
  if negb (accessOk e) then
    (fs, errorResponse 500
           ("Storage directory " +:+ STORAGE_PATH +:+ " is not accessible"))
  else if negb (mkdirOk e) then
    (fs, errorResponse 500 "Failed to create upload directory")
  else
    match storeFiles fe 0 fs sanitizedPath fullUploadPath files [] with
    | (fs1, inl msg) => (fs1, errorResponse 500 msg)
    | (fs1, inr uploadedFiles) =>
        (fs1, uploadedResponse uploadedFiles sanitizedPath)
    end.

Definition POST (e : env) (fe : nat → env) (fs : store) (form : formData)
    : store * response :=
  let files := fd_files form in
  let uploadPath :=
    match fd_path form with
    | Some p => if String.eqb p "" then "/" else p
    | None => "/"
    end in
  match files with
  | [] => (fs, errorResponse 400 "No files provided")
  | first :: _ =>
      match fd_chunkIndex form, fd_totalChunks form, fd_fileName form with
      | Some chunkIndex, Some totalChunks, Some fileName =>
          handleChunkedUpload e fs first uploadPath (Js.parseInt chunkIndex)
            (Js.parseInt totalChunks) fileName
      | _, _, _ => wholeUpload e fe fs files uploadPath
      end
  end.

End Route.

(** ** The client-side uploader (app/utils/upload.ts) *)

Module FileUploader.

Import Route.

(** [Math.max(1024 * 1024, StorageUtils.parseSize(NAS_CONFIG.CHUNK_SIZE))].
    The key [CHUNK_SIZE] is missing from the configuration object at hand,
    so the configured text is an argument (documented default: ["5MB"]). *)
Definition CHUNK_SIZE (configured : string) : Q :=
  let parsed := StorageUtils.parseSize configured in
  if Qle_bool (inject_Z (1024 * 1024)) parsed then parsed
  else inject_Z (1024 * 1024).

Definition maxRetries : Z := 3.

(** How a request ends for the caller. *)
Inductive outcome : Type :=
| NetworkError (reason : string)
    (* [fetch] rejects with [reason]; the 'error' event of an XHR *)
| Answer (status : Z) (statusText : string) (parsed : string + body).
    (* a response; [inl msg]: its text is not JSON, parsing throws [msg] *)

Inductive promise (A : Type) : Type :=
| Resolved (value : A)
| Thrown (errorMessage : string).
Arguments Resolved {A} value.
Arguments Thrown {A} errorMessage.

(** What the uploader does that can be observed, in order. *)
Inductive event : Type :=
| Sent (form : formData)              (* one request *)
| Waited (ms : Z)                     (* [setTimeout(resolve, ms)] awaited *)
| Progress (uploadedChunks totalChunks : Z).
    (* [onProgress] after a chunk: the percentage and the byte count it
       reports are computed from these two and [file.size] *)

(** The clock and random source of the browser, for the record of the
    fallback [return] of [uploadLargeFile]. *)
Record clientEnv : Type := {
  c_now : N;
  c_random : string;
  c_isoNow : string
}.

(** [file.slice(start, end)] *)
Definition slice (data : list Byte.byte) (start stop : Z) : list Byte.byte :=
  take (Z.to_nat (stop - start)) (drop (Z.to_nat start) data).

(** [Math.ceil(size / chunkSize)] on positive integers. *)
Definition ceilDiv (size chunkSize : Z) : Z :=
  (size + chunkSize - 1) / chunkSize.

(** The form of chunk [chunkIndex]; a [Blob] appended to a form is a file
    named "blob". *)
Definition chunkForm (chunkSize : Z) (file : File) (uploadPath : string)
    (totalChunks chunkIndex : Z) : formData :=
  let start := chunkIndex * chunkSize in
  let stop := Z.min (start + chunkSize) (f_size file) in
  let chunk :=
    {| f_name := "blob"; f_type := "";
       f_bytes := slice (f_bytes file) start stop |} in
  {| fd_files := [chunk];
     fd_path := Some uploadPath;
     fd_chunkIndex := Some (pretty chunkIndex);
     fd_totalChunks := Some (pretty totalChunks);
     fd_fileName := Some (f_name file) |}.

(** The form of a whole file. *)
Definition wholeForm (file : File) (uploadPath : string) : formData :=
  {| fd_files := [file];
     fd_path := Some uploadPath;
     fd_chunkIndex := None;
     fd_totalChunks := None;
     fd_fileName := None |}.

(** [response.ok] *)
Definition isOk (status : Z) : bool := (200 <=? status) && (status <=? 299).

(** [a || fallback] on an optional string. *)
Definition orElse (a : option string) (fallback : string) : string :=
  match a with
  | Some s => if String.eqb s "" then fallback else s
  | None => fallback
  end.

(** The [try] block of one attempt of a chunk, up to the test of
    [result.success]: the parsed result, or the message of what is thrown. *)
Definition attemptResult (o : outcome) : string + body :=
  match o with
  | NetworkError reason => inl reason
  | Answer status statusText parsed =>
      if negb (isOk status) then
        inl ("HTTP " +:+ pretty status +:+ ": " +:+ statusText)
      else
        match parsed with
        | inl msg => inl msg
        | inr result =>
            match success result with
            | Some true => inr result
            | _ => inl (orElse (error result) "Chunk upload failed")
            end
        end
  end.

(** [result.completed && result.files && result.files.length > 0]: the
    record to return, if any. *)
Definition completedFile (result : body) : option fileRecord :=
  match completed result, files result with
  | Some true, Some (first :: _) => Some first
  | _, _ => None
  end.

Inductive chunkEnd : Type :=
| ChunkDone (uploadedChunks : Z)   (* the [while] loop ends, on to the next chunk *)
| UploadDone (rec : fileRecord)    (* [return result.files[0]] *)
| UploadFailed (errorMessage : string).   (* [throw] *)

(** [`Chunk ${chunkIndex + 1} failed after ${maxRetries} attempts: ${errorMessage}`] *)
Definition chunkFailedMessage (chunkIndex : Z) (errorMessage : string) : string :=
  "Chunk " +:+ pretty (chunkIndex + 1) +:+ " failed after "
  +:+ pretty maxRetries +:+ " attempts: " +:+ errorMessage.

Section Transport.

(** The network and the server behind it: a request changes the world and
    comes back with an outcome. *)
Context {World : Type}.
Variable send : World → formData → World * outcome.

(** The [while (retryCount < maxRetries && !chunkSuccess)] loop of one
    chunk, by the number [left = maxRetries - retryCount] of attempts that
    remain. *)
Fixpoint sendChunk (left : nat) (w : World) (form : formData)
    (chunkIndex totalChunks uploadedChunks : Z) (log : list event)
    : World * list event * chunkEnd :=
  match left with
  | O => (w, log, ChunkDone uploadedChunks)
  | S left' =>
      let retryCount := maxRetries - Z.of_nat left in
      let '(w1, o) := send w form in
      let log1 := log ++ [Sent form] in
      match attemptResult o with
      | inr result =>
          let uploadedChunks1 := uploadedChunks + 1 in
          let log2 := log1 ++ [Progress uploadedChunks1 totalChunks] in
          match completedFile result with
          | Some rec => (w1, log2, UploadDone rec)
          | None => (w1, log2, ChunkDone uploadedChunks1)
          end
      | inl errorMessage =>
          let retryCount1 := retryCount + 1 in
          if maxRetries <=? retryCount1 then
            (w1, log1, UploadFailed (chunkFailedMessage chunkIndex errorMessage))
          else
            sendChunk left' w1 form chunkIndex totalChunks uploadedChunks
              (log1 ++ [Waited (1000 * retryCount1)])
      end
  end.

(** The record of the [return] after the [for] loop. *)
Definition fallbackRecord (c : clientEnv) (file : File) (uploadPath : string)
    : fileRecord :=
  {| r_id := "chunked_" +:+ pretty (c_now c) +:+ "_" +:+ c_random c;
     r_name := f_name file;
     r_originalName := f_name file;
     r_size := f_size file;
     r_type := f_type file;
     r_path := uploadPath +:+ "/" +:+ f_name file;
     r_uploadedAt := c_isoNow c;
     r_sizeFormatted := StorageUtils.formatSize (f_size file) |}.

(** The [for] loop from [chunkIndex] on, [remaining = totalChunks -
    chunkIndex] chunks to go. *)
Fixpoint sendChunks (remaining : nat) (c : clientEnv) (chunkSize : Z)
    (file : File) (uploadPath : string) (w : World)
    (chunkIndex totalChunks uploadedChunks : Z) (log : list event)
    : World * list event * promise fileRecord :=
  match remaining with
  | O => (w, log, Resolved (fallbackRecord c file uploadPath))
  | S remaining' =>
      let form := chunkForm chunkSize file uploadPath totalChunks chunkIndex in
      match sendChunk (Z.to_nat maxRetries) w form chunkIndex totalChunks
              uploadedChunks log with
      | (w1, log1, ChunkDone uploadedChunks1) =>
          sendChunks remaining' c chunkSize file uploadPath w1
            (chunkIndex + 1) totalChunks uploadedChunks1 log1
      | (w1, log1, UploadDone rec) => (w1, log1, Resolved rec)
      | (w1, log1, UploadFailed msg) => (w1, log1, Thrown msg)
      end
  end.

Definition uploadLargeFile (c : clientEnv) (chunkSize : Z) (file : File)
    (uploadPath : string) (w : World)
    : World * list event * promise fileRecord :=
  let totalChunks := ceilDiv (f_size file) chunkSize in
  sendChunks (Z.to_nat totalChunks) c chunkSize file uploadPath w 0
    totalChunks 0 [].

(** One XHR with the whole file.  (The 'progress' events of the XHR are
    left out; 'abort' never fires, nothing calls [xhr.abort].) *)
Definition uploadSmallFile (file : File) (uploadPath : string) (w : World)
    : World * list event * promise fileRecord :=
  let form := wholeForm file uploadPath in
  let '(w1, o) := send w form in
  let result :=
    match o with
    | NetworkError _ => Thrown "Network error during upload"
    | Answer status statusText parsed =>
        if status =? 200 then
          match parsed with
          | inl _ => Thrown "Invalid response from server"
          | inr response =>
              match success response, files response with
              | Some true, Some (first :: _) => Resolved first
              | _, _ => Thrown (orElse (error response) "Upload failed")
              end
          end
        else Thrown ("HTTP " +:+ pretty status +:+ ": " +:+ statusText)
    end in
  (w1, [Sent form], result).

(** The [try] block of [uploadFiles] for one file. *)
Definition uploadOne (c : clientEnv) (chunkSize : Z) (file : File)
    (uploadPath : string) (w : World)
    : World * list event * promise fileRecord :=
  if chunkSize <? f_size file
  then uploadLargeFile c chunkSize file uploadPath w
  else uploadSmallFile file uploadPath w.

(** [uploadFiles]: the files one after the other; a failed file does not
    stop the next ones, and makes the whole call throw at the end. *)
Fixpoint uploadEach (c : clientEnv) (chunkSize : Z) (todo : list File)
    (uploadPath : string) (w : World) (results : list fileRecord)
    (hasError : bool) (log : list event)
    : World * list event * list fileRecord * bool :=
  match todo with
  | [] => (w, log, results, hasError)
  | file :: rest =>
      match uploadOne c chunkSize file uploadPath w with
      | (w1, log1, Resolved rec) =>
          uploadEach c chunkSize rest uploadPath w1 (results ++ [rec])
            hasError (log ++ log1)
      | (w1, log1, Thrown _) =>
          uploadEach c chunkSize rest uploadPath w1 results true
            (log ++ log1)
      end
  end.

Definition uploadFiles (c : clientEnv) (chunkSize : Z) (files : list File)
    (uploadPath : string) (w : World)
    : World * list event * promise (list fileRecord) :=
  match uploadEach c chunkSize files uploadPath w [] false [] with
  | (w1, log, results, true) => (w1, log, Thrown "Some files failed to upload")
  | (w1, log, results, false) => (w1, log, Resolved results)
  end.

End Transport.

(** *** Two transports *)

(** A scripted transport: the outcomes of the requests to come, in order.
    Whatever the network and the server do is one such script. *)
Definition scripted (script : list outcome) (form : formData)
    : list outcome * outcome :=
  match script with
  | o :: rest => (rest, o)
  | [] => ([], NetworkError "Failed to fetch")
  end.

(** The route itself behind a network that may lose a request or a
    response. *)
Inductive delivery : Type :=
| Delivered
| RequestLost
| ResponseLost.

Record exchange : Type := {
  x_delivery : delivery;
  x_env : env;
  x_fileEnv : nat → env
}.

Record world : Type := {
  w_fs : gmap string (list Byte.byte);
  w_tick : nat
}.

Definition statusTextOf (status : Z) : string :=
  if status =? 200 then "OK"
  else if status =? 400 then "Bad Request"
  else "Internal Server Error".

(** The [tick]-th request of a run meets [net tick]. *)
Definition served (net : nat → exchange) (w : world) (form : formData)
    : world * outcome :=
  let x := net (w_tick w) in
  let next fs := {| w_fs := fs; w_tick := S (w_tick w) |} in
  match x_delivery x with
  | RequestLost => (next (w_fs w), NetworkError "Failed to fetch")
  | Delivered =>
      let '(fs1, resp) := POST (x_env x) (x_fileEnv x) (w_fs w) form in
      (next fs1,
       Answer (status resp) (statusTextOf (status resp)) (inr (json resp)))
  | ResponseLost =>
      let '(fs1, _) := POST (x_env x) (x_fileEnv x) (w_fs w) form in
      (next fs1, NetworkError "Failed to fetch")
  end.

End FileUploader.

(** ** The listing and delete routes (app/api/files) *)

Module FilesRoute.

Definition getFileType (filename : string) : string :=
  let extension := Js.toLowerCase (Js.pop (Js.split "." filename)).1 in
  if Js.includes ["jpg"; "jpeg"; "png"; "gif"; "bmp"; "webp"] extension
  then "image/*"
  else if Js.includes ["mp4"; "avi"; "mov"; "wmv"; "flv"; "webm"] extension
  then "video/*"
  else if Js.includes ["mp3"; "wav"; "flac"; "aac"; "ogg"] extension
  then "audio/*"
  else if String.eqb extension "pdf" then "application/pdf"
  else if Js.includes ["doc"; "docx"] extension then "application/msword"
  else if Js.includes ["xls"; "xlsx"] extension
  then "application/vnd.ms-excel"
  else if Js.includes ["zip"; "rar"; "7z"; "tar"; "gz"] extension
  then "application/zip"
  else "application/octet-stream".

(** What [stat] tells about a file. *)
Record stats : Type := {
  s_mtime : Z;           (* stats.mtime.getTime() *)
  s_size : Z               (* stats.size *)
}.

(** One entry of [readdir(fullPath, { withFileTypes: true })], with what the
    loop reads from outside while it handles the entry. *)
Record dirent : Type := {
  d_name : string;
  d_isFile : bool;
  d_stat : option stats;  (* [None]: stat rejects *)
  d_random : string       (* Math.random().toString(36).substring(2, 8) *)
}.

Inductive readdirResult : Type :=
| Entries (items : list dirent)
| ENOENT                  (* the directory does not exist *)
| ReaddirError.           (* any other rejection *)

(** An element of [files].  [l_uploadedAt] is the instant whose ISO text
    the JSON carries; the comparator of the sort reads it back with
    [new Date(...).getTime()]. *)
Record listed : Type := {
  l_id : string;
  l_name : string;
  l_size : Z;
  l_type : string;
  l_path : string;
  l_uploadedAt : Z;
  l_sizeFormatted : string
}.

Inductive listResponse : Type :=
| Listing (files : list listed) (path : string) (count : Z)
| ListError (status : Z) (error : string).

(** The body of the [for] loop: the element pushed for [item], if any. *)
Definition listedFile (sanitizedPath : string) (item : dirent)
    : option listed :=
  if d_isFile item then
    match d_stat item with
    | Some st =>
        Some {| l_id := pretty (s_mtime st) +:+ "_" +:+ d_random item;
                l_name := d_name item;
                l_size := s_size st;
                l_type := getFileType (d_name item);
                l_path := sanitizedPath +:+ "/" +:+ d_name item;
                l_uploadedAt := s_mtime st;
                l_sizeFormatted := StorageUtils.formatSize (s_size st) |}
    | None => None
    end
  else None.

(** Newest first. *)
Definition byDate (a b : listed) : Z := l_uploadedAt b - l_uploadedAt a.

Definition GET (path : option string) (dir : readdirResult) : listResponse :=
  let path :=
    match path with
    | Some p => if String.eqb p "" then "/" else p
    | None => "/"
    end in
  let sanitizedPath := Route.sanitize path in
  match dir with
  | Entries items =>
      let files := Js.sort byDate (omap (listedFile sanitizedPath) items) in
      Listing files sanitizedPath (Z.of_nat (length files))
  | ENOENT => Listing [] sanitizedPath 0
  | ReaddirError => ListError 500 "Failed to list files"
  end.

(** What a delete request reads from outside. *)
Record deleteEnv : Type := {
  isDirectory : bool;     (* the path names a directory *)
  accessOk : bool;        (* the process may reach the path *)
  unlinkOk : bool         (* unlink of a regular file resolves *)
}.

Inductive deleteResponse : Type :=
| Deleted (deletedPath : string)
| DeleteError (status : Z) (error : string).

(** [access] resolves for a file or a directory that is there; [unlink]
    removes regular files only. *)
Definition DELETE (e : deleteEnv) (fs : gmap string (list Byte.byte))
    (filePath : option string)
    : gmap string (list Byte.byte) * deleteResponse :=
  match filePath with
  | None => (fs, DeleteError 400 "File path is required")
  | Some filePath =>
      if String.eqb filePath "" then
        (fs, DeleteError 400 "File path is required")
      else
        let sanitizedPath := Route.sanitize filePath in
        let fullFilePath := Route.pathJoin Route.STORAGE_PATH sanitizedPath in
        if negb (accessOk e
                 && (Route.existsSync fs fullFilePath || isDirectory e))
        then (fs, DeleteError 404 "File not found or not accessible")
        else
          match Route.unlink (unlinkOk e) fs fullFilePath with
          | Some fs1 => (fs1, Deleted sanitizedPath)
          | None => (fs, DeleteError 500 "Failed to delete file")
          end
  end.

End FilesRoute.

(** ** The storage figures of the page (app/page.tsx) *)

Module Page.

Record storageInfo : Type := {
  used : Z;
  total : Q;
  percentage : Q;
  fileCount : Z
}.

(** [uploadedFiles] is given by the [size] of its elements. *)
Definition calculateStorageUsage (uploadedFiles : list Z)
    (maxTotalUploads : string) : storageInfo :=
  let totalUsed := Js.sum uploadedFiles in
  let total := StorageUtils.parseSize maxTotalUploads in
  let percentage :=
    StorageUtils.calculatePercentage (inject_Z totalUsed) total in
  {| used := totalUsed;
     total := total;
     percentage := percentage;
     fileCount := Z.of_nat (length uploadedFiles) |}.

Inductive limits : Type :=
| Allowed
| Blocked (reason : string).

Definition checkUploadLimits (uploadedFiles newFiles : list Z)
    (maxTotalUploads maxFilesCount : string) : limits :=
  let currentUsed := Js.sum uploadedFiles in
  let newFilesSize := Js.sum newFiles in
  let total := StorageUtils.parseSize maxTotalUploads in
  let maxFiles := Js.parseInt maxFilesCount in
  if Js.lt maxFiles
       (Js.Num (Z.of_nat (length uploadedFiles) + Z.of_nat (length newFiles)))
  then Blocked ("Maximum file count (" +:+ Js.toString maxFiles
                +:+ ") would be exceeded")
  else if negb (Qle_bool (inject_Z (currentUsed + newFilesSize)) total)
  then Blocked ("Storage limit (" +:+ maxTotalUploads
                +:+ ") would be exceeded")
  else Allowed.

End Page.

(** ** The sidebar (app/components/Sidebar.tsx) *)

Module Sidebar.

(** [getStorageStatusColor] of the sidebar is
    [StorageUtils.getStorageStatusColor] of the percentage of the page. *)
Definition getStorageStatusText (percentage : Q) : string :=
  if Qle_bool 90 percentage then "Critical"
  else if Qle_bool 75 percentage then "Warning"
  else if Qle_bool 50 percentage then "Moderate"
  else "Good".

End Sidebar.

(** ** Vocabulary of the properties *)

(** The first character of [s], if any, fails [p]. *)
Definition stopsAt (p : ascii → bool) (s : string) : bool :=
  match s with
  | "" => true
  | String c _ => negb (p c)
  end.

(** [u] spells a unit of the size codec, in any letter case, and [k] is its
    number of bytes. *)
Definition UnitOf (u : string) (k : Z) : Prop :=
  (Js.toUpperCase u, k)
  ∈ [("B", 1); ("KB", 1024); ("MB", 1024 ^ 2); ("GB", 1024 ^ 3); ("TB", 1024 ^ 4)].

(** [SizeText s num u]: [s] is a number [num] (digits, or digits, a point and
    digits), white space, and a unit [u]. *)
Inductive SizeText : string → string → string → Prop :=
| SizeInteger ip ws u k :
    ip ≠ "" → Js.allb Js.isDigit ip = true →
    Js.allb Js.isWhiteSpace ws = true → UnitOf u k →
    SizeText (ip +:+ ws +:+ u) ip u
| SizeFraction ip fp ws u k :
    ip ≠ "" → Js.allb Js.isDigit ip = true →
    fp ≠ "" → Js.allb Js.isDigit fp = true →
    Js.allb Js.isWhiteSpace ws = true → UnitOf u k →
    SizeText (ip +:+ "." +:+ fp +:+ ws +:+ u) (ip +:+ "." +:+ fp) u.

(** [num] is a decimal number without sign or exponent. *)
Definition DecimalText (num : string) : Prop :=
  ∃ ip, ip ≠ "" ∧ Js.allb Js.isDigit ip = true
        ∧ (num = ip
           ∨ ∃ fp, fp ≠ "" ∧ Js.allb Js.isDigit fp = true
                   ∧ num = ip +:+ "." +:+ fp).

(** The documented shape of a formatted size: a number, one space, a unit of
    the table. *)
Definition WellFormedSize (out : string) : Prop :=
  ∃ num unit, DecimalText num ∧ unit ∈ StorageUtils.sizes
              ∧ out = num +:+ " " +:+ unit.

(** The first [n] alphanumeric characters of [s]. *)
Fixpoint firstAlnum (n : nat) (s : string) {struct s} : string :=
  match n, s with
  | S n', String c r =>
      if Js.isAlnum c then String c (firstAlnum n' r) else firstAlnum n r
  | _, _ => ""
  end.

(** An environment in which every file-system call succeeds, at time [t]. *)
Definition calmEnv (t : N) : Route.env :=
  {| Route.now := t;
     Route.idNow := t;
     Route.random := "k3j9xq";
     Route.isoNow := "2024-05-01T10:00:00.000Z";
     Route.accessOk := true;
     Route.mkdirOk := true;
     Route.writeOk := true;
     Route.appendOk := true;
     Route.renameOk := true;
     Route.statOk := true;
     Route.readOk := true;
     Route.copyOk := true;
     Route.unlinkOk := true;
     Route.ioError := "EIO: i/o error" |}.

(** A chunk of a multipart body. *)
Definition blob (data : list Byte.byte) : Route.File :=
  {| Route.f_name := "blob"; Route.f_type := ""; Route.f_bytes := data |}.

(** Chunk requests for one file name and destination, served one after the
    other: the last store and the responses, in order. *)
Fixpoint serveAll (uploadPath fileName : string)
    (requests : list (Route.env * Route.File * Js.number * Js.number))
    (fs : gmap string (list Byte.byte))
    : gmap string (list Byte.byte) * list Route.response :=
  match requests with
  | [] => (fs, [])
  | (e, chunk, chunkIndex, totalChunks) :: rest =>
      let '(fs1, resp) :=
        Route.handleChunkedUpload e fs chunk uploadPath chunkIndex totalChunks
          fileName in
      let '(fs2, resps) := serveAll uploadPath fileName rest fs1 in
      (fs2, resp :: resps)
  end.

(** The names of the file records of a response. *)
Definition recordNames (resp : Route.response) : list string :=
  match Route.files (Route.json resp) with
  | Some records => Route.r_name <$> records
  | None => []
  end.

(** The sizes of the file records of a response. *)
Definition recordSizes (resp : Route.response) : list Z :=
  match Route.files (Route.json resp) with
  | Some records => Route.r_size <$> records
  | None => []
  end.

(** The directory a destination resolves to. *)
Definition directoryOf (uploadPath : string) : string :=
  Route.pathJoin Route.STORAGE_PATH (Route.sanitize uploadPath).


(** The attempt succeeds and does not report a completed upload. *)
Definition isAck (o : FileUploader.outcome) : bool :=
  match FileUploader.attemptResult o with
  | inr result =>
      match FileUploader.completedFile result with
      | None => true
      | Some _ => false
      end
  | inl _ => false
  end.

(** The message of a failed attempt, if it failed. *)
Definition failureOf (o : FileUploader.outcome) : option string :=
  match FileUploader.attemptResult o with
  | inl msg => Some msg
  | inr _ => None
  end.

(** The forms of the chunks [first, first + count) of a file. *)
Definition planFrom (chunkSize : Z) (file : Route.File) (uploadPath : string)
    (first count : nat) : list Route.formData :=
  (λ k, FileUploader.chunkForm chunkSize file uploadPath
          (FileUploader.ceilDiv (Route.f_size file) chunkSize) (Z.of_nat k))
  <$> seq first count.

(** The events of chunks [first, first + count) when each is acknowledged at
    its first attempt. *)
Definition smoothLog (chunkSize : Z) (file : Route.File) (uploadPath : string)
    (first count : nat) : list FileUploader.event :=
  concat
    ((λ k, [FileUploader.Sent
              (FileUploader.chunkForm chunkSize file uploadPath
                 (FileUploader.ceilDiv (Route.f_size file) chunkSize)
                 (Z.of_nat k));
            FileUploader.Progress (Z.of_nat k + 1)
              (FileUploader.ceilDiv (Route.f_size file) chunkSize)])
     <$> seq first count).

(** The requests of a log, in order. *)
Definition sentForms (log : list FileUploader.event) : list Route.formData :=
  omap (λ ev, match ev with FileUploader.Sent form => Some form | _ => None end)
    log.

(** The bytes a form carries. *)
Definition formBytes (form : Route.formData) : list Byte.byte :=
  concat (Route.f_bytes <$> Route.fd_files form).

(** A browser clock for the samples. *)
Definition quietClient : FileUploader.clientEnv :=
  {| FileUploader.c_now := 1714557600000;
     FileUploader.c_random := "p0q1r2";
     FileUploader.c_isoNow := "2024-05-01T10:00:00.000Z" |}.

(** The answer of the route to a chunk that is not the last one. *)
Definition ackOutcome (index total : Z) : FileUploader.outcome :=
  FileUploader.Answer 200 "OK"
    (inr (Route.json (Route.chunkReceived (Js.Num index) (Js.Num total)))).

(** A file of [n] zero bytes. *)
Definition zeros (name : string) (n : Z) : Route.File :=
  {| Route.f_name := name; Route.f_type := "application/octet-stream";
     Route.f_bytes := replicate (Z.to_nat n) Byte.x00 |}.

(** [takenIn fs dir n]: a file named [n] exists in the directory [dir]. *)
Definition takenIn (fs : gmap string (list Byte.byte)) (dir : string)
    (n : string) : bool :=
  Route.existsSync fs (Route.pathJoin dir n).

(** A network that delivers every request, the [i]-th one at
    [start + i * gap] milliseconds, to a server whose file-system calls all
    succeed. *)
Definition steadyNet (start gap : N) (i : nat) : FileUploader.exchange :=
  {| FileUploader.x_delivery := FileUploader.Delivered;
     FileUploader.x_env := calmEnv (start + gap * N.of_nat i);
     FileUploader.x_fileEnv := λ _, calmEnv (start + gap * N.of_nat i) |}.

(** The storage before anything is uploaded. *)
Definition emptyWorld : FileUploader.world :=
  {| FileUploader.w_fs := ∅; FileUploader.w_tick := 0 |}.

(** The length of every file of a store. *)
Definition fileSizes (fs : gmap string (list Byte.byte)) : gmap string Z :=
  (λ data, Z.of_nat (length data)) <$> fs.

(** The response reports a completed upload. *)
Definition isCompleted (resp : Route.response) : bool :=
  match Route.completed (Route.json resp) with
  | Some true => true
  | _ => false
  end.

(** [s.startsWith(sub)] *)
Fixpoint startsWith (sub s : string) : bool :=
  match sub, s with
  | "", _ => true
  | String a sub', String b s' => Ascii.eqb a b && startsWith sub' s'
  | String _ _, "" => false
  end.

(** [s.includes(sub)] *)
Fixpoint contains (sub s : string) : bool :=
  startsWith sub s
  || match s with
     | "" => false
     | String _ r => contains sub r
     end.

(** The path a request without one, or with an empty one, falls back to. *)
Definition effectivePath (uploadPath : string) : string :=
  if String.eqb uploadPath "" then "/" else uploadPath.

(** The file-system calls of a chunk request all succeed at once. *)
Definition allSucceed (e : Route.env) : bool :=
  Route.mkdirOk e && Route.writeOk e && Route.appendOk e
  && Route.renameOk e && Route.statOk e.

(** The requests of one upload, in index order: the [i]-th element of
    [parts] is chunk [k + i] of [total], served in its environment. *)
Fixpoint chunkRequests (k total : nat)
    (parts : list (Route.env * list Byte.byte))
    : list (Route.env * Route.File * Js.number * Js.number) :=
  match parts with
  | [] => []
  | (e, data) :: rest =>
      (e, blob data, Js.Num (Z.of_nat k), Js.Num (Z.of_nat total))
      :: chunkRequests (S k) total rest
  end.

(** Every request of a run is delivered, within the millisecond [t], to a
    server whose file-system calls succeed. *)
Definition sameMillisecond (net : nat → FileUploader.exchange) (t : N) : Prop :=
  ∀ i, FileUploader.x_delivery (net i) = FileUploader.Delivered
       ∧ Route.now (FileUploader.x_env (net i)) = t
       ∧ allSucceed (FileUploader.x_env (net i)) = true.

(** [e] with a [rename] that rejects and a copy, read and unlink that
    resolve. *)
Definition renameFails (e : Route.env) : Route.env :=
  {| Route.now := Route.now e;
     Route.idNow := Route.idNow e;
     Route.random := Route.random e;
     Route.isoNow := Route.isoNow e;
     Route.accessOk := Route.accessOk e;
     Route.mkdirOk := Route.mkdirOk e;
     Route.writeOk := Route.writeOk e;
     Route.appendOk := Route.appendOk e;
     Route.renameOk := false;
     Route.statOk := Route.statOk e;
     Route.readOk := true;
     Route.copyOk := true;
     Route.unlinkOk := true;
     Route.ioError := Route.ioError e |}.

(** [e] with a [rename] and a [stat] that resolve. *)
Definition renameWorks (e : Route.env) : Route.env :=
  {| Route.now := Route.now e;
     Route.idNow := Route.idNow e;
     Route.random := Route.random e;
     Route.isoNow := Route.isoNow e;
     Route.accessOk := Route.accessOk e;
     Route.mkdirOk := Route.mkdirOk e;
     Route.writeOk := Route.writeOk e;
     Route.appendOk := Route.appendOk e;
     Route.renameOk := true;
     Route.statOk := true;
     Route.readOk := Route.readOk e;
     Route.copyOk := Route.copyOk e;
     Route.unlinkOk := Route.unlinkOk e;
     Route.ioError := Route.ioError e |}.

(** The response is an error of status [code]: it has an [error] text and no
    [success], and no file record. *)
Definition isError (code : Z) (resp : Route.response) : Prop :=
  Route.status resp = code
  ∧ Route.success (Route.json resp) = None
  ∧ is_Some (Route.error (Route.json resp))
  ∧ Route.files (Route.json resp) = None.

(** The response reports success: status 200, [success: true], no [error]. *)
Definition isOkResponse (resp : Route.response) : Prop :=
  Route.status resp = 200
  ∧ Route.success (Route.json resp) = Some true
  ∧ Route.error (Route.json resp) = None.

(** The names under which the files of a whole-file upload are stored, in
    order; [fe (first + i)] is what the iteration of the [i]-th file reads. *)
Definition generatedNames (fe : nat → Route.env) (first : nat)
    (files : list Route.File) : list string :=
  imap (λ i file,
          Route.generatedName (Route.f_name file)
            (Route.now (fe (first + i)%nat)) (Route.random (fe (first + i)%nat)))
    files.

(** The text holds no point. *)
Definition noDot (s : string) : bool :=
  Js.allb (λ c, negb (Ascii.eqb c ".")) s.

(** The elements are in the order of their dates, the newest first. *)
Fixpoint newestFirst (files : list FilesRoute.listed) : Prop :=
  match files with
  | [] => True
  | f :: rest =>
      Forall (λ g, FilesRoute.l_uploadedAt g ≤ FilesRoute.l_uploadedAt f) rest
      ∧ newestFirst rest
  end.

(** The entries of a directory that the listing reports: the regular files
    whose [stat] resolves. *)
Definition isListed (item : FilesRoute.dirent) : bool :=
  FilesRoute.d_isFile item && bool_decide (is_Some (FilesRoute.d_stat item)).

(** The file a delete request is about. *)
Definition deleteTarget (filePath : string) : string :=
  Route.pathJoin Route.STORAGE_PATH (Route.sanitize filePath).

(** A delete request that finds the storage as it should be: no directory
    under the path, access granted, [unlink] resolving. *)
Definition calmDelete : FilesRoute.deleteEnv :=
  {| FilesRoute.isDirectory := false;
     FilesRoute.accessOk := true;
     FilesRoute.unlinkOk := true |}.

(** *** The [path] module of Node, posix flavour

    [join] of the routes is [path.join]: it joins its non-empty arguments
    with "/" and normalizes the result.  [Route.pathJoin] gives the text
    before that normalization, and the storage of the model is keyed by it;
    [Path.normalize] gives the path the file system is asked for. *)
Module Path.

(** [path.charCodeAt(path.length - 1) === CHAR_FORWARD_SLASH] *)
Fixpoint trailingSeparator (path : string) : bool :=
  match path with
  | "" => false
  | String c "" => Ascii.eqb c "/"
  | String _ r => trailingSeparator r
  end.

(** One segment of [normalizeString]; [res] holds the segments kept so far,
    the last one first.  An empty segment and "." are dropped; ".." removes
    the last segment kept, unless there is none or it is ".." itself, and is
    then kept only where the path may climb above its root. *)
Definition normalizeSegment (allowAboveRoot : bool) (res : list string)
    (segment : string) : list string :=
  if String.eqb segment "" || String.eqb segment "." then res
  else if String.eqb segment ".." then
    match res with
    | [] => if allowAboveRoot then [".."] else []
    | last :: before =>
        if String.eqb last ".." then
          if allowAboveRoot then ".." :: res else res
        else before
    end
  else segment :: res.

Definition normalizeString (path : string) (allowAboveRoot : bool) : string :=
  Js.join "/"
    (rev (foldl (normalizeSegment allowAboveRoot) [] (Js.split "/" path))).

(** [path.normalize(path)] *)
Definition normalize (path : string) : string :=
  if String.eqb path "" then "."
  else
    let isAbsolute := startsWith "/" path in
    let trailing := trailingSeparator path in
    let res := normalizeString path (negb isAbsolute) in
    if String.eqb res "" then
      if isAbsolute then "/" else if trailing then "./" else "."
    else
      (if isAbsolute then "/" else "") +:+ res
      +:+ (if trailing then "/" else "").

(** [path.join(...args)] *)
Definition join (args : list string) : string :=
  match List.filter (λ arg, negb (String.eqb arg "")) args with
  | [] => "."
  | parts => normalize (Js.join "/" parts)
  end.

End Path.

(** The segments of a path that normalization keeps when none is "..". *)
Definition keptSegment (segment : string) : bool :=
  negb (String.eqb segment "" || String.eqb segment ".").

Definition plainSegments (path : string) : list string :=
  List.filter keptSegment (Js.split "/" path).

(** An absolute path without ".." segments, which keeps the segments
    [kept]. *)
Definition plainPath (path : string) (kept : list string) : Prop :=
  startsWith "/" path = true
  ∧ (".." ∉ Js.split "/" path)
  ∧ plainSegments path = kept.

(** An answer that reports the upload as completed, with the record [rec]. *)
Definition completedOutcome (rec : Route.fileRecord) (sanitizedPath : string)
    : FileUploader.outcome :=
  FileUploader.Answer 200 "OK"
    (inr (Route.json (Route.chunkedCompleted rec sanitizedPath))).

(** The text has no slash. *)
Definition noSlash (s : string) : bool :=
  Js.allb (λ c, negb (Ascii.eqb c "/")) s.

(** ** Samples *)

Example parseSize_samples :
  StorageUtils.parseSize "5MB" = 5242880%Q
  ∧ StorageUtils.parseSize "1.5 kb" = 1536%Q
  ∧ StorageUtils.parseSize "10GB" = 10737418240%Q
  ∧ StorageUtils.parseSize "0.5B" = (1 # 2)%Q
  ∧ StorageUtils.parseSize "5 M" = 0%Q
  ∧ StorageUtils.parseSize "MB" = 0%Q
  ∧ StorageUtils.parseSize "5.MB" = 0%Q.
Proof. vm_compute. repeat split. Qed.

Example formatSize_samples :
  StorageUtils.formatSize 0 = "0 B"
  ∧ StorageUtils.formatSize 5242880 = "5 MB"
  ∧ StorageUtils.formatSize 1536 = "1.5 KB"
  ∧ StorageUtils.formatSize 1048575 = "1024 KB"
  ∧ StorageUtils.formatSize 1234567 = "1.18 MB"
  ∧ StorageUtils.formatSize (1024 ^ 5 - 4) = "1024 TB"
  ∧ StorageUtils.formatSize (1024 ^ 5 - 3) = "1 undefined"
  ∧ StorageUtils.formatSize (1024 ^ 5) = "1 undefined".
Proof. vm_compute. repeat split. Qed.

Example parseInt_samples :
  Js.parseInt "12" = Js.Num 12 ∧ Js.parseInt " -7px" = Js.Num (-7)
  ∧ Js.parseInt "0x1f" = Js.Num 31 ∧ Js.parseInt "abc" = Js.NaN
  ∧ Js.parseInt "" = Js.NaN.
Proof. vm_compute. repeat split. Qed.

Example base64_samples :
  Route.base64 (Route.utf8 "Man") = "TWFu"
  ∧ Route.base64 (Route.utf8 "hello") = "aGVsbG8="
  ∧ Route.base64 (Route.utf8 "x.txt") = "eC50eHQ="
  ∧ Route.base64 (Route.utf8 "light work.") = "bGlnaHQgd29yay4="
  ∧ Route.fileHash "x.txt" = "eC50eHQ"
  ∧ Route.fileHash "a-very-long-file-name.tar.gz" = "YS12ZXJ5LWxvbmct".
Proof. vm_compute. repeat split. Qed.

Example candidate_samples :
  Route.candidate "x.txt" 1 = "x_1.txt"
  ∧ Route.candidate "a.tar.gz" 3 = "a.tar_3.gz"
  ∧ Route.candidate "README" 2 = "_2.README"
  ∧ Route.generatedName "x.txt" 1700000000000 "k3j9xq"
    = "x_1700000000000_k3j9xq.txt"
  ∧ Route.generatedName "README" 5 "ab" = "README_5_ab.README"
  ∧ Route.sanitize "/a/../..//b///c" = "/a/b/c".
Proof. vm_compute. repeat split. Qed.

(** ** Facts about strings *)

Section StringFacts.

Implicit Types (s t u : string) (c : ascii) (p q : ascii → bool).

Lemma str_app_cons c s t : String c s +:+ t = String c (s +:+ t).
Proof. reflexivity. Qed.

Lemma str_app_empty_l s : "" +:+ s = s.
Proof. reflexivity. Qed.

Lemma str_app_empty_r s : s +:+ "" = s.
Proof. induction s as [|c s IH]; [done|]. by rewrite str_app_cons, IH. Qed.

Lemma str_app_assoc s t u : (s +:+ t) +:+ u = s +:+ (t +:+ u).
Proof. induction s as [|c s IH]; [done|]. by rewrite !str_app_cons, IH. Qed.

Lemma str_length_app s t :
  String.length (s +:+ t) = (String.length s + String.length t)%nat.
Proof. induction s as [|c s IH]; [done|]. rewrite str_app_cons. simpl. lia. Qed.

Lemma str_app_inv_tail s t u : s +:+ u = t +:+ u → s = t.
Proof.
  revert t. induction s as [|c s IH]; intros [|d t] H.
  - done.
  - apply (f_equal String.length) in H.
    rewrite str_app_empty_l, str_app_cons in H. simpl in H.
    rewrite str_length_app in H. lia.
  - apply (f_equal String.length) in H.
    rewrite str_app_empty_l, str_app_cons in H. simpl in H.
    rewrite str_length_app in H. lia.
  - rewrite !str_app_cons in H. injection H as -> H. f_equal. by apply IH.
Qed.

Lemma allb_app p s t : Js.allb p (s +:+ t) = Js.allb p s && Js.allb p t.
Proof.
  induction s as [|c s IH]; [done|].
  rewrite str_app_cons. simpl. rewrite IH. by rewrite andb_assoc.
Qed.

Lemma allb_impl p q s :
  (∀ c, p c = true → q c = true) → Js.allb p s = true → Js.allb q s = true.
Proof.
  intros Hpq. induction s as [|c s IH]; [done|]. simpl.
  intros [Hc Hs]%andb_true_iff. rewrite (Hpq _ Hc). by apply IH.
Qed.

Lemma span_app p s t :
  Js.allb p s = true → stopsAt p t = true → Js.span p (s +:+ t) = (s, t).
Proof.
  intros Hs Ht. induction s as [|c s IH].
  - rewrite str_app_empty_l. destruct t as [|d t]; [done|]. simpl in *.
    by destruct (p d).
  - rewrite str_app_cons. simpl in *. apply andb_true_iff in Hs as [-> Hs].
    by rewrite (IH Hs).
Qed.

Lemma span_spec p s a b :
  Js.span p s = (a, b) →
  s = a +:+ b ∧ Js.allb p a = true ∧ stopsAt p b = true.
Proof.
  revert a b. induction s as [|c s IH]; intros a b; simpl.
  - by intros [= <- <-].
  - destruct (p c) eqn:Hc.
    + destruct (Js.span p s) as [a' b'] eqn:Hsp. intros [= <- <-].
      destruct (IH _ _ eq_refl) as (-> & Ha & Hb).
      rewrite str_app_cons. simpl. by rewrite Hc, Ha.
    + intros [= <- <-]. simpl. by rewrite Hc.
Qed.

(** Cutting at the first occurrence of a character is unambiguous. *)
Lemma cut_unique c s s' t t' :
  Js.allb (λ d, negb (Ascii.eqb d c)) s = true →
  Js.allb (λ d, negb (Ascii.eqb d c)) s' = true →
  s +:+ String c t = s' +:+ String c t' → s = s' ∧ t = t'.
Proof.
  revert s'. induction s as [|a s IH]; intros [|a' s']; simpl;
    rewrite ?str_app_empty_l, ?str_app_cons.
  - by intros _ _ [= ->].
  - intros _ [H _]%andb_true_iff [= <- _]. by rewrite Ascii.eqb_refl in H.
  - intros [H _]%andb_true_iff _ [= -> _]. by rewrite Ascii.eqb_refl in H.
  - intros [_ Hs]%andb_true_iff [_ Hs']%andb_true_iff [= -> H].
    destruct (IH _ Hs Hs' H) as [-> ->]. done.
Qed.

Lemma trimStart_blank s :
  Js.allb Js.isWhiteSpace s = true → Js.trimStart s = "".
Proof.
  induction s as [|c s IH]; [done|]. simpl.
  intros [-> Hs]%andb_true_iff. by apply IH.
Qed.

Lemma trim_blank s : Js.allb Js.isWhiteSpace s = true → Js.trim s = "".
Proof. intros H. unfold Js.trim. by rewrite (trimStart_blank _ H). Qed.

End StringFacts.

(** ** Decimal printing *)

Lemma pretty_N_char_digit (x : N) : Js.isDigit (pretty_N_char x) = true.
Proof. unfold pretty_N_char. by repeat case_match. Qed.

Lemma pretty_N_go_digits (x : N) (s : string) :
  Js.allb Js.isDigit s = true → Js.allb Js.isDigit (pretty_N_go x s) = true.
Proof.
  revert s. induction (N.lt_wf_0 x) as [x _ IH]; intros s Hs.
  destruct (decide (x = 0%N)) as [->|Hx]; [done|].
  rewrite pretty_N_go_step by lia.
  apply IH; [apply N.div_lt; lia|].
  simpl. by rewrite pretty_N_char_digit.
Qed.

Lemma pretty_N_digits (x : N) : Js.allb Js.isDigit (pretty x) = true.
Proof.
  unfold pretty, pretty_N. case_decide; [done|]. by apply pretty_N_go_digits.
Qed.

Lemma pretty_Z_digits (z : Z) : 0 ≤ z → Js.allb Js.isDigit (pretty z) = true.
Proof.
  destruct z as [|p|p]; [done| |lia]. intros _. apply (pretty_N_digits (Npos p)).
Qed.

Lemma pretty_N_nonempty (x : N) : pretty x ≠ "".
Proof.
  intros H. assert (Hl : String.length (pretty x) = 0%nat) by (by rewrite H).
  revert Hl. unfold pretty, pretty_N. case_decide; [done|].
  assert (Hgo : ∀ y s, (String.length s ≤ String.length (pretty_N_go y s))%nat).
  { intros y. induction (N.lt_wf_0 y) as [y _ IH]; intros s.
    destruct (decide (y = 0%N)) as [->|Hy]; [done|].
    rewrite pretty_N_go_step by lia.
    etrans; [|apply IH; apply N.div_lt; lia]. simpl. lia. }
  rewrite pretty_N_go_step by lia.
  intros Hl. specialize (Hgo (x `div` 10)%N (String (pretty_N_char (x `mod` 10)) "")).
  simpl in Hgo. lia.
Qed.

(** ** The size pattern and its grammar *)

Lemma unit_letter_class (a : ascii) :
  Js.upper a = "B"%char ∨ Js.upper a = "K"%char ∨ Js.upper a = "M"%char
  ∨ Js.upper a = "G"%char ∨ Js.upper a = "T"%char →
  Js.isDigit a = false ∧ Js.isWhiteSpace a = false ∧ Ascii.eqb a "." = false.
Proof.
  destruct a as [[] [] [] [] [] [] [] []]; vm_compute; try done;
    intros [H|[H|[H|[H|H]]]]; discriminate H.
Qed.

Lemma UnitOf_inv (u : string) (k : Z) :
  UnitOf u k →
  StorageUtils.isUnit u = true
  ∧ StorageUtils.units (Js.toUpperCase u) = Some k
  ∧ ∃ a r, u = String a r
           ∧ Js.isDigit a = false ∧ Js.isWhiteSpace a = false
           ∧ Ascii.eqb a "." = false.
Proof.
  unfold UnitOf, Js.toUpperCase. rewrite !elem_of_cons, elem_of_nil.
  intros H.
  destruct u as [|a [|b [|c r]]]; simpl in H.
  - exfalso. destruct H as [H|[H|[H|[H|[H|[]]]]]]; discriminate H.
  - destruct H as [H|[H|[H|[H|[H|[]]]]]]; try discriminate H.
    injection H as Ha ->. simpl. rewrite Ha.
    split; [reflexivity|]. split; [reflexivity|].
    exists a, "". split; [done|]. apply unit_letter_class. auto.
  - destruct H as [H|[H|[H|[H|[H|[]]]]]]; try discriminate H;
      injection H as Ha Hb ->; simpl; rewrite Ha, Hb;
      (split; [reflexivity|]); (split; [reflexivity|]);
      exists a, (String b ""); (split; [done|]); apply unit_letter_class; auto.
  - exfalso. destruct H as [H|[H|[H|[H|[H|[]]]]]]; discriminate H.
Qed.

Lemma isUnit_UnitOf (u : string) :
  StorageUtils.isUnit u = true → ∃ k, UnitOf u k.
Proof.
  unfold UnitOf, Js.toUpperCase.
  destruct u as [|a [|b [|c r]]]; simpl; try done.
  - intros Ha%Ascii.eqb_eq. rewrite Ha. eexists. rewrite elem_of_cons. by left.
  - intros [H Hb%Ascii.eqb_eq]%andb_true_iff. rewrite Hb.
    apply orb_true_iff in H as [H|H];
      [apply orb_true_iff in H as [H|H]; [apply orb_true_iff in H as [H|H]|]|];
      apply Ascii.eqb_eq in H; rewrite H; eexists; rewrite !elem_of_cons; eauto 10.
Qed.

Lemma sizePattern_complete (s num u : string) :
  SizeText s num u → StorageUtils.sizePattern s = Some (num, u).
Proof.
  intros [ip ws u' k Hne Hip Hws Hu|ip fp ws u' k Hne Hip Hfne Hfp Hws Hu];
    destruct (UnitOf_inv _ _ Hu) as (Hunit & _ & a & r & -> & Hd & Hw & Hdot);
    unfold StorageUtils.sizePattern.
  - rewrite (span_app Js.isDigit ip (ws +:+ String a r)); [|done|].
    2:{ destruct ws as [|w ws]; simpl in *; [by rewrite Hd|].
        apply andb_true_iff in Hws as [Hw' _].
        destruct w as [[] [] [] [] [] [] [] []]; done. }
    destruct (String.eqb ip "") eqn:E; [by apply String.eqb_eq in E|].
    assert (Hr : match ws +:+ String a r with
                 | String "." f =>
                     let '(fp, r0) := Js.span Js.isDigit f in
                     if String.eqb fp "" then (ip, ws +:+ String a r)
                     else (ip +:+ "." +:+ fp, r0)
                 | _ => (ip, ws +:+ String a r)
                 end = (ip, ws +:+ String a r)).
    { destruct ws as [|w ws]; simpl in *.
      - rewrite str_app_empty_l. apply Ascii.eqb_neq in Hdot.
        destruct a as [[] [] [] [] [] [] [] []]; done.
      - apply andb_true_iff in Hws as [Hw' _]. rewrite str_app_cons.
        destruct w as [[] [] [] [] [] [] [] []]; done. }
    rewrite Hr.
    rewrite (span_app Js.isWhiteSpace ws (String a r)); [|done|by simpl; rewrite Hw].
    by rewrite Hunit.
  - rewrite (span_app Js.isDigit ip ("." +:+ fp +:+ ws +:+ String a r)); [|done..].
    destruct (String.eqb ip "") eqn:E; [by apply String.eqb_eq in E|].
    change ("." +:+ fp +:+ ws +:+ String a r) with (String "." (fp +:+ ws +:+ String a r)).
    cbv beta iota.
    rewrite (span_app Js.isDigit fp (ws +:+ String a r)); [|done|].
    2:{ destruct ws as [|w ws]; simpl in *; [by rewrite Hd|].
        apply andb_true_iff in Hws as [Hw' _].
        destruct w as [[] [] [] [] [] [] [] []]; done. }
    destruct (String.eqb fp "") eqn:E'; [by apply String.eqb_eq in E'|].
    rewrite (span_app Js.isWhiteSpace ws (String a r)); [|done|by simpl; rewrite Hw].
    by rewrite Hunit.
Qed.

Lemma sizePattern_sound (s num u : string) :
  StorageUtils.sizePattern s = Some (num, u) → SizeText s num u.
Proof.
  unfold StorageUtils.sizePattern.
  destruct (Js.span Js.isDigit s) as [ip r1] eqn:H1.
  apply span_spec in H1 as (-> & Hip & Hstop).
  destruct (String.eqb ip "") eqn:E; [done|]. apply String.eqb_neq in E.
  assert (Hplain :
    (let '(_, r3) := Js.span Js.isWhiteSpace r1 in
     if StorageUtils.isUnit r3 then Some (ip, r3) else None) = Some (num, u) →
    SizeText (ip +:+ r1) num u).
  { destruct (Js.span Js.isWhiteSpace r1) as [ws r3] eqn:H3.
    apply span_spec in H3 as (-> & Hws & _).
    destruct (StorageUtils.isUnit r3) eqn:Hu; [|done]. intros [= <- <-].
    destruct (isUnit_UnitOf _ Hu) as [k Hk]. by econstructor. }
  destruct r1 as [|c r1]; [done|].
  destruct (Ascii.eqb c ".") eqn:Hc.
  2:{ intros H. apply Hplain. apply Ascii.eqb_neq in Hc.
      destruct c as [[] [] [] [] [] [] [] []]; done. }
  apply Ascii.eqb_eq in Hc as ->.
  destruct (Js.span Js.isDigit r1) as [fp r] eqn:H2.
  destruct (String.eqb fp "") eqn:E'; [done|]. apply String.eqb_neq in E'.
  apply span_spec in H2 as (-> & Hfp & _).
  destruct (Js.span Js.isWhiteSpace r) as [ws r3] eqn:H3.
  apply span_spec in H3 as (-> & Hws & _).
  destruct (StorageUtils.isUnit r3) eqn:Hu; [|done]. intros [= <- <-].
  destruct (isUnit_UnitOf _ Hu) as [k Hk].
  change (ip +:+ String "." (fp +:+ ws +:+ r3)) with (ip +:+ "." +:+ fp +:+ ws +:+ r3).
  by econstructor.
Qed.

(** ** Values of the size codec *)

Lemma digitsValueFrom_app (acc : N) (s t : string) :
  Js.digitsValueFrom acc (s +:+ t) = Js.digitsValueFrom (Js.digitsValueFrom acc s) t.
Proof.
  revert acc. induction s as [|c s IH]; intros acc; [done|].
  rewrite str_app_cons. simpl. apply IH.
Qed.

Lemma digitsValueFrom_shift (acc : N) (t : string) :
  Js.digitsValueFrom acc t
  = (acc * 10 ^ N.of_nat (String.length t) + Js.digitsValue t)%N.
Proof.
  unfold Js.digitsValue. revert acc. induction t as [|c t IH]; intros acc.
  - simpl. lia.
  - cbn [Js.digitsValueFrom String.length]. rewrite IH, (IH (10 * 0 + _)%N).
    rewrite Nat2N.inj_succ, N.pow_succ_r'. lia.
Qed.

Lemma parseFloat_integer (ip : string) :
  Js.allb Js.isDigit ip = true →
  Js.parseFloat ip = inject_Z (Z.of_N (Js.digitsValue ip)).
Proof.
  intros Hip. unfold Js.parseFloat.
  rewrite <-(str_app_empty_r ip) at 1. by rewrite span_app.
Qed.

Lemma parseFloat_fraction (ip fp : string) :
  Js.allb Js.isDigit ip = true → Js.allb Js.isDigit fp = true →
  Js.parseFloat (ip +:+ "." +:+ fp)
  = Qmake (Z.of_N (Js.digitsValue (ip +:+ fp)))
      (Z.to_pos (10 ^ Z.of_nat (String.length fp))).
Proof.
  intros Hip Hfp. unfold Js.parseFloat.
  rewrite (span_app Js.isDigit ip ("." +:+ fp)); [|done..].
  change ("." +:+ fp) with (String "." fp). cbv beta iota.
  rewrite <-(str_app_empty_r fp) at 1. by rewrite span_app.
Qed.

Lemma parseSize_integer ip ws u k :
    ip ≠ "" → Js.allb Js.isDigit ip = true →
    Js.allb Js.isWhiteSpace ws = true → UnitOf u k →
    (StorageUtils.parseSize (ip +:+ ws +:+ u) == inject_Z (Z.of_N (Js.digitsValue ip) * k))%Q.
Proof.
  intros Hne Hip Hws Hu. unfold StorageUtils.parseSize.
  rewrite (sizePattern_complete _ ip u) by (by econstructor).
  destruct (UnitOf_inv _ _ Hu) as (_ & -> & _). simpl.
  rewrite Qred_correct, parseFloat_integer by done.
  unfold Qeq, Qmult, inject_Z. simpl. lia.
Qed.

Lemma parseSize_fraction ip fp ws u k :
    ip ≠ "" → Js.allb Js.isDigit ip = true →
    fp ≠ "" → Js.allb Js.isDigit fp = true →
    Js.allb Js.isWhiteSpace ws = true → UnitOf u k →
    (StorageUtils.parseSize (ip +:+ "." +:+ fp +:+ ws +:+ u)
     == (inject_Z (Z.of_N (Js.digitsValue ip))
         + inject_Z (Z.of_N (Js.digitsValue fp))
           / inject_Z (10 ^ Z.of_nat (String.length fp)))
        * inject_Z k)%Q.
Proof.
  intros Hne Hip Hfne Hfp Hws Hu. unfold StorageUtils.parseSize.
  rewrite (sizePattern_complete _ (ip +:+ "." +:+ fp) u) by (by econstructor).
  destruct (UnitOf_inv _ _ Hu) as (_ & -> & _). simpl.
  rewrite Qred_correct, parseFloat_fraction by done.
  apply Qmult_comp; [|done].
  unfold Js.digitsValue at 1. rewrite digitsValueFrom_app, digitsValueFrom_shift.
  fold (Js.digitsValue ip).
  set (a := Js.digitsValue ip). set (b := Js.digitsValue fp).
  set (n := String.length fp).
  assert (Hpow : 0 < 10 ^ Z.of_nat n) by (apply Z.pow_pos_nonneg; lia).
  rewrite N2Z.inj_add, N2Z.inj_mul, N2Z.inj_pow, nat_N_Z. simpl (Z.of_N 10).
  unfold Qeq, Qplus, Qdiv, Qmult, Qinv, inject_Z. simpl.
  destruct (10 ^ Z.of_nat n) as [|p|p] eqn:E; [lia| |lia].
  simpl. lia.
Qed.

(** C8.  [parseSize] reads a number followed by a unit among B, KB, MB, GB and
    TB in any letter case, each unit 1024 times the previous one, and returns
    0 on a text that is not of that form; "5MB" is 5,242,880 bytes, 0 bytes
    print as "0 B" and 5,242,880 bytes as "5 MB". *)
Theorem size_codec_contract :
  (∀ ip ws u k,
     ip ≠ "" → Js.allb Js.isDigit ip = true →
     Js.allb Js.isWhiteSpace ws = true → UnitOf u k →
     (StorageUtils.parseSize (ip +:+ ws +:+ u)
      == inject_Z (Z.of_N (Js.digitsValue ip) * k))%Q)
  ∧ (∀ ip fp ws u k,
       ip ≠ "" → Js.allb Js.isDigit ip = true →
       fp ≠ "" → Js.allb Js.isDigit fp = true →
       Js.allb Js.isWhiteSpace ws = true → UnitOf u k →
       (StorageUtils.parseSize (ip +:+ "." +:+ fp +:+ ws +:+ u)
        == (inject_Z (Z.of_N (Js.digitsValue ip))
            + inject_Z (Z.of_N (Js.digitsValue fp))
              / inject_Z (10 ^ Z.of_nat (String.length fp)))
           * inject_Z k)%Q)
  ∧ (∀ s, (∀ num u, ¬ SizeText s num u) → StorageUtils.parseSize s = 0%Q)
  ∧ StorageUtils.parseSize "5MB" = 5242880%Q
  ∧ StorageUtils.formatSize 0 = "0 B"
  ∧ StorageUtils.formatSize 5242880 = "5 MB".
Proof.
  split; [exact parseSize_integer|]. split; [exact parseSize_fraction|].
  split; [|by vm_compute].
  intros s Hs. unfold StorageUtils.parseSize.
  destruct (StorageUtils.sizePattern s) as [[num u]|] eqn:E; [|done].
  destruct (Hs num u). by apply sizePattern_sound.
Qed.

Lemma size_codec_contract_witness :
  (StorageUtils.parseSize ("12" +:+ " " +:+ "kB") == inject_Z (12 * 1024))%Q
  ∧ (StorageUtils.parseSize ("1" +:+ "." +:+ "5" +:+ "" +:+ "Gb")
     == (inject_Z 1 + inject_Z 5 / inject_Z 10) * inject_Z (1024 ^ 3))%Q
  ∧ StorageUtils.parseSize "5 megabytes" = 0%Q.
Proof.
  destruct size_codec_contract as (Hint & Hfrac & Hnone & _).
  split; [|split].
  - apply (Hint "12" " " "kB" 1024); [done|reflexivity|reflexivity|].
    unfold UnitOf. rewrite !elem_of_cons. right. left. reflexivity.
  - apply (Hfrac "1" "5" "" "Gb" (1024 ^ 3));
      [done|reflexivity|done|reflexivity|reflexivity|].
    unfold UnitOf. rewrite !elem_of_cons. right. right. right. left. reflexivity.
  - apply Hnone. intros num u H. apply sizePattern_complete in H.
    vm_compute in H. discriminate H.
Defined.

(** ** Shape of a formatted size *)

Lemma digit_not (c : ascii) (d : ascii) :
  Js.isDigit d = false → Js.isDigit c = true → negb (Ascii.eqb c d) = true.
Proof.
  intros Hd Hc. destruct (Ascii.eqb_spec c d) as [->|]; [congruence|done].
Qed.

Lemma digits_without (d : ascii) (s : string) :
  Js.isDigit d = false → Js.allb Js.isDigit s = true →
  Js.allb (λ c, negb (Ascii.eqb c d)) s = true.
Proof. intros Hd. apply allb_impl. intros c. by apply digit_not. Qed.

Lemma DecimalText_no_space (num : string) :
  DecimalText num → Js.allb (λ c, negb (Ascii.eqb c " ")) num = true.
Proof.
  intros (ip & _ & Hip & [->|(fp & _ & Hfp & ->)]).
  - by apply digits_without.
  - rewrite !allb_app, (digits_without " " ip), (digits_without " " fp) by done.
    reflexivity.
Qed.

Lemma hundredthsToString_decimal (n : Z) :
  0 ≤ n → DecimalText (Js.hundredthsToString n).
Proof.
  intros Hn. unfold Js.hundredthsToString.
  assert (0 ≤ n / 100) by (apply Z.div_pos; lia).
  assert (0 ≤ n `mod` 100 < 100) by (apply Z.mod_pos_bound; lia).
  assert (0 ≤ (n `mod` 100) / 10) by (apply Z.div_pos; lia).
  assert (0 ≤ (n `mod` 100) `mod` 10 < 10) by (apply Z.mod_pos_bound; lia).
  assert (Hne : ∀ z, 0 ≤ z → pretty z ≠ "").
  { intros [|p|p] Hz; [done| |lia]. apply (pretty_N_nonempty (Npos p)). }
  exists (pretty (n / 100)). split; [by apply Hne|]. split; [by apply pretty_Z_digits|].
  repeat case_match; [by left|right..].
  - exists (pretty (n `mod` 100 / 10)). split; [by apply Hne|]. split; [by apply pretty_Z_digits|done].
  - exists (pretty (n `mod` 100 / 10) +:+ pretty ((n `mod` 100) `mod` 10)).
    split; [|split].
    + intros E. apply (f_equal String.length) in E. rewrite str_length_app in E.
      assert (String.length (pretty (n `mod` 100 / 10)) ≠ 0%nat).
      { intros E'. apply (Hne (n `mod` 100 / 10)); [done|].
        by destruct (pretty (n `mod` 100 / 10)). }
      simpl in E. lia.
    + rewrite allb_app, !pretty_Z_digits by lia. done.
    + done.
Qed.

Lemma not_well_formed_undefined (num : string) :
  Js.allb (λ c, negb (Ascii.eqb c " ")) num = true →
  ¬ WellFormedSize (num +:+ " " +:+ "undefined").
Proof.
  intros Hnum (num' & unit & Hdec & Hunit & E).
  apply DecimalText_no_space in Hdec.
  change (num +:+ String " " "undefined" = num' +:+ String " " unit) in E.
  apply cut_unique in E as [_ <-]; [|done..].
  unfold StorageUtils.sizes in Hunit. rewrite !elem_of_cons, elem_of_nil in Hunit.
  destruct Hunit as [H|[H|[H|[H|[H|[]]]]]]; discriminate H.
Qed.

Lemma unitIndex_exact (bytes : Z) :
  ¬ (1024 ^ 5 - 3 ≤ bytes < 1024 ^ 5) →
  StorageUtils.unitIndex bytes = Z.log2 bytes / 10.
Proof.
  intros H. unfold StorageUtils.unitIndex.
  destruct (1024 ^ 5 - 3 <=? bytes) eqn:E1; [|done].
  destruct (bytes <? 1024 ^ 5) eqn:E2; [|done]. lia.
Qed.

Lemma unitIndex_edge (bytes : Z) :
  1024 ^ 5 - 3 ≤ bytes < 1024 ^ 5 → StorageUtils.unitIndex bytes = 5.
Proof.
  intros H. unfold StorageUtils.unitIndex.
  destruct (1024 ^ 5 - 3 <=? bytes) eqn:E1; [|lia].
  destruct (bytes <? 1024 ^ 5) eqn:E2; [done|lia].
Qed.

Lemma unitIndex_large (bytes : Z) : 1024 ^ 5 ≤ bytes → 5 ≤ StorageUtils.unitIndex bytes.
Proof.
  intros H. rewrite unitIndex_exact by lia.
  assert (50 ≤ Z.log2 bytes).
  { change 50 with (Z.log2 (2 ^ 50)). apply Z.log2_le_mono.
    change (2 ^ 50) with (1024 ^ 5). done. }
  apply Z.div_le_lower_bound; lia.
Qed.

Lemma unitIndex_small (bytes : Z) :
  1 ≤ bytes < 1024 ^ 5 - 3 → 0 ≤ StorageUtils.unitIndex bytes ≤ 4.
Proof.
  intros H. rewrite unitIndex_exact by lia.
  assert (0 ≤ Z.log2 bytes < 50).
  { split; [apply Z.log2_nonneg|]. apply Z.log2_lt_pow2; [lia|].
    change (2 ^ 50) with (1024 ^ 5). lia. }
  split; [apply Z.div_pos; lia|].
  assert (Z.log2 bytes / 10 < 5) by (apply Z.div_lt_upper_bound; lia). lia.
Qed.

Lemma mantissaHundredths_nonneg (bytes i : Z) :
  0 ≤ bytes → 0 ≤ i → 0 ≤ StorageUtils.mantissaHundredths bytes i.
Proof.
  intros Hb Hi. unfold StorageUtils.mantissaHundredths.
  assert (0 < 1024 ^ i) by (apply Z.pow_pos_nonneg; lia).
  apply Z.div_pos; lia.
Qed.

Lemma formatSize_large (bytes : Z) :
  1024 ^ 5 ≤ bytes →
  StorageUtils.formatSize bytes
  = Js.hundredthsToString
      (StorageUtils.mantissaHundredths bytes (StorageUtils.unitIndex bytes))
    +:+ " " +:+ "undefined".
Proof.
  intros H. pose proof (unitIndex_large _ H) as Hi.
  assert (0 < 1024 ^ 5) by done.
  unfold StorageUtils.formatSize.
  destruct (bytes =? 0) eqn:E0; [lia|]. destruct (bytes <? 0) eqn:E1; [lia|].
  unfold StorageUtils.sizeName. rewrite lookup_ge_None_2; [done|].
  simpl. lia.
Qed.

Lemma formatSize_in_range (bytes : Z) :
  1 ≤ bytes < 1024 ^ 5 - 3 → WellFormedSize (StorageUtils.formatSize bytes).
Proof.
  intros H. pose proof (unitIndex_small _ H) as Hi.
  unfold StorageUtils.formatSize.
  destruct (bytes =? 0) eqn:E0; [lia|]. destruct (bytes <? 0) eqn:E1; [lia|].
  eexists _, _. split; [|split; [|reflexivity]].
  - apply hundredthsToString_decimal, mantissaHundredths_nonneg; lia.
  - unfold StorageUtils.sizeName.
    destruct (StorageUtils.sizes !! Z.to_nat (StorageUtils.unitIndex bytes)) as [u|] eqn:E.
    + simpl. by eapply list_elem_of_lookup_2.
    + apply lookup_ge_None in E. simpl in E. lia.
Qed.

(** C9.  [formatSize] gives the documented "<number> <unit>" only for 0 and
    for 1 <= bytes < 1024^5; from 1024^5 on the index into the unit table is
    past its last entry and the text ends in "undefined". *)
Theorem formatSize_shape :
  (∀ bytes, WellFormedSize (StorageUtils.formatSize bytes) →
            bytes = 0 ∨ 1 ≤ bytes < 1024 ^ 5)
  ∧ (∀ bytes, 1024 ^ 5 ≤ bytes →
       4 < StorageUtils.unitIndex bytes
       ∧ StorageUtils.sizes !! Z.to_nat (StorageUtils.unitIndex bytes) = None
       ∧ (∃ num, StorageUtils.formatSize bytes = num +:+ " " +:+ "undefined")
       ∧ ¬ WellFormedSize (StorageUtils.formatSize bytes)).
Proof.
  assert (Hlarge : ∀ bytes, 1024 ^ 5 ≤ bytes →
            ¬ WellFormedSize (StorageUtils.formatSize bytes)).
  { intros bytes H. rewrite formatSize_large by done.
    apply not_well_formed_undefined, DecimalText_no_space,
      hundredthsToString_decimal, mantissaHundredths_nonneg.
    - assert (0 < 1024 ^ 5) by done. lia.
    - pose proof (unitIndex_large _ H). lia. }
  split.
  - intros bytes Hwf.
    destruct (decide (bytes = 0)) as [|Hne]; [by left|right].
    destruct (decide (bytes < 0)) as [Hneg|].
    { exfalso. revert Hwf. unfold StorageUtils.formatSize.
      destruct (bytes =? 0) eqn:E0; [lia|]. destruct (bytes <? 0) eqn:E1; [|lia].
      by apply not_well_formed_undefined. }
    destruct (decide (bytes < 1024 ^ 5)); [lia|].
    exfalso. apply (Hlarge bytes); [lia|done].
  - intros bytes H. pose proof (unitIndex_large _ H) as Hi.
    split; [lia|]. split; [apply lookup_ge_None_2; simpl; lia|].
    split; [|by apply Hlarge].
    eexists. by apply formatSize_large.
Qed.

Lemma formatSize_shape_witness :
  (1 = 0 ∨ 1 ≤ 1 < 1024 ^ 5)
  ∧ 4 < StorageUtils.unitIndex (1024 ^ 5)
  ∧ ¬ WellFormedSize (StorageUtils.formatSize (1024 ^ 5)).
Proof.
  destruct formatSize_shape as [Honly Hlarge]. split.
  - apply (Honly 1). exists "1", "B". split; [|split; [|reflexivity]].
    + exists "1". split; [done|]. split; [reflexivity|by left].
    + unfold StorageUtils.sizes. rewrite elem_of_cons. by left.
  - destruct (Hlarge (1024 ^ 5)) as (H1 & _ & _ & H2); [lia|]. by split.
Defined.


(** ** Collision-free names *)

Lemma pathJoin_inj (dir a b : string) :
  Route.pathJoin dir a = Route.pathJoin dir b → a = b.
Proof.
  unfold Route.pathJoin. intros H.
  apply (inj (String.app dir)) in H. by injection H.
Qed.

Lemma candidate_eq (name : string) (counter : Z) :
  Route.candidate name counter
  = Js.join "." (Js.pop (Js.split "." name)).2 +:+ "_" +:+ pretty counter
    +:+ "." +:+ (Js.pop (Js.split "." name)).1.
Proof. reflexivity. Qed.

Lemma candidate_inj (name : string) (c c' : Z) :
  Route.candidate name c = Route.candidate name c' → c = c'.
Proof.
  rewrite !candidate_eq. intros H.
  apply (inj (String.app _)) in H. injection H as H.
  rewrite !str_app_empty_l in H. apply str_app_inv_tail in H. by apply (inj pretty) in H.
Qed.

Lemma existsSync_true (fs : gmap string (list Byte.byte)) (p : string) :
  Route.existsSync fs p = true ↔ p ∈ dom fs.
Proof.
  unfold Route.existsSync. rewrite bool_decide_eq_true. by rewrite elem_of_dom.
Qed.

Lemma existsSync_false (fs : gmap string (list Byte.byte)) (p : string) :
  Route.existsSync fs p = false ↔ fs !! p = None.
Proof.
  unfold Route.existsSync. rewrite bool_decide_eq_false. by rewrite eq_None_not_Some.
Qed.

(** What the loop returns, when it returns. *)
Lemma probe_spec (fs : gmap string (list Byte.byte)) (dir name : string)
    (fuel : nat) (cur : string) (counter : Z) (n : string) :
  Route.probe fuel (takenIn fs dir) name cur counter = Some n →
  takenIn fs dir n = false
  ∧ ((n = cur)
     ∨ (takenIn fs dir cur = true
        ∧ ∃ c, counter ≤ c ∧ n = Route.candidate name c
               ∧ ∀ c', counter ≤ c' < c →
                       takenIn fs dir (Route.candidate name c') = true)).
Proof.
  revert cur counter. induction fuel as [|fuel IH]; intros cur counter; simpl.
  - destruct (takenIn fs dir cur) eqn:E; [done|]. intros [= <-]. auto.
  - destruct (takenIn fs dir cur) eqn:E; [|intros [= <-]; auto].
    intros H. apply IH in H as [Hfree [->|(Ht & c & Hc & -> & Hbelow)]].
    + split; [done|]. right. split; [done|]. exists counter.
      split; [lia|]. split; [done|]. intros c' Hc'. lia.
    + split; [done|]. right. split; [done|]. exists c.
      split; [lia|]. split; [done|]. intros c' Hc'.
      destruct (decide (c' = counter)) as [->|]; [done|]. apply Hbelow. lia.
Qed.

(** The loop ends: the candidates are pairwise different, and the store has
    finitely many files. *)
Lemma probe_ends (fs : gmap string (list Byte.byte)) (dir name : string)
    (fuel : nat) (X : gset string) (counter : Z) :
  X ⊆ dom fs →
  (∀ c, counter - 1 ≤ c → Route.pathJoin dir (Route.candidate name c) ∉ X) →
  (size (dom fs) ≤ size X + fuel)%nat →
  is_Some (Route.probe fuel (takenIn fs dir) name
             (Route.candidate name (counter - 1)) counter).
Proof.
  revert X counter. induction fuel as [|fuel IH]; intros X counter HX Hfresh Hsize;
    simpl; destruct (takenIn fs dir _) eqn:E; try by eexists.
  - exfalso. apply existsSync_true in E.
    assert (X = dom fs) as -> by (apply set_subseteq_size_eq; [done|lia]).
    by apply (Hfresh (counter - 1)).
  - apply existsSync_true in E.
    set (p := Route.pathJoin dir (Route.candidate name (counter - 1))) in *.
    assert (Hp : p ∉ X) by (apply Hfresh; lia).
    replace counter with ((counter + 1) - 1) at 1 by lia.
    apply (IH ({[p]} ∪ X)).
    + apply union_subseteq. split; [by apply singleton_subseteq_l|done].
    + intros c Hc [Hin|Hin]%elem_of_union.
      * apply elem_of_singleton in Hin.
        apply pathJoin_inj, candidate_inj in Hin. lia.
      * revert Hin. apply Hfresh. lia.
    + rewrite size_union, size_singleton; [lia|].
      by apply disjoint_singleton_l.
Qed.

Lemma probe_total (fs : gmap string (list Byte.byte)) (dir name : string) :
  is_Some (Route.probe (S (size fs)) (takenIn fs dir) name name 1).
Proof.
  simpl. destruct (takenIn fs dir name); [|by eexists].
  change 1 with (2 - 1) at 1. apply (probe_ends _ _ _ _ ∅).
  - apply empty_subseteq.
  - intros c _. apply not_elem_of_empty.
  - rewrite size_dom, size_empty. lia.
Qed.

Lemma uniqueFileName_spec (fs : gmap string (list Byte.byte)) (dir name : string) :
  let u := Route.uniqueFileName fs dir name in
  takenIn fs dir u = false
  ∧ ((takenIn fs dir name = false ∧ u = name)
     ∨ (takenIn fs dir name = true
        ∧ ∃ c, 1 ≤ c ∧ u = Route.candidate name c
               ∧ ∀ c', 1 ≤ c' < c →
                       takenIn fs dir (Route.candidate name c') = true)).
Proof.
  intros u. subst u. unfold Route.uniqueFileName.
  destruct (probe_total fs dir name) as [n Hn].
  change (λ n, Route.existsSync fs (Route.pathJoin dir n)) with (takenIn fs dir).
  rewrite Hn. simpl.
  apply probe_spec in Hn as [Hfree [->|H]]; [|by auto]. auto.
Qed.

Lemma uniqueFileName_free (fs : gmap string (list Byte.byte)) (dir name : string) :
  fs !! Route.pathJoin dir (Route.uniqueFileName fs dir name) = None.
Proof. apply existsSync_false. apply (uniqueFileName_spec fs dir name). Qed.

(** ** The chunked handler *)

Lemma finalize_success (e : Route.env) (fs fs' : gmap string (list Byte.byte))
    (chunk : Route.File) (sp full temp fileName : string)
    (failed : string → Route.response) (resp : Route.response) :
  (∀ msg, Route.success (Route.json (failed msg)) = None) →
  Route.finalize e fs chunk sp full temp fileName failed = (fs', resp) →
  Route.success (Route.json resp) = Some true →
  let u := Route.uniqueFileName fs full fileName in
  let final := Route.pathJoin full u in
  ∃ data,
    fs !! temp = Some data
    ∧ resp = Route.chunkedCompleted
               (Route.chunkedRecord e chunk sp u fileName (Z.of_nat (length data))) sp
    ∧ fs' !! final = Some data
    ∧ (fs' !! temp = None ∨ fs' !! temp = Some data)
    ∧ ∀ p, p ≠ temp → p ≠ final → fs' !! p = fs !! p.
Proof.
  intros Hfailed Hrun Hok u final.
  pose proof (uniqueFileName_free fs full fileName) as Hfree.
  fold u in Hfree. fold final in Hfree.
  unfold Route.finalize in Hrun. fold u in Hrun. fold final in Hrun.
  assert (Hne : ∀ data, fs !! temp = Some data → temp ≠ final) by (intros ?? ->; congruence).
  unfold Route.rename, Route.stat, Route.readFile, Route.writeFile, Route.unlink in Hrun.
  destruct (fs !! temp) as [data|] eqn:Htemp.
  2:{ exfalso. repeat case_match; simplify_eq; rewrite ?Hfailed in Hok; done. }
  specialize (Hne _ eq_refl). exists data. split; [done|].
  destruct (Route.renameOk e).
  - rewrite lookup_insert_eq in Hrun. simpl in Hrun.
    rewrite lookup_insert_ne, lookup_delete_eq in Hrun by done.
    destruct (Route.statOk e).
    + injection Hrun as <- <-. rewrite lookup_insert_eq.
      split; [done|]. split; [done|]. split.
      * left. by rewrite lookup_insert_ne, lookup_delete_eq.
      * intros p Hp1 Hp2. by rewrite lookup_insert_ne, lookup_delete_ne.
    + exfalso. destruct (Route.readOk e); simplify_eq; by rewrite Hfailed in Hok.
  - destruct (Route.readOk e); [|exfalso; simplify_eq; by rewrite Hfailed in Hok].
    destruct (Route.copyOk e); [|exfalso; simplify_eq; by rewrite Hfailed in Hok].
    rewrite lookup_insert_ne in Hrun by done. rewrite Htemp in Hrun.
    destruct (Route.unlinkOk e); simpl in Hrun; injection Hrun as <- <-.
    + split; [done|]. split; [by rewrite lookup_delete_ne, lookup_insert_eq|].
      split; [left; by rewrite lookup_delete_eq|].
      intros p Hp1 Hp2. by rewrite lookup_delete_ne, lookup_insert_ne.
    + split; [done|]. split; [by rewrite lookup_insert_eq|].
      split; [right; by rewrite lookup_insert_ne|].
      intros p Hp1 Hp2. by rewrite lookup_insert_ne.
Qed.

(** The request is well formed for the handler. *)
Lemma handled_valid (e : Route.env) (fs fs' : gmap string (list Byte.byte))
    (chunk : Route.File) (uploadPath : string) (ci tc : Js.number)
    (fileName : string) (resp : Route.response) :
  Route.handleChunkedUpload e fs chunk uploadPath ci tc fileName = (fs', resp) →
  Route.success (Route.json resp) = Some true →
  Js.lt ci (Js.Num 0) = false ∧ Js.ge ci tc = false
  ∧ Js.le tc (Js.Num 0) = false ∧ Js.trim fileName ≠ "".
Proof.
  unfold Route.handleChunkedUpload. intros Hrun Hok.
  destruct (Js.lt ci (Js.Num 0)) eqn:E1; [simpl in Hrun; simplify_eq; done|].
  destruct (Js.ge ci tc) eqn:E2; [simpl in Hrun; simplify_eq; done|].
  destruct (Js.le tc (Js.Num 0)) eqn:E3; [simpl in Hrun; simplify_eq; done|].
  destruct (String.eqb fileName "") eqn:E4; [simpl in Hrun; simplify_eq; done|].
  destruct (String.eqb (Js.trim fileName) "") eqn:E5; [simpl in Hrun; simplify_eq; done|].
  by apply String.eqb_neq in E5.
Qed.

Lemma handled (e : Route.env) (fs fs' : gmap string (list Byte.byte))
    (chunk : Route.File) (uploadPath : string) (ci tc : Js.number)
    (fileName : string) (resp : Route.response) :
  Route.handleChunkedUpload e fs chunk uploadPath ci tc fileName = (fs', resp) →
  Route.success (Route.json resp) = Some true →
  let sp := Route.sanitize uploadPath in
  let full := Route.pathJoin Route.STORAGE_PATH sp in
  let temp := Route.pathJoin full (Route.tempFileName fileName (Route.now e)) in
  let data :=
    (if Js.strictEq ci (Js.Num 0) then [] else default [] (fs !! temp))
    ++ Route.f_bytes chunk in
  let fs1 := <[temp := data]> fs in
  if Js.strictEq ci (Js.sub tc (Js.Num 1)) then
    let u := Route.uniqueFileName fs1 full fileName in
    let final := Route.pathJoin full u in
    resp = Route.chunkedCompleted
             (Route.chunkedRecord e chunk sp u fileName (Z.of_nat (length data))) sp
    ∧ fs1 !! final = None
    ∧ fs' !! final = Some data
    ∧ (fs' !! temp = None ∨ fs' !! temp = Some data)
    ∧ ∀ p, p ≠ temp → p ≠ final → fs' !! p = fs !! p
  else fs' = fs1 ∧ resp = Route.chunkReceived ci tc.
Proof.
  intros Hrun Hok sp full temp data fs1.
  destruct (handled_valid _ _ _ _ _ _ _ _ _ Hrun Hok) as (E1 & E2 & E3 & E5).
  unfold Route.handleChunkedUpload in Hrun.
  rewrite E1, E2, E3 in Hrun. simpl in Hrun.
  apply String.eqb_neq in E5. rewrite E5 in Hrun.
  destruct (String.eqb fileName "") eqn:E4; [simpl in Hrun; simplify_eq; done|]. simpl in Hrun.
  fold sp in Hrun. fold full in Hrun. fold temp in Hrun.
  destruct (Route.mkdirOk e); [|simpl in Hrun; simplify_eq; done]. simpl in Hrun.
  assert (Hw : (if Js.strictEq ci (Js.Num 0)
                then Route.writeFile (Route.writeOk e) fs temp (Route.f_bytes chunk)
                else Route.appendFile (Route.appendOk e) fs temp (Route.f_bytes chunk))
               = Some fs1).
  { unfold Route.writeFile, Route.appendFile, fs1, data in *.
    destruct (Js.strictEq ci (Js.Num 0)).
    - destruct (Route.writeOk e); [done|simpl in Hrun; simplify_eq; done].
    - destruct (Route.appendOk e); [done|simpl in Hrun; simplify_eq; done]. }
  rewrite Hw in Hrun.
  destruct (Js.strictEq ci (Js.sub tc (Js.Num 1))); [|by injection Hrun as <- <-].
  intros u final.
  apply finalize_success in Hrun as (data' & Hd & -> & Hfinal & Htemp & Hframe);
    [|done..].
  unfold fs1 in Hd. rewrite lookup_insert_eq in Hd. injection Hd as <-.
  split; [done|]. split; [apply uniqueFileName_free|].
  split; [done|]. split; [done|].
  intros p Hp1 Hp2. rewrite (Hframe p Hp1 Hp2). unfold fs1. by rewrite lookup_insert_ne.
Qed.

(** ** Responses of the chunked handler *)

(** C5.  A chunked request that is served answers, when
    chunkIndex < totalChunks - 1, with success, a message, chunkIndex,
    totalChunks and completed: false, and no file record; when
    chunkIndex = totalChunks - 1, with success, a message, one file record,
    the sanitized path and completed: true, the record carrying the
    collision-free final name, the requested name as originalName, and as
    size the length of the promoted file. *)
Theorem chunked_responses (e : Route.env) (fs fs' : gmap string (list Byte.byte))
    (chunk : Route.File) (uploadPath : string) (ci tc : Js.number)
    (fileName : string) (resp : Route.response) :
  Route.handleChunkedUpload e fs chunk uploadPath ci tc fileName = (fs', resp) →
  Route.success (Route.json resp) = Some true →
  (Js.lt ci (Js.sub tc (Js.Num 1)) = true →
     Route.json resp
     = {| Route.success := Some true;
          Route.message := Some ("Chunk " +:+ Js.toString (Js.add ci (Js.Num 1))
                                 +:+ "/" +:+ Js.toString tc
                                 +:+ " uploaded successfully");
          Route.files := None;
          Route.uploadPath := None;
          Route.chunkIndex := Some ci;
          Route.totalChunks := Some tc;
          Route.completed := Some false;
          Route.error := None |})
  ∧ (Js.strictEq ci (Js.sub tc (Js.Num 1)) = true →
       let temp :=
         Route.pathJoin (directoryOf uploadPath)
           (Route.tempFileName fileName (Route.now e)) in
       let written :=
         <[temp := (if Js.strictEq ci (Js.Num 0) then [] else default [] (fs !! temp))
                   ++ Route.f_bytes chunk]> fs in
       ∃ rec promoted,
         Route.json resp
         = {| Route.success := Some true;
              Route.message := Some "Chunked upload completed successfully";
              Route.files := Some [rec];
              Route.uploadPath := Some (Route.sanitize uploadPath);
              Route.chunkIndex := None;
              Route.totalChunks := None;
              Route.completed := Some true;
              Route.error := None |}
         ∧ Route.r_name rec
           = Route.uniqueFileName written (directoryOf uploadPath) fileName
         ∧ written !! Route.pathJoin (directoryOf uploadPath) (Route.r_name rec) = None
         ∧ Route.r_originalName rec = fileName
         ∧ fs' !! Route.pathJoin (directoryOf uploadPath) (Route.r_name rec)
           = Some promoted
         ∧ Route.r_size rec = Z.of_nat (length promoted)).
Proof.
  intros Hrun Hok. pose proof (handled _ _ _ _ _ _ _ _ _ Hrun Hok) as H.
  cbv zeta in H. split.
  - intros Hlt.
    assert (Js.strictEq ci (Js.sub tc (Js.Num 1)) = false) as E.
    { destruct ci, tc; simpl in *; try done. lia. }
    rewrite E in H. by destruct H as [_ ->].
  - intros E. rewrite E in H. destruct H as (-> & Hfree & Hfinal & _).
    intros temp written. eexists _, _. split; [reflexivity|]. simpl. done.
Qed.

Lemma chunked_responses_witness :
  let run :=
    Route.handleChunkedUpload (calmEnv 1000) ∅ (blob [Byte.x03]) "/docs"
      (Js.Num 1) (Js.Num 2) "x.txt" in
  ∃ rec promoted,
    Route.files (Route.json run.2) = Some [rec]
    ∧ Route.r_originalName rec = "x.txt"
    ∧ run.1 !! Route.pathJoin (directoryOf "/docs") (Route.r_name rec) = Some promoted
    ∧ Route.r_size rec = Z.of_nat (length promoted).
Proof.
  intros run.
  destruct (chunked_responses (calmEnv 1000) ∅ run.1 (blob [Byte.x03]) "/docs"
              (Js.Num 1) (Js.Num 2) "x.txt" run.2) as [_ H].
  - apply surjective_pairing.
  - reflexivity.
  - destruct (H eq_refl) as (rec & promoted & Hjson & _ & _ & Ho & Hp & Hs).
    exists rec, promoted. rewrite Hjson. done.
Defined.

(** ** The temp file of a chunked upload *)

Lemma prefix_filter (n : nat) (s : string) :
  Js.prefix n (Js.filter Js.isAlnum s) = firstAlnum n s.
Proof.
  revert n. induction s as [|c s IH]; intros n; [by destruct n|].
  destruct n as [|n]; cbn [firstAlnum Js.prefix Js.filter].
  - by destruct (Js.filter Js.isAlnum (String c s)).
  - destruct (Js.isAlnum c); [|exact (IH (S n))].
    cbn [Js.prefix]. f_equal. exact (IH n).
Qed.

Lemma firstAlnum_alnum (n : nat) (s : string) :
  Js.allb Js.isAlnum (firstAlnum n s) = true.
Proof.
  revert n. induction s as [|c s IH]; intros n; [by destruct n|].
  destruct n as [|n]; [done|]. cbn [firstAlnum].
  destruct (Js.isAlnum c) eqn:E; [|done]. cbn [Js.allb]. by rewrite E, IH.
Qed.

Lemma firstAlnum_length (n : nat) (s : string) :
  (String.length (firstAlnum n s) ≤ n)%nat.
Proof.
  revert n. induction s as [|c s IH]; intros n; [destruct n; simpl; lia|].
  destruct n as [|n]; [simpl; lia|]. cbn [firstAlnum].
  destruct (Js.isAlnum c); [|specialize (IH (S n)); lia].
  cbn [String.length]. specialize (IH n). lia.
Qed.

(** C7.  The temp file of a chunked request is named
    temp_<hash>_<milliseconds>: the hash is the first 16 alphanumeric
    characters of the base64 text of the file name, and the milliseconds are
    the clock of the request being served, under which the chunk is
    written. *)
Theorem temp_file_name_shape (fileName : string) :
  let hash := firstAlnum 16 (Route.base64 (Route.utf8 fileName)) in
  Js.allb Js.isAlnum hash = true
  ∧ (String.length hash ≤ 16)%nat
  ∧ (∀ dateNow,
       Route.tempFileName fileName dateNow
       = "temp_" +:+ hash +:+ "_" +:+ pretty dateNow)
  ∧ (∀ e fs chunk uploadPath ci tc fs' resp,
       Route.handleChunkedUpload e fs chunk uploadPath ci tc fileName = (fs', resp) →
       Route.success (Route.json resp) = Some true →
       Route.completed (Route.json resp) = Some false →
       let temp :=
         Route.pathJoin (directoryOf uploadPath)
           ("temp_" +:+ hash +:+ "_" +:+ pretty (Route.now e)) in
       fs' = <[temp := (if Js.strictEq ci (Js.Num 0) then []
                        else default [] (fs !! temp)) ++ Route.f_bytes chunk]> fs).
Proof.
  intros hash.
  assert (Hname : ∀ dateNow,
            Route.tempFileName fileName dateNow
            = "temp_" +:+ hash +:+ "_" +:+ pretty dateNow).
  { intros dateNow. unfold Route.tempFileName, Route.fileHash.
    by rewrite prefix_filter. }
  split; [apply firstAlnum_alnum|]. split; [apply firstAlnum_length|].
  split; [done|].
  intros e fs chunk uploadPath ci tc fs' resp Hrun Hok Hpartial.
  rewrite <-Hname.
  pose proof (handled _ _ _ _ _ _ _ _ _ Hrun Hok) as H. cbv zeta in H.
  destruct (Js.strictEq ci (Js.sub tc (Js.Num 1))).
  - destruct H as (-> & _). done.
  - by destruct H as [-> _].
Qed.

Lemma temp_file_name_shape_witness :
  (Route.handleChunkedUpload (calmEnv 1714557600000) ∅ (blob [Byte.x01; Byte.x02])
     "/docs" (Js.Num 0) (Js.Num 2) "x.txt").1
  = {[ "/mnt/nas/storage//docs/temp_eC50eHQ_1714557600000" := [Byte.x01; Byte.x02] ]}.
Proof.
  destruct (temp_file_name_shape "x.txt") as (_ & _ & _ & H).
  rewrite (H (calmEnv 1714557600000) ∅ (blob [Byte.x01; Byte.x02]) "/docs"
             (Js.Num 0) (Js.Num 2) _ _ (surjective_pairing _) eq_refl eq_refl).
  reflexivity.
Defined.

(** ** Validation of the chunk parameters *)

(** Integers outside the accepted range, and blank names, are refused before
    anything is written. *)
Lemma invalid_numbers_rejected (e : Route.env) (fs : gmap string (list Byte.byte))
    (chunk : Route.File) (uploadPath : string) (ci tc : Z) (fileName : string) :
  ¬ (0 ≤ ci < tc) ∨ tc ≤ 0 ∨ Js.allb Js.isWhiteSpace fileName = true →
  ∃ msg, Route.handleChunkedUpload e fs chunk uploadPath (Js.Num ci) (Js.Num tc) fileName
         = (fs, Route.errorResponse 400 msg).
Proof.
  intros H. unfold Route.handleChunkedUpload. simpl.
  destruct (ci <? 0) eqn:E1; [by eexists|].
  destruct (tc <=? ci) eqn:E2; [by eexists|]. simpl.
  destruct (tc <=? 0) eqn:E3; [by eexists|].
  destruct H as [H|[H|H]]; [lia|lia|].
  rewrite (trim_blank _ H). rewrite orb_true_r. by eexists.
Qed.

(** C6, at an input where it fails.  The claim: a chunked request outside
    0 <= chunkIndex < totalChunks is refused with a 4xx and writes nothing.
    A request whose chunkIndex field is "abc" has chunkIndex = NaN; it is
    answered 200 with success, and its bytes are written to a temp file. *)
Theorem nan_chunk_index_is_served :
  let form :=
    {| Route.fd_files := [blob [Byte.x01]];
       Route.fd_path := Some "/docs";
       Route.fd_chunkIndex := Some "abc";
       Route.fd_totalChunks := Some "3";
       Route.fd_fileName := Some "a.txt" |} in
  let served := Route.POST (calmEnv 1000) (λ _, calmEnv 1000) ∅ form in
  Js.parseInt "abc" = Js.NaN
  ∧ Route.status served.2 = 200
  ∧ Route.success (Route.json served.2) = Some true
  ∧ Route.chunkIndex (Route.json served.2) = Some Js.NaN
  ∧ served.1 = {[ "/mnt/nas/storage//docs/temp_YS50eHQ_1000" := [Byte.x01] ]}.
Proof. vm_compute. repeat split. Qed.

(** ** Reassembly *)

(** A last chunk that finds no temp file under the name computed for its own
    moment is promoted alone. *)
Lemma last_chunk_alone (e : Route.env) (fs fs' : gmap string (list Byte.byte))
    (chunk : Route.File) (uploadPath : string) (ci tc : Js.number)
    (fileName : string) (resp : Route.response) :
  Route.handleChunkedUpload e fs chunk uploadPath ci tc fileName = (fs', resp) →
  Route.success (Route.json resp) = Some true →
  Js.strictEq ci (Js.sub tc (Js.Num 1)) = true →
  fs !! Route.pathJoin (directoryOf uploadPath)
          (Route.tempFileName fileName (Route.now e)) = None →
  ∃ rec,
    Route.files (Route.json resp) = Some [rec]
    ∧ fs' !! Route.pathJoin (directoryOf uploadPath) (Route.r_name rec)
      = Some (Route.f_bytes chunk)
    ∧ Route.r_size rec = Route.f_size chunk.
Proof.
  intros Hrun Hok Hlast Hfresh.
  pose proof (handled _ _ _ _ _ _ _ _ _ Hrun Hok) as H. cbv zeta in H.
  rewrite Hlast in H. fold (directoryOf uploadPath) in H. rewrite Hfresh in H.
  destruct H as (-> & _ & Hfinal & _).
  eexists. split; [reflexivity|]. simpl.
  destruct (Js.strictEq ci (Js.Num 0)); simpl in *; by rewrite Hfinal.
Qed.

(** Two chunks served one millisecond apart: the second one does not find
    the temp file of the first. *)
Example chunks_one_millisecond_apart :
  let requests :=
    [ (calmEnv 1000, blob [Byte.x01; Byte.x02], Js.Num 0, Js.Num 2);
      (calmEnv 1001, blob [Byte.x03], Js.Num 1, Js.Num 2) ] in
  let run := serveAll "/docs" "a.bin" requests ∅ in
  run.1 = {[ "/mnt/nas/storage//docs/a.bin" := [Byte.x03];
             "/mnt/nas/storage//docs/temp_YS5iaW4_1000" := [Byte.x01; Byte.x02] ]}
  ∧ Route.status <$> run.2 = [200; 200]
  ∧ recordNames <$> run.2 = [[]; ["a.bin"]]
  ∧ recordSizes <$> run.2 = [[]; [1]].
Proof. vm_compute. repeat split. Qed.

(** The same two chunks served within one millisecond are joined. *)
Example chunks_in_one_millisecond :
  let requests :=
    [ (calmEnv 1000, blob [Byte.x01; Byte.x02], Js.Num 0, Js.Num 2);
      (calmEnv 1000, blob [Byte.x03], Js.Num 1, Js.Num 2) ] in
  let run := serveAll "/docs" "a.bin" requests ∅ in
  run.1 = {[ "/mnt/nas/storage//docs/a.bin" := [Byte.x01; Byte.x02; Byte.x03] ]}
  ∧ recordSizes <$> run.2 = [[]; [3]].
Proof. vm_compute. repeat split. Qed.

(** C1, at an input where it fails.  The claim: a chunked upload of a file of
    S bytes in two or more chunks, driven to completion, leaves a final file
    of S bytes, the sum of the chunks.  Here the uploader sends a file of
    1 MiB + 1 bytes with the chunk size of the configuration "1MB" (two
    chunks) to the route, the two requests 40 ms apart, nothing failing: the
    upload completes, the final file [a.bin] holds 1 byte, the record says
    size 1, and the first 1,048,576 bytes stay in a temp file. *)
Theorem chunked_upload_keeps_only_last_chunk :
  let file := zeros "a.bin" 1048577 in
  let run :=
    FileUploader.uploadOne
      (FileUploader.served (steadyNet 1714557600000 40)) quietClient 1048576
      file "/docs" emptyWorld in
  (inject_Z 1048576 == FileUploader.CHUNK_SIZE "1MB")%Q
  ∧ Route.f_size file = 1048577
  ∧ FileUploader.ceilDiv (Route.f_size file) 1048576 = 2
  ∧ fileSizes (FileUploader.w_fs run.1.1)
    = {[ "/mnt/nas/storage//docs/a.bin" := 1;
         "/mnt/nas/storage//docs/temp_YS5iaW4_1714557600000" := 1048576 ]}
  ∧ ∃ rec, run.2 = FileUploader.Resolved rec
           ∧ Route.r_name rec = "a.bin" ∧ Route.r_size rec = 1.
Proof.
  vm_compute. split; [reflexivity|]. split; [reflexivity|].
  split; [reflexivity|]. split; [reflexivity|].
  eexists. split; [reflexivity|]. split; reflexivity.
Qed.

(** ** Names of whole-file uploads *)

Lemma split_nonempty (sep : ascii) (s : string) : Js.split sep s ≠ [].
Proof.
  induction s as [|c s IH]; simpl; [done|].
  destruct (Ascii.eqb c sep); [done|]. by destruct (Js.split sep s).
Qed.

Lemma join_cons (sep p : string) (ps : list string) :
  ps ≠ [] → Js.join sep (p :: ps) = p +:+ sep +:+ Js.join sep ps.
Proof. by destruct ps. Qed.

Lemma join_split (sep : ascii) (s : string) :
  Js.join (String sep "") (Js.split sep s) = s.
Proof.
  induction s as [|c s IH]; [done|]. simpl.
  destruct (Ascii.eqb_spec c sep) as [->|Hc].
  - rewrite join_cons by apply split_nonempty. by rewrite IH.
  - pose proof (split_nonempty sep s) as Hne.
    destruct (Js.split sep s) as [|p ps]; [done|].
    destruct ps as [|q ps].
    + simpl in *. by rewrite IH.
    + rewrite join_cons in * by done. rewrite str_app_cons. by rewrite IH.
Qed.

Lemma join_snoc (sep x : string) (ps : list string) :
  ps ≠ [] → Js.join sep (ps ++ [x]) = Js.join sep ps +:+ sep +:+ x.
Proof.
  induction ps as [|p ps IH]; [done|]. intros _.
  destruct ps as [|q ps]; [done|].
  change ((p :: q :: ps) ++ [x]) with (p :: ((q :: ps) ++ [x])).
  rewrite join_cons by (by destruct ps). rewrite IH by done.
  rewrite (join_cons sep p (q :: ps)) by done. by rewrite !str_app_assoc.
Qed.

Lemma split_app (sep : ascii) (s t : string) :
  Js.split sep (s +:+ String sep t) = Js.split sep s ++ Js.split sep t.
Proof.
  induction s as [|c s IH]; [by simpl; rewrite Ascii.eqb_refl|].
  rewrite str_app_cons. cbn [Js.split]. rewrite IH.
  destruct (Ascii.eqb c sep); [done|].
  pose proof (split_nonempty sep s) as Hne.
  by destruct (Js.split sep s).
Qed.

Lemma split_none (sep : ascii) (s : string) :
  Js.allb (λ c, negb (Ascii.eqb c sep)) s = true → Js.split sep s = [s].
Proof.
  induction s as [|c s IH]; [done|]. simpl.
  intros [Hc Hs]%andb_true_iff. apply negb_true_iff in Hc. rewrite Hc.
  by rewrite (IH Hs).
Qed.

(** No segment of a split holds the separator. *)
Lemma split_segments (sep : ascii) (s : string) :
  Forall (λ p, Js.allb (λ c, negb (Ascii.eqb c sep)) p = true) (Js.split sep s).
Proof.
  induction s as [|c s IH]; [by repeat constructor|]. simpl.
  destruct (Ascii.eqb c sep) eqn:E; [by constructor|].
  destruct (Js.split sep s) as [|q qs]; [by repeat constructor; simpl; rewrite E|].
  inversion IH as [|? ? Hq Hqs]; subst. constructor; [|done].
  simpl. by rewrite E, Hq.
Qed.

Lemma last_elem_of {A} (l : list A) (d : A) : l ≠ [] → List.last l d ∈ l.
Proof.
  induction l as [|x l IH]; [done|]. intros _.
  destruct l as [|y l]; [by left|]. right. by apply IH.
Qed.

Lemma pop_snoc (parts : list string) (x : string) :
  Js.pop (parts ++ [x]) = (x, parts).
Proof. unfold Js.pop. by rewrite last_last, removelast_last. Qed.

Lemma name_segments (stem ext : string) :
  noDot ext = true →
  Js.pop (Js.split "." (stem +:+ "." +:+ ext)) = (ext, Js.split "." stem)
  ∧ Js.pop (Js.split "." ext) = (ext, []).
Proof.
  intros Hext. change ("." +:+ ext) with (String "." ext).
  rewrite split_app, (split_none "." ext Hext). split; [apply pop_snoc|done].
Qed.

(** A name is its stem, a point and its last extension, when it has a
    point. *)
Lemma name_parts (name : string) :
  let '(ext, parts) := Js.pop (Js.split "." name) in
  parts ≠ [] → name = Js.join "." parts +:+ "." +:+ ext.
Proof.
  unfold Js.pop. intros Hparts.
  rewrite <-join_snoc by done.
  rewrite <-app_removelast_last by apply split_nonempty.
  by rewrite join_split.
Qed.

Lemma stripExtension_length (name : string) :
  (String.length name
   ≤ String.length (Route.stripExtension name) + 1
     + String.length (Js.pop (Js.split "." name)).1)%nat.
Proof.
  unfold Route.stripExtension. pose proof (name_parts name) as H.
  destruct (Js.pop (Js.split "." name)) as [ext parts]. simpl.
  destruct parts as [|p ps]; [lia|].
  case_match; [lia|].
  rewrite H at 1 by done. rewrite !str_length_app. simpl. lia.
Qed.

Lemma generatedName_longer (name : string) (timestamp : N) (randomSuffix : string) :
  (String.length name
   < String.length (Route.generatedName name timestamp randomSuffix))%nat.
Proof.
  unfold Route.generatedName. rewrite !str_length_app.
  pose proof (stripExtension_length name).
  pose proof (pretty_N_nonempty timestamp) as Hne.
  destruct (pretty timestamp) eqn:E; [done|]. unfold Js.pop in *. simpl in *. lia.
Qed.

Lemma generatedName_differs (name : string) (timestamp : N) (randomSuffix : string) :
  Route.generatedName name timestamp randomSuffix ≠ name.
Proof.
  intros H. pose proof (generatedName_longer name timestamp randomSuffix).
  rewrite H in *. lia.
Qed.

(** The generated name of <stem>.<ext>. *)
Lemma generatedName_shape (stem ext : string) (timestamp : N)
    (randomSuffix : string) :
  noDot ext = true → noSlash ext = true → ext ≠ "" →
  Route.generatedName (stem +:+ "." +:+ ext) timestamp randomSuffix
  = stem +:+ "_" +:+ pretty timestamp +:+ "_" +:+ randomSuffix +:+ "." +:+ ext.
Proof.
  intros Hdot Hslash Hne.
  destruct (name_segments stem ext Hdot) as [Hfull _].
  pose proof (split_nonempty "." stem) as Hparts.
  unfold Route.generatedName, Route.stripExtension.
  rewrite Hfull. cbn [fst snd].
  apply String.eqb_neq in Hne. rewrite Hne.
  unfold noSlash in Hslash. rewrite Hslash. cbn [negb orb].
  rewrite (join_split "." stem).
  by destruct (Js.split "." stem).
Qed.

(** The generated name of a name without a point: [split('.').pop()] is the
    whole name and the pattern of [replace] finds nothing. *)
Lemma generatedName_bare (name : string) (timestamp : N) (randomSuffix : string) :
  noDot name = true →
  Route.generatedName name timestamp randomSuffix
  = name +:+ "_" +:+ pretty timestamp +:+ "_" +:+ randomSuffix +:+ "." +:+ name.
Proof.
  intros Hdot. unfold Route.generatedName, Route.stripExtension.
  rewrite (split_none "." name Hdot). reflexivity.
Qed.

(** The generated name of any name: the extension is the text after the last
    point, the whole name when it has none; the base is the name without
    that extension and its point, or the whole name. *)
Lemma generatedName_parts (name : string) (timestamp : N) (randomSuffix : string) :
  ∃ base ext,
    Route.generatedName name timestamp randomSuffix
    = base +:+ "_" +:+ pretty timestamp +:+ "_" +:+ randomSuffix +:+ "." +:+ ext
    ∧ noDot ext = true
    ∧ (name = ext ∨ ∃ stem, name = stem +:+ "." +:+ ext)
    ∧ (base = name ∨ name = base +:+ "." +:+ ext).
Proof.
  unfold Route.generatedName, Route.stripExtension.
  pose proof (name_parts name) as Hparts.
  pose proof (split_segments "." name) as Hseg.
  pose proof (split_nonempty "." name) as Hne.
  pose proof (join_split "." name) as Hjoin.
  unfold Js.pop in *. cbn [fst snd] in *.
  set (parts := Js.split "." name) in *.
  assert (Hext : noDot (List.last parts "") = true).
  { rewrite Forall_forall in Hseg. by apply Hseg, last_elem_of. }
  destruct (removelast parts) as [|q qs] eqn:E.
  - eexists _, _. split; [reflexivity|]. split; [done|].
    assert (name = List.last parts "") as Hname.
    { rewrite (app_removelast_last "" Hne), E in Hjoin. simpl in Hjoin.
      by rewrite <-Hjoin at 1. }
    split; [by left|by left].
  - specialize (Hparts ltac:(done)).
    case_match.
    + eexists _, _. split; [reflexivity|]. split; [done|].
      split; [right; by eexists|by left].
    + eexists _, _. split; [reflexivity|]. split; [done|].
      split; [right; by eexists|by right].
Qed.

Lemma storeFiles_records (fe : nat → Route.env) (todo : list Route.File) :
  ∀ (i : nat) (fs fs' : gmap string (list Byte.byte)) (sp full : string)
    (done records : list Route.fileRecord),
  Route.storeFiles fe i fs sp full todo done = (fs', inr records) →
  let stored (j : nat) (file : Route.File) :=
    Route.pathJoin full
      (Route.generatedName (Route.f_name file) (Route.now (fe (i + j)%nat))
         (Route.random (fe (i + j)%nat))) in
  ∃ new,
    records = done ++ new
    ∧ length new = length todo
    ∧ (∀ j file, todo !! j = Some file →
         new !! j = Some (Route.wholeRecord (fe (i + j)%nat) file sp)
         ∧ is_Some (fs' !! stored j file))
    ∧ (∀ p, is_Some (fs !! p) → is_Some (fs' !! p))
    ∧ (∀ p, (∀ j file, todo !! j = Some file → p ≠ stored j file) →
            fs' !! p = fs !! p).
Proof.
  induction todo as [|file rest IH]; intros i fs fs' sp full done records; simpl.
  - intros [= <- <-]. exists []. rewrite app_nil_r. repeat split; try done.
  - unfold Route.writeFile. destruct (Route.writeOk (fe i)); [|done].
    intros Hrun. apply IH in Hrun as (new & -> & Hlen & Hrec & Hmono & Hframe).
    exists (Route.wholeRecord (fe i) file sp :: new).
    split; [by rewrite <-(assoc_L (++))|]. split; [simpl; lia|].
    split; [|split].
    + intros [|j] file' Hj; simpl in Hj.
      * injection Hj as <-. rewrite Nat.add_0_r. split; [done|].
        apply Hmono. rewrite lookup_insert_eq. by eexists.
      * replace (i + S j)%nat with (S i + j)%nat by lia. by apply Hrec.
    + intros p Hp. apply Hmono.
      destruct (decide (p = Route.pathJoin full
                  (Route.generatedName (Route.f_name file) (Route.now (fe i))
                     (Route.random (fe i))))) as [->|Hne].
      * rewrite lookup_insert_eq. by eexists.
      * by rewrite lookup_insert_ne.
    + intros p Hp. rewrite Hframe.
      * apply lookup_insert_ne. intros <-. apply (Hp 0%nat file); [done|].
        by rewrite Nat.add_0_r.
      * intros j file' Hj. specialize (Hp (S j) file' Hj).
        by replace (i + S j)%nat with (S i + j)%nat in Hp by lia.
Qed.

(** C10.  A whole-file upload that succeeds stores each file under the
    generated name <base>_<timestamp>_<random>.<ext>: <ext> is the text after
    the last point of the name of the file (the whole name when it has no
    point) and <base> the name without that extension, so that <stem>.<ext>
    is stored as <stem>_<timestamp>_<random>.<ext>.  That name is never the
    name of the file, and nothing else is written; the record of the file
    has name and originalName equal to the name of the file, and only its
    path holds the generated name.  A chunked upload whose requested name is
    free is stored under that very name. *)
Theorem whole_file_names (e : Route.env) (fe : nat → Route.env)
    (fs fs' : gmap string (list Byte.byte)) (files : list Route.File)
    (uploadPath : string) (resp : Route.response) :
  Route.wholeUpload e fe fs files uploadPath = (fs', resp) →
  Route.success (Route.json resp) = Some true →
  let generated (i : nat) (file : Route.File) :=
    Route.generatedName (Route.f_name file) (Route.now (fe i))
      (Route.random (fe i)) in
  (∃ records,
     Route.files (Route.json resp) = Some records
     ∧ length records = length files
     ∧ ∀ i file, files !! i = Some file →
         ∃ rec,
           records !! i = Some rec
           ∧ Route.r_name rec = Route.f_name file
           ∧ Route.r_originalName rec = Route.f_name file
           ∧ Route.r_path rec
             = Route.sanitize uploadPath +:+ "/" +:+ generated i file
           ∧ generated i file ≠ Route.f_name file
           ∧ Route.r_name rec ≠ generated i file
           ∧ is_Some (fs' !! Route.pathJoin (directoryOf uploadPath)
                               (generated i file))
           ∧ (∃ base ext,
                generated i file
                = base +:+ "_" +:+ pretty (Route.now (fe i)) +:+ "_"
                  +:+ Route.random (fe i) +:+ "." +:+ ext
                ∧ noDot ext = true
                ∧ (Route.f_name file = ext
                   ∨ ∃ stem, Route.f_name file = stem +:+ "." +:+ ext)
                ∧ (base = Route.f_name file
                   ∨ Route.f_name file = base +:+ "." +:+ ext))
           ∧ (∀ stem ext,
                Route.f_name file = stem +:+ "." +:+ ext →
                noDot ext = true → noSlash ext = true → ext ≠ "" →
                generated i file
                = stem +:+ "_" +:+ pretty (Route.now (fe i)) +:+ "_"
                  +:+ Route.random (fe i) +:+ "." +:+ ext)
           ∧ (noDot (Route.f_name file) = true →
              generated i file
              = Route.f_name file +:+ "_" +:+ pretty (Route.now (fe i)) +:+ "_"
                +:+ Route.random (fe i) +:+ "." +:+ Route.f_name file))
  ∧ (∀ p, (∀ i file, files !! i = Some file →
             p ≠ Route.pathJoin (directoryOf uploadPath) (generated i file)) →
          fs' !! p = fs !! p)
  ∧ (∀ ce cfs cfs' chunk ci tc fileName cresp,
       Route.handleChunkedUpload ce cfs chunk uploadPath ci tc fileName
       = (cfs', cresp) →
       Route.success (Route.json cresp) = Some true →
       Js.strictEq ci (Js.sub tc (Js.Num 1)) = true →
       let temp :=
         Route.pathJoin (directoryOf uploadPath)
           (Route.tempFileName fileName (Route.now ce)) in
       let written :=
         <[temp := (if Js.strictEq ci (Js.Num 0) then [] else default [] (cfs !! temp))
                   ++ Route.f_bytes chunk]> cfs in
       written !! Route.pathJoin (directoryOf uploadPath) fileName = None →
       ∃ rec data,
         Route.files (Route.json cresp) = Some [rec]
         ∧ Route.r_name rec = fileName
         ∧ cfs' !! Route.pathJoin (directoryOf uploadPath) fileName = Some data).
Proof.
  intros Hrun Hok generated. split; [|split].
  - unfold Route.wholeUpload in Hrun.
    destruct (Route.accessOk e); [|simpl in Hrun; simplify_eq; done].
    destruct (Route.mkdirOk e); [|simpl in Hrun; simplify_eq; done].
    simpl in Hrun.
    destruct (Route.storeFiles _ _ _ _ _ _ _) as [fs1 [msg|records]] eqn:Hstore;
      [simplify_eq; done|].
    injection Hrun as <- <-.
    apply storeFiles_records in Hstore as (new & -> & Hlen & Hrec & _ & _).
    exists new. split; [done|]. split; [done|].
    intros i file Hi. destruct (Hrec i file Hi) as [Hnew Hin].
    eexists. split; [exact Hnew|]. simpl.
    pose proof (generatedName_differs (Route.f_name file) (Route.now (fe i))
                  (Route.random (fe i))) as Hne.
    split; [done|]. split; [done|]. split; [done|]. split; [done|].
    split; [done|]. split; [done|].
    split; [apply generatedName_parts|]. split.
    + intros stem ext E Hdot Hslash Hext. unfold generated. rewrite E.
      by apply generatedName_shape.
    + apply generatedName_bare.
  - unfold Route.wholeUpload in Hrun.
    destruct (Route.accessOk e); [|simpl in Hrun; simplify_eq; done].
    destruct (Route.mkdirOk e); [|simpl in Hrun; simplify_eq; done].
    simpl in Hrun.
    destruct (Route.storeFiles _ _ _ _ _ _ _) as [fs1 [msg|records]] eqn:Hstore;
      [simplify_eq; done|].
    injection Hrun as <- <-.
    apply storeFiles_records in Hstore as (new & _ & _ & _ & _ & Hframe).
    intros p Hp. apply Hframe. intros j file Hj. by apply Hp.
  - intros ce cfs cfs' chunk ci tc fileName cresp Hc Hcok Hlast temp written Hfree.
    pose proof (handled _ _ _ _ _ _ _ _ _ Hc Hcok) as H. cbv zeta in H.
    rewrite Hlast in H. fold (directoryOf uploadPath) in H.
    fold temp in H. fold written in H.
    assert (Hu : Route.uniqueFileName written (directoryOf uploadPath) fileName
                 = fileName).
    { destruct (uniqueFileName_spec written (directoryOf uploadPath) fileName)
        as [_ [[_ ->]|[Htaken _]]]; [done|].
      apply existsSync_true, elem_of_dom in Htaken as [x Hx]. congruence. }
    rewrite Hu in H. destruct H as (-> & _ & Hfinal & _).
    eexists _, _. split; [reflexivity|]. split; [done|]. exact Hfinal.
Qed.

(** ** Finalization and existing files *)

Lemma alnum_not_dot (c : ascii) :
  Js.isAlnum c = true → negb (Ascii.eqb c ".") = true.
Proof. intros H. destruct (Ascii.eqb_spec c ".") as [->|]; [done|done]. Qed.

Lemma tempFileName_no_dot (fileName : string) (dateNow : N) :
  Js.allb (λ c, negb (Ascii.eqb c ".")) (Route.tempFileName fileName dateNow) = true.
Proof.
  unfold Route.tempFileName, Route.fileHash. rewrite prefix_filter, !allb_app.
  rewrite (allb_impl _ _ _ alnum_not_dot (firstAlnum_alnum _ _)).
  rewrite (digits_without "." _ eq_refl (pretty_N_digits dateNow)).
  reflexivity.
Qed.

Lemma candidate_has_dot (name : string) (c : Z) :
  Js.allb (λ c, negb (Ascii.eqb c ".")) (Route.candidate name c) = false.
Proof.
  rewrite candidate_eq, !allb_app. simpl.
  by rewrite !andb_false_r.
Qed.

Lemma tempFileName_not_candidate (fileName : string) (dateNow : N) (c : Z) :
  Route.tempFileName fileName dateNow ≠ Route.candidate fileName c.
Proof.
  intros E. pose proof (tempFileName_no_dot fileName dateNow) as H.
  rewrite E, candidate_has_dot in H. done.
Qed.

(** What a successful last chunk does to the store. *)
Lemma promoted (e : Route.env) (fs fs' : gmap string (list Byte.byte))
    (chunk : Route.File) (uploadPath : string) (ci tc : Js.number)
    (fileName : string) (resp : Route.response) :
  Route.handleChunkedUpload e fs chunk uploadPath ci tc fileName = (fs', resp) →
  Route.success (Route.json resp) = Some true →
  Route.completed (Route.json resp) = Some true →
  let dir := directoryOf uploadPath in
  let temp := Route.pathJoin dir (Route.tempFileName fileName (Route.now e)) in
  let written :=
    <[temp := (if Js.strictEq ci (Js.Num 0) then [] else default [] (fs !! temp))
              ++ Route.f_bytes chunk]> fs in
  let taken n := Route.existsSync written (Route.pathJoin dir n) in
  ∃ name data,
    recordNames resp = [name]
    ∧ ((taken fileName = false ∧ name = fileName)
       ∨ (taken fileName = true
          ∧ ∃ c, 1 ≤ c ∧ name = Route.candidate fileName c
                 ∧ ∀ c', 1 ≤ c' < c → taken (Route.candidate fileName c') = true))
    ∧ written !! Route.pathJoin dir name = None
    ∧ fs' !! Route.pathJoin dir name = Some data
    ∧ ∀ p, p ≠ temp → p ≠ Route.pathJoin dir name → fs' !! p = fs !! p.
Proof.
  intros Hrun Hok Hdone dir temp written taken.
  pose proof (handled _ _ _ _ _ _ _ _ _ Hrun Hok) as H. cbv zeta in H.
  fold dir in H. fold temp in H. fold written in H.
  destruct (Js.strictEq ci (Js.sub tc (Js.Num 1))).
  2:{ destruct H as [_ ->]. done. }
  destruct H as (-> & Hfree & Hfinal & _ & Hframe).
  eexists _, _. split; [reflexivity|].
  split; [apply (uniqueFileName_spec written dir fileName)|].
  split; [done|]. split; [exact Hfinal|exact Hframe].
Qed.

(** The same, seen from the store the request found. *)
Lemma promoted_fresh (e : Route.env) (fs fs' : gmap string (list Byte.byte))
    (chunk : Route.File) (uploadPath : string) (ci tc : Js.number)
    (fileName : string) (resp : Route.response) :
  Route.handleChunkedUpload e fs chunk uploadPath ci tc fileName = (fs', resp) →
  Route.success (Route.json resp) = Some true →
  Route.completed (Route.json resp) = Some true →
  let dir := directoryOf uploadPath in
  let temp := Route.pathJoin dir (Route.tempFileName fileName (Route.now e)) in
  ∃ name,
    recordNames resp = [name]
    ∧ (name = fileName ∨ ∃ c, name = Route.candidate fileName c)
    ∧ Route.pathJoin dir name ≠ temp
    ∧ fs !! Route.pathJoin dir name = None
    ∧ is_Some (fs' !! Route.pathJoin dir name)
    ∧ ∀ p, p ≠ temp → is_Some (fs !! p) → is_Some (fs' !! p).
Proof.
  intros Hrun Hok Hdone dir temp.
  destruct (promoted _ _ _ _ _ _ _ _ _ Hrun Hok Hdone)
    as (name & data & Hname & Hwhich & Hfree & Hfinal & Hframe).
  fold dir in Hwhich, Hfree, Hfinal, Hframe. fold temp in Hfree, Hframe.
  assert (Hne : Route.pathJoin dir name ≠ temp).
  { intros E. rewrite E, lookup_insert_eq in Hfree. done. }
  rewrite lookup_insert_ne in Hfree by done.
  exists name. split; [done|]. split.
  { destruct Hwhich as [[_ ->]|(_ & c & _ & -> & _)]; eauto. }
  split; [done|]. split; [done|]. split; [by eexists|].
  intros p Hp Hin.
  destruct (decide (p = Route.pathJoin dir name)) as [->|Hpn]; [by eexists|].
  by rewrite Hframe.
Qed.

(** What a served request does to the files that were there, and the name it
    reports when it completes an upload. *)
Lemma served_effect (e : Route.env) (fs fs' : gmap string (list Byte.byte))
    (chunk : Route.File) (uploadPath : string) (ci tc : Js.number)
    (fileName : string) (resp : Route.response) :
  Route.handleChunkedUpload e fs chunk uploadPath ci tc fileName = (fs', resp) →
  Route.success (Route.json resp) = Some true →
  let dir := directoryOf uploadPath in
  let temp := Route.pathJoin dir (Route.tempFileName fileName (Route.now e)) in
  (∀ p, p ≠ temp → is_Some (fs !! p) → is_Some (fs' !! p))
  ∧ ((isCompleted resp = false ∧ recordNames resp = [])
     ∨ (isCompleted resp = true
        ∧ ∃ name,
            recordNames resp = [name]
            ∧ (name = fileName ∨ ∃ c, name = Route.candidate fileName c)
            ∧ fs !! Route.pathJoin dir name = None
            ∧ is_Some (fs' !! Route.pathJoin dir name))).
Proof.
  intros Hrun Hok dir temp.
  destruct (isCompleted resp) eqn:Hc.
  - assert (Hdone : Route.completed (Route.json resp) = Some true).
    { unfold isCompleted in Hc. by destruct (Route.completed _) as [[]|]. }
    destruct (promoted_fresh _ _ _ _ _ _ _ _ _ Hrun Hok Hdone)
      as (name & Hname & Hwhich & _ & Hfree & Hin & Hkeep).
    split; [done|]. right. split; [done|]. by exists name.
  - pose proof (handled _ _ _ _ _ _ _ _ _ Hrun Hok) as H. cbv zeta in H.
    destruct (Js.strictEq ci (Js.sub tc (Js.Num 1))).
    { destruct H as (-> & _). done. }
    destruct H as [-> ->]. split; [|by left].
    intros p Hp Hin. fold dir in Hp |- *. fold temp in Hp |- *.
    by rewrite lookup_insert_ne.
Qed.

Lemma serveAll_distinct (uploadPath fileName : string)
    (requests : list (Route.env * Route.File * Js.number * Js.number)) :
  ∀ (fs fs' : gmap string (list Byte.byte)) (resps : list Route.response),
  serveAll uploadPath fileName requests fs = (fs', resps) →
  Forall (λ r, Route.success (Route.json r) = Some true) resps →
  Forall (λ r, Route.tempFileName fileName (Route.now r.1.1.1) ≠ fileName)
    requests →
  let dir := directoryOf uploadPath in
  let names := concat (recordNames <$> resps) in
  length names = length (filter (λ r, isCompleted r = true) resps)
  ∧ NoDup names
  ∧ (∀ n, n ∈ names →
       (n = fileName ∨ ∃ c, n = Route.candidate fileName c)
       ∧ fs !! Route.pathJoin dir n = None
       ∧ is_Some (fs' !! Route.pathJoin dir n))
  ∧ (∀ p, is_Some (fs !! p) →
          (∀ r, r ∈ requests →
                p ≠ Route.pathJoin dir (Route.tempFileName fileName (Route.now r.1.1.1))) →
          is_Some (fs' !! p)).
Proof.
  assert (Hkind : ∀ n t, (n = fileName ∨ ∃ c, n = Route.candidate fileName c) →
            Route.tempFileName fileName t ≠ fileName →
            Route.pathJoin (directoryOf uploadPath) n
            ≠ Route.pathJoin (directoryOf uploadPath) (Route.tempFileName fileName t)).
  { intros n t Hn Ht E. apply pathJoin_inj in E.
    destruct Hn as [->|[c ->]]; [done|].
    by apply (tempFileName_not_candidate fileName t c). }
  induction requests as [|[[[e chunk] ci] tc] rest IH]; intros fs fs' resps; simpl.
  - intros [= <- <-] _ _. simpl. split; [done|]. split; [constructor|].
    split; [intros n Hn; by apply elem_of_nil in Hn|done].
  - destruct (Route.handleChunkedUpload e fs chunk uploadPath ci tc fileName)
      as [fs1 resp] eqn:Hfirst.
    destruct (serveAll uploadPath fileName rest fs1) as [fs2 resps'] eqn:Hrest.
    intros [= <- <-] Hoks Htemps.
    apply Forall_cons in Hoks as [Hok Hoks].
    apply Forall_cons in Htemps as [Htemp Htemps]. simpl in Htemp.
    destruct (served_effect _ _ _ _ _ _ _ _ _ Hfirst Hok) as [Hkeep Hcase].
    destruct (IH _ _ _ Hrest Hoks Htemps) as (Hlen & Hnodup & Hnames & Hpres).
    assert (Hback : ∀ n, n ∈ concat (recordNames <$> resps') →
              fs !! Route.pathJoin (directoryOf uploadPath) n = None).
    { intros n Hn. destruct (Hnames _ Hn) as (Hk & Hnone & _).
      destruct (fs !! Route.pathJoin (directoryOf uploadPath) n) eqn:E; [|done].
      exfalso.
      assert (is_Some (fs1 !! Route.pathJoin (directoryOf uploadPath) n)) as [x Hx].
      { apply Hkeep; [by apply Hkind|by eexists]. }
      congruence. }
    assert (Hlater : ∀ p, is_Some (fs !! p) →
              (∀ r, r ∈ (e, chunk, ci, tc) :: rest →
                    p ≠ Route.pathJoin (directoryOf uploadPath)
                          (Route.tempFileName fileName (Route.now r.1.1.1))) →
              is_Some (fs2 !! p)).
    { intros p Hp Hall. apply Hpres.
      - apply Hkeep; [|done]. apply (Hall (e, chunk, ci, tc)). by left.
      - intros r Hr. apply Hall. by right. }
    rewrite fmap_cons, filter_cons. cbn [concat].
    destruct Hcase as [[Hc ->]|(Hc & name & -> & Hwhich & Hfree & Hin)];
      rewrite Hc; cbn [app length].
    + case_decide; [done|]. split; [done|]. split; [done|]. split; [|done].
      intros n Hn. destruct (Hnames _ Hn) as (Hk & _ & Hsome). auto.
    + case_decide; [|done]. cbn [length].
      split; [lia|]. split; [|split; [|done]].
      * constructor; [|done]. intros Hdup.
        destruct (Hnames _ Hdup) as (_ & Hnone & _).
        rewrite Hnone in Hin. by destruct Hin.
      * intros n [->|Hn]%elem_of_cons.
        -- split; [done|]. split; [done|]. apply Hpres; [done|].
           intros r Hr. apply Hkind; [done|].
           by apply (proj1 (Forall_forall _ _) Htemps).
        -- destruct (Hnames _ Hn) as (Hk & _ & Hsome). auto.
Qed.

Lemma temp_path_differs (dir fileName name : string) (t : N) :
  Js.allb (λ c, negb (Ascii.eqb c ".")) name = false →
  Route.pathJoin dir name ≠ Route.pathJoin dir (Route.tempFileName fileName t).
Proof.
  intros Hdot E. apply pathJoin_inj in E.
  rewrite E, tempFileName_no_dot in Hdot. done.
Qed.

(** C4.  A last chunk that is served picks the requested name when no file
    has it, and otherwise <base>_<counter>.<ext> for the first counter 1, 2,
    3, ... whose name is free; the temp file is moved to a path that holds no
    file, and every file other than that temp file is left as it was.  With
    an x.txt in place, an upload named x.txt is stored as x_<c>.txt (x_1.txt
    when that is free) and x.txt keeps its contents.  Requests that complete
    N uploads of one name, whatever the number of chunks of each, give N
    different names, all free before and all present after (for a name that
    is not itself the temp name of one of the requests, as every name with
    a point is). *)
Theorem finalization_keeps_existing_files :
  (∀ e fs fs' chunk uploadPath ci tc fileName resp,
     Route.handleChunkedUpload e fs chunk uploadPath ci tc fileName = (fs', resp) →
     Route.success (Route.json resp) = Some true →
     Route.completed (Route.json resp) = Some true →
     let dir := directoryOf uploadPath in
     let temp := Route.pathJoin dir (Route.tempFileName fileName (Route.now e)) in
     let written :=
       <[temp := (if Js.strictEq ci (Js.Num 0) then [] else default [] (fs !! temp))
                 ++ Route.f_bytes chunk]> fs in
     let taken n := Route.existsSync written (Route.pathJoin dir n) in
     ∃ name data,
       recordNames resp = [name]
       ∧ ((taken fileName = false ∧ name = fileName)
          ∨ (taken fileName = true
             ∧ ∃ c, 1 ≤ c ∧ name = Route.candidate fileName c
                    ∧ ∀ c', 1 ≤ c' < c →
                            taken (Route.candidate fileName c') = true))
       ∧ written !! Route.pathJoin dir name = None
       ∧ fs' !! Route.pathJoin dir name = Some data
       ∧ ∀ p, p ≠ temp → p ≠ Route.pathJoin dir name → fs' !! p = fs !! p)
  ∧ (∀ e fs fs' chunk uploadPath ci tc resp old,
       Route.handleChunkedUpload e fs chunk uploadPath ci tc "x.txt" = (fs', resp) →
       Route.success (Route.json resp) = Some true →
       Route.completed (Route.json resp) = Some true →
       let dir := directoryOf uploadPath in
       fs !! Route.pathJoin dir "x.txt" = Some old →
       ∃ c data,
         1 ≤ c
         ∧ recordNames resp = ["x_" +:+ pretty c +:+ ".txt"]
         ∧ (fs !! Route.pathJoin dir "x_1.txt" = None → c = 1)
         ∧ fs !! Route.pathJoin dir ("x_" +:+ pretty c +:+ ".txt") = None
         ∧ fs' !! Route.pathJoin dir ("x_" +:+ pretty c +:+ ".txt") = Some data
         ∧ fs' !! Route.pathJoin dir "x.txt" = Some old)
  ∧ (∀ uploadPath fileName requests fs fs' resps,
       serveAll uploadPath fileName requests fs = (fs', resps) →
       Forall (λ r, Route.success (Route.json r) = Some true) resps →
       Forall (λ r, Route.tempFileName fileName (Route.now r.1.1.1) ≠ fileName)
         requests →
       let dir := directoryOf uploadPath in
       let names := concat (recordNames <$> resps) in
       length names = length (filter (λ r, isCompleted r = true) resps)
       ∧ NoDup names
       ∧ ∀ n, n ∈ names →
              fs !! Route.pathJoin dir n = None
              ∧ is_Some (fs' !! Route.pathJoin dir n)).
Proof.
  split; [exact promoted|]. split.
  - intros e fs fs' chunk uploadPath ci tc resp old Hrun Hok Hdone dir Hold.
    destruct (promoted _ _ _ _ _ _ _ _ _ Hrun Hok Hdone)
      as (name & data & Hname & Hwhich & Hfree & Hfinal & Hframe).
    fold dir in Hwhich, Hfree, Hfinal, Hframe.
    set (temp := Route.pathJoin dir (Route.tempFileName "x.txt" (Route.now e))) in *.
    set (written := <[temp := _]> fs) in *.
    assert (Hx : Route.pathJoin dir "x.txt" ≠ temp) by (by apply temp_path_differs).
    assert (Hcand : ∀ c, Route.candidate "x.txt" c = "x_" +:+ pretty c +:+ ".txt")
      by reflexivity.
    assert (Htaken : Route.existsSync written (Route.pathJoin dir "x.txt") = true).
    { apply existsSync_true, elem_of_dom. unfold written.
      rewrite lookup_insert_ne by done. by eexists. }
    destruct Hwhich as [[Hno _]|(_ & c & Hc & -> & Hbelow)]; [congruence|].
    assert (Hct : Route.pathJoin dir (Route.candidate "x.txt" c) ≠ temp).
    { apply temp_path_differs, candidate_has_dot. }
    exists c, data. rewrite <-Hcand. split; [done|]. split; [done|].
    split; [|split; [|split]].
    + intros Hfree1. destruct (decide (c = 1)) as [|Hc1]; [done|]. exfalso.
      assert (H1 : Route.existsSync written (Route.pathJoin dir (Route.candidate "x.txt" 1)) = true)
        by (apply Hbelow; lia).
      apply existsSync_true, elem_of_dom in H1 as [y Hy].
      unfold written in Hy. rewrite lookup_insert_ne in Hy.
      * rewrite Hcand in Hy. change ("x_" +:+ pretty 1 +:+ ".txt") with "x_1.txt" in Hy.
        congruence.
      * intros E. symmetry in E. revert E. apply temp_path_differs, candidate_has_dot.
    + unfold written in Hfree. by rewrite lookup_insert_ne in Hfree.
    + done.
    + rewrite Hframe; [done|done|].
      intros E. rewrite <-E in Hfree. unfold written in Hfree.
      rewrite lookup_insert_ne in Hfree by done. congruence.
  - intros uploadPath fileName requests fs fs' resps Hrun Hoks Htemps dir names.
    destruct (serveAll_distinct _ _ _ _ _ _ Hrun Hoks Htemps)
      as (Hlen & Hnodup & Hnames & _).
    split; [done|]. split; [done|]. intros n Hn.
    destruct (Hnames n Hn) as (_ & H1 & H2). done.
Qed.

Lemma finalization_keeps_existing_files_witness :
  let fs : gmap string (list Byte.byte) :=
    {[ "/mnt/nas/storage//docs/x.txt" := [Byte.x41] ]} in
  let requests :=
    [ (calmEnv 1000, blob [Byte.x01], Js.Num 0, Js.Num 2);
      (calmEnv 1000, blob [Byte.x02], Js.Num 1, Js.Num 2);
      (calmEnv 2000, blob [Byte.x03], Js.Num 0, Js.Num 2);
      (calmEnv 2001, blob [Byte.x04], Js.Num 1, Js.Num 2);
      (calmEnv 3000, blob [Byte.x05], Js.Num 0, Js.Num 1) ] in
  let run := serveAll "/docs" "x.txt" requests fs in
  length (concat (recordNames <$> run.2)) = 3%nat
  ∧ NoDup (concat (recordNames <$> run.2))
  ∧ ∀ n, n ∈ concat (recordNames <$> run.2) →
         fs !! Route.pathJoin (directoryOf "/docs") n = None
         ∧ is_Some (run.1 !! Route.pathJoin (directoryOf "/docs") n).
Proof.
  intros fs requests run.
  destruct finalization_keeps_existing_files as (_ & _ & H).
  apply (H "/docs" "x.txt" requests fs run.1 run.2).
  - apply surjective_pairing.
  - vm_compute. repeat constructor.
  - repeat constructor; vm_compute; discriminate.
Defined.

Import FileUploader.

(** ** The chunk planner over a scripted transport *)

Lemma ceilDiv_bounds (size chunkSize : Z) :
  0 < chunkSize → 0 ≤ size →
  (ceilDiv size chunkSize - 1) * chunkSize < size + chunkSize
  ∧ size ≤ ceilDiv size chunkSize * chunkSize
  ∧ (0 < size → (ceilDiv size chunkSize - 1) * chunkSize < size).
Proof.
  intros HC HS. unfold ceilDiv.
  pose proof (Z.div_mod (size + chunkSize - 1) chunkSize ltac:(lia)) as Hdm.
  pose proof (Z.mod_pos_bound (size + chunkSize - 1) chunkSize HC) as Hm.
  nia.
Qed.

Lemma ceilDiv_large (size chunkSize : Z) :
  0 < chunkSize → chunkSize < size → 2 ≤ ceilDiv size chunkSize.
Proof.
  intros HC HS. destruct (ceilDiv_bounds size chunkSize) as (_ & H & _); [lia..|].
  nia.
Qed.

(** One attempt that succeeds ends the loop of its chunk. *)
Lemma sendChunk_success (left : nat) (o : outcome) (script : list outcome)
    (form : Route.formData) (chunkIndex totalChunks uploadedChunks : Z)
    (log : list event) (result : Route.body) :
  attemptResult o = inr result →
  sendChunk scripted (S left) (o :: script) form chunkIndex totalChunks
    uploadedChunks log
  = (script, log ++ [Sent form; Progress (uploadedChunks + 1) totalChunks],
     match completedFile result with
     | Some rec => UploadDone rec
     | None => ChunkDone (uploadedChunks + 1)
     end).
Proof.
  intros H. cbn [sendChunk scripted]. rewrite H.
  rewrite <-(assoc_L (++)). by destruct (completedFile result).
Qed.

(** Three failures in a row. *)
Lemma sendChunk_exhausted (o1 o2 o3 : outcome) (script : list outcome)
    (form : Route.formData) (chunkIndex totalChunks uploadedChunks : Z)
    (log : list event) (m1 m2 m3 : string) :
  attemptResult o1 = inl m1 → attemptResult o2 = inl m2 →
  attemptResult o3 = inl m3 →
  sendChunk scripted (Z.to_nat maxRetries) (o1 :: o2 :: o3 :: script) form
    chunkIndex totalChunks uploadedChunks log
  = (script,
     log ++ [Sent form; Waited 1000; Sent form; Waited 2000; Sent form],
     UploadFailed (chunkFailedMessage chunkIndex m3)).
Proof.
  intros H1 H2 H3. change (Z.to_nat maxRetries) with 3%nat.
  cbn [sendChunk scripted]. rewrite H1, H2, H3.
  change (maxRetries <=? maxRetries - Z.of_nat 3 + 1) with false.
  change (maxRetries <=? maxRetries - Z.of_nat 2 + 1) with false.
  change (maxRetries <=? maxRetries - Z.of_nat 1 + 1) with true.
  cbv beta iota. by rewrite <-!(assoc_L (++)).
Qed.

(** Failures followed by a success, within the three attempts. *)
Lemma sendChunk_recovers_once (o1 o2 : outcome) (script : list outcome)
    (form : Route.formData) (chunkIndex totalChunks uploadedChunks : Z)
    (log : list event) (m1 : string) :
  attemptResult o1 = inl m1 → isAck o2 = true →
  sendChunk scripted (Z.to_nat maxRetries) (o1 :: o2 :: script) form
    chunkIndex totalChunks uploadedChunks log
  = (script,
     log ++ [Sent form; Waited 1000; Sent form;
             Progress (uploadedChunks + 1) totalChunks],
     ChunkDone (uploadedChunks + 1)).
Proof.
  intros H1 H2. change (Z.to_nat maxRetries) with 3%nat. unfold isAck in H2.
  destruct (attemptResult o2) as [|r2] eqn:E2; [done|].
  destruct (completedFile r2) eqn:D2; [done|].
  cbn [sendChunk scripted]. rewrite H1, E2, D2.
  change (maxRetries <=? maxRetries - Z.of_nat 3 + 1) with false.
  cbv beta iota. by rewrite <-!(assoc_L (++)).
Qed.

Lemma sendChunk_recovers_twice (o1 o2 o3 : outcome) (script : list outcome)
    (form : Route.formData) (chunkIndex totalChunks uploadedChunks : Z)
    (log : list event) (m1 m2 : string) :
  attemptResult o1 = inl m1 → attemptResult o2 = inl m2 → isAck o3 = true →
  sendChunk scripted (Z.to_nat maxRetries) (o1 :: o2 :: o3 :: script) form
    chunkIndex totalChunks uploadedChunks log
  = (script,
     log ++ [Sent form; Waited 1000; Sent form; Waited 2000; Sent form;
             Progress (uploadedChunks + 1) totalChunks],
     ChunkDone (uploadedChunks + 1)).
Proof.
  intros H1 H2 H3. change (Z.to_nat maxRetries) with 3%nat. unfold isAck in H3.
  destruct (attemptResult o3) as [|r3] eqn:E3; [done|].
  destruct (completedFile r3) eqn:D3; [done|].
  cbn [sendChunk scripted]. rewrite H1, H2, E3, D3.
  change (maxRetries <=? maxRetries - Z.of_nat 3 + 1) with false.
  change (maxRetries <=? maxRetries - Z.of_nat 2 + 1) with false.
  cbv beta iota. by rewrite <-!(assoc_L (++)).
Qed.

(** Chunks acknowledged at their first attempt, one after the other. *)
Lemma sendChunks_acks (c : clientEnv) (chunkSize : Z) (file : Route.File)
    (uploadPath : string) (acks : list outcome) :
  Forall (λ o, isAck o = true) acks →
  ∀ (more : nat) (rest : list outcome) (first : nat) (uploaded : Z)
    (log : list event),
  sendChunks scripted (length acks + more) c chunkSize file uploadPath
    (acks ++ rest) (Z.of_nat first)
    (ceilDiv (Route.f_size file) chunkSize) uploaded log
  = sendChunks scripted more c chunkSize file uploadPath rest
      (Z.of_nat (first + length acks))
      (ceilDiv (Route.f_size file) chunkSize)
      (uploaded + Z.of_nat (length acks))
      (log ++ concat
         ((λ k, [Sent (chunkForm chunkSize file uploadPath
                         (ceilDiv (Route.f_size file) chunkSize) (Z.of_nat k));
                 Progress (uploaded + Z.of_nat (k - first) + 1)
                   (ceilDiv (Route.f_size file) chunkSize)])
          <$> seq first (length acks))).
Proof.
  induction 1 as [|o acks Ho _ IH]; intros more rest first uploaded log.
  - simpl. rewrite Nat.add_0_r, Z.add_0_r, app_nil_r. done.
  - cbn [length Nat.add app]. cbn [sendChunks].
    unfold isAck in Ho.
    destruct (attemptResult o) as [msg|result] eqn:Hres; [done|].
    destruct (completedFile result) eqn:Hdone; [done|].
    change (Z.to_nat maxRetries) with 3%nat.
    rewrite (sendChunk_success _ _ _ _ _ _ _ _ _ Hres), Hdone.
    replace (Z.of_nat first + 1) with (Z.of_nat (S first)) by lia.
    rewrite IH.
    replace (Z.of_nat (first + S (length acks)))
      with (Z.of_nat (S first + length acks)) by lia.
    replace (uploaded + Z.of_nat (S (length acks)))
      with (uploaded + 1 + Z.of_nat (length acks)) by lia.
    f_equal. rewrite <-(assoc_L (++)). f_equal.
    cbn [seq fmap list_fmap concat app].
    replace (uploaded + Z.of_nat (first - first) + 1) with (uploaded + 1) by lia.
    do 3 f_equal. apply list_fmap_ext. intros i k Hk.
    apply lookup_seq in Hk as [-> _]. do 3 f_equal. lia.
Qed.

(** *** The slices of a file *)

Lemma slice_take_drop (data : list Byte.byte) (k : nat) (chunkSize : Z) :
  0 < chunkSize →
  slice data (Z.of_nat k * chunkSize)
    (Z.min (Z.of_nat k * chunkSize + chunkSize) (Z.of_nat (length data)))
  = take (Z.to_nat chunkSize) (drop (k * Z.to_nat chunkSize) data).
Proof.
  intros HC. unfold slice.
  replace (Z.to_nat (Z.of_nat k * chunkSize)) with (k * Z.to_nat chunkSize)%nat by nia.
  set (n := Z.to_nat chunkSize). set (d := drop (k * n) data).
  assert (Hd : length d = (length data - k * n)%nat) by apply length_drop.
  destruct (decide (Z.of_nat k * chunkSize + chunkSize ≤ Z.of_nat (length data))).
  - rewrite Z.min_l by done. f_equal. lia.
  - rewrite Z.min_r by lia.
    rewrite (take_ge d n) by lia.
    apply take_ge. lia.
Qed.



Lemma sentForms_smoothLog (chunkSize : Z) (file : Route.File)
    (uploadPath : string) (first count : nat) :
  sentForms (smoothLog chunkSize file uploadPath first count)
  = planFrom chunkSize file uploadPath first count.
Proof.
  unfold smoothLog, planFrom. revert first.
  induction count as [|count IH]; intros first; [done|].
  cbn [seq fmap list_fmap concat app]. unfold sentForms in *. simpl.
  f_equal. apply IH.
Qed.


Lemma smoothLog_snoc (chunkSize : Z) (file : Route.File) (uploadPath : string)
    (count : nat) :
  smoothLog chunkSize file uploadPath 0 (S count)
  = smoothLog chunkSize file uploadPath 0 count
    ++ [Sent (chunkForm chunkSize file uploadPath
                (ceilDiv (Route.f_size file) chunkSize) (Z.of_nat count));
        Progress (Z.of_nat count + 1) (ceilDiv (Route.f_size file) chunkSize)].
Proof.
  unfold smoothLog. rewrite seq_S, fmap_app, concat_app. done.
Qed.

(** The upload up to its first chunk that is not acknowledged at once. *)
Lemma upload_smooth_prefix (c : clientEnv) (chunkSize : Z) (file : Route.File)
    (uploadPath : string) (acks rest : list outcome) (more : nat) :
  Forall (λ o, isAck o = true) acks →
  sendChunks scripted (length acks + more) c chunkSize file uploadPath
    (acks ++ rest) 0 (ceilDiv (Route.f_size file) chunkSize) 0 []
  = sendChunks scripted more c chunkSize file uploadPath rest
      (Z.of_nat (length acks)) (ceilDiv (Route.f_size file) chunkSize)
      (Z.of_nat (length acks))
      (smoothLog chunkSize file uploadPath 0 (length acks)).
Proof.
  intros Hacks.
  pose proof (sendChunks_acks c chunkSize file uploadPath acks Hacks more rest
                0%nat 0 []) as H.
  change (Z.of_nat 0) with 0 in H. rewrite H.
  rewrite Z.add_0_l, app_nil_l. simpl (0 + _)%nat. f_equal.
  unfold smoothLog. f_equal. apply list_fmap_ext. intros i k _.
  do 3 f_equal. lia.
Qed.



(** C3.  An attempt fails on a network error, on a status outside 200..299
    and on a response that does not say success.  A chunk whose three
    attempts fail is sent three times, with waits of 1 * 1000 ms and
    2 * 1000 ms in between; then the upload of the file throws
    "Chunk <K + 1> failed after 3 attempts: <last error>", which names the
    chunk of index K by its 1-based number, and no later chunk is sent.  A
    chunk that is accepted at its second or third attempt lets the upload go
    on. *)
Theorem chunk_retry_policy (c : clientEnv) (chunkSize : Z) (file : Route.File)
    (uploadPath : string) :
  let total := ceilDiv (Route.f_size file) chunkSize in
  (∀ reason, failureOf (NetworkError reason) = Some reason)
  ∧ (∀ status text parsed,
       ¬ (200 ≤ status ≤ 299) →
       failureOf (Answer status text parsed)
       = Some ("HTTP " +:+ pretty status +:+ ": " +:+ text))
  ∧ (∀ status text result,
       200 ≤ status ≤ 299 → Route.success result ≠ Some true →
       failureOf (Answer status text (inr result))
       = Some (orElse (Route.error result) "Chunk upload failed"))
  ∧ (∀ acks o1 o2 o3 rest m1 m2 m3,
       (length acks < Z.to_nat total)%nat →
       Forall (λ o, isAck o = true) acks →
       failureOf o1 = Some m1 → failureOf o2 = Some m2 → failureOf o3 = Some m3 →
       let k := length acks in
       let form := chunkForm chunkSize file uploadPath total (Z.of_nat k) in
       let log :=
         smoothLog chunkSize file uploadPath 0 k
         ++ [Sent form; Waited (1 * 1000); Sent form; Waited (2 * 1000); Sent form] in
       uploadLargeFile scripted c chunkSize file uploadPath
         (acks ++ o1 :: o2 :: o3 :: rest)
       = (rest, log,
          Thrown ("Chunk " +:+ pretty (Z.of_nat k + 1)
                  +:+ " failed after 3 attempts: " +:+ m3))
       ∧ sentForms log
         = planFrom chunkSize file uploadPath 0 k ++ [form; form; form])
  ∧ (∀ form index uploaded log o1 ok rest m1,
       failureOf o1 = Some m1 → isAck ok = true →
       sendChunk scripted (Z.to_nat maxRetries) (o1 :: ok :: rest) form index
         total uploaded log
       = (rest,
          log ++ [Sent form; Waited (1 * 1000); Sent form;
                  Progress (uploaded + 1) total],
          ChunkDone (uploaded + 1)))
  ∧ (∀ form index uploaded log o1 o2 ok rest m1 m2,
       failureOf o1 = Some m1 → failureOf o2 = Some m2 → isAck ok = true →
       sendChunk scripted (Z.to_nat maxRetries) (o1 :: o2 :: ok :: rest) form
         index total uploaded log
       = (rest,
          log ++ [Sent form; Waited (1 * 1000); Sent form; Waited (2 * 1000);
                  Sent form; Progress (uploaded + 1) total],
          ChunkDone (uploaded + 1))).
Proof.
  intros total.
  assert (Hfail : ∀ o m, failureOf o = Some m → attemptResult o = inl m).
  { unfold failureOf. intros o m H. destruct (attemptResult o); by simplify_eq. }
  split; [done|]. split; [|split; [|split; [|split]]].
  - intros status text parsed Hst. unfold failureOf, attemptResult, isOk.
    destruct ((200 <=? status) && (status <=? 299)) eqn:E; [lia|done].
  - intros status text result Hst Hno. unfold failureOf, attemptResult, isOk.
    destruct ((200 <=? status) && (status <=? 299)) eqn:E; [|lia]. simpl.
    destruct (Route.success result) as [[]|]; done.
  - intros acks o1 o2 o3 rest m1 m2 m3 Hk Hacks H1%Hfail H2%Hfail H3%Hfail k form log.
    split.
    + unfold uploadLargeFile. fold total.
      replace (Z.to_nat total) with (length acks + S (Z.to_nat total - S k))%nat
        by (unfold k; lia).
      unfold total. rewrite upload_smooth_prefix by done. fold total. fold k.
      cbn [sendChunks].
      rewrite (sendChunk_exhausted _ _ _ _ _ _ _ _ _ _ _ _ H1 H2 H3). done.
    + unfold log, sentForms. rewrite omap_app.
      fold (sentForms (smoothLog chunkSize file uploadPath 0 k)).
      by rewrite sentForms_smoothLog.
  - intros form index uploaded log o1 ok rest m1 H1%Hfail Hok.
    by apply (sendChunk_recovers_once _ _ _ _ _ _ _ _ m1).
  - intros form index uploaded log o1 o2 ok rest m1 m2 H1%Hfail H2%Hfail Hok.
    by apply (sendChunk_recovers_twice _ _ _ _ _ _ _ _ _ m1 m2).
Qed.

Lemma chunk_retry_policy_witness :
  uploadLargeFile scripted quietClient 2 (zeros "a.bin" 5) "/docs"
    ([ackOutcome 0 3]
     ++ NetworkError "Failed to fetch"
        :: Answer 502 "Bad Gateway" (inl "Unexpected token <")
        :: Answer 200 "OK" (inr (Route.json (Route.errorResponse 200 "disk full")))
        :: [ackOutcome 2 3])
  = ([ackOutcome 2 3],
     smoothLog 2 (zeros "a.bin" 5) "/docs" 0 1
     ++ [Sent (chunkForm 2 (zeros "a.bin" 5) "/docs" 3 1); Waited 1000;
         Sent (chunkForm 2 (zeros "a.bin" 5) "/docs" 3 1); Waited 2000;
         Sent (chunkForm 2 (zeros "a.bin" 5) "/docs" 3 1)],
     Thrown "Chunk 2 failed after 3 attempts: disk full").
Proof.
  destruct (chunk_retry_policy quietClient 2 (zeros "a.bin" 5) "/docs")
    as (_ & _ & _ & H & _).
  apply (H [ackOutcome 0 3] _ _ _ [ackOutcome 2 3]
           "Failed to fetch" "HTTP 502: Bad Gateway" "disk full");
    [vm_compute; lia|repeat constructor|reflexivity..].
Defined.

Lemma whole_file_names_witness :
  let file :=
    {| Route.f_name := "notes.txt"; Route.f_type := "text/plain";
       Route.f_bytes := [Byte.x68; Byte.x69] |} in
  let run :=
    Route.wholeUpload (calmEnv 1000) (λ _, calmEnv 1000) ∅ [file] "/docs" in
  ∃ rec,
    Route.files (Route.json run.2) = Some [rec]
    ∧ Route.r_name rec = "notes.txt"
    ∧ Route.r_originalName rec = "notes.txt"
    ∧ Route.r_path rec = "/docs/notes_1000_k3j9xq.txt"
    ∧ is_Some (run.1 !! Route.pathJoin (directoryOf "/docs")
                          "notes_1000_k3j9xq.txt")
    ∧ run.1 !! Route.pathJoin (directoryOf "/docs") "notes.txt" = None.
Proof.
  intros file run.
  destruct (whole_file_names (calmEnv 1000) (λ _, calmEnv 1000) ∅ run.1 [file]
              "/docs" run.2) as [(records & Hfiles & Hlen & Hper) [Hframe _]].
  - apply surjective_pairing.
  - reflexivity.
  - destruct (Hper 0%nat file eq_refl)
      as (rec & Hrec & Hname & Horig & Hpath & _ & _ & Hin & _ & Hshape & _).
    specialize (Hshape "notes" "txt" eq_refl eq_refl eq_refl ltac:(discriminate)).
    destruct records as [|rec' [|? ?]]; [discriminate Hlen| |discriminate Hlen].
    injection Hrec as ->. exists rec.
    split; [exact Hfiles|]. split; [exact Hname|]. split; [exact Horig|].
    split; [rewrite Hpath, Hshape; reflexivity|].
    split; [rewrite Hshape in Hin; exact Hin|].
    rewrite Hframe; [reflexivity|].
    intros [|[|?]] file' Hfile'; [|discriminate Hfile'..].
    injection Hfile' as <-. rewrite Hshape. discriminate.
Defined.

(** ** The uploader in front of the route *)

(** The route acknowledges each chunk of the planner at its first attempt:
    a real upload sends each chunk once, in order. *)
Example route_acknowledges_each_chunk :
  let file := zeros "a.bin" 1048577 in
  let run :=
    uploadOne (served (steadyNet 1714557600000 40)) quietClient 1048576 file
      "/docs" emptyWorld in
  (λ form, (Route.fd_chunkIndex form, Route.fd_totalChunks form,
            Z.of_nat (length (formBytes form))))
    <$> sentForms run.1.2
  = [(Some "0", Some "2", 1048576); (Some "1", Some "2", 1)]
  ∧ w_tick run.1.1 = 2%nat.
Proof. vm_compute. split; reflexivity. Qed.

(** A response that is lost makes the uploader send the chunk again, and the
    route, which keeps no record of what it has received, appends it twice
    when both requests fall in the millisecond of the first chunk. *)
Example lost_response_appends_twice :
  let net (i : nat) : exchange :=
    {| x_delivery := if Nat.eqb i 1 then ResponseLost else Delivered;
       x_env := calmEnv 1000;
       x_fileEnv := λ _, calmEnv 1000 |} in
  let form (k : Z) (chunk : Route.File) :=
    {| Route.fd_files := [chunk]; Route.fd_path := Some "/docs";
       Route.fd_chunkIndex := Some (pretty k);
       Route.fd_totalChunks := Some "3";
       Route.fd_fileName := Some "a.bin" |} in
  let w1 := (served net emptyWorld (form 0 (blob [Byte.x01; Byte.x02]))).1 in
  let w2 := (served net w1 (form 1 (blob [Byte.x03]))).1 in
  let w3 := (served net w2 (form 1 (blob [Byte.x03]))).1 in
  w_fs w3
  = {[ "/mnt/nas/storage//docs/temp_YS5iaW4_1000"
       := [Byte.x01; Byte.x02; Byte.x03; Byte.x03] ]}.
Proof. vm_compute. reflexivity. Qed.

(** * Further properties *)

(** ** Sanitized paths *)

Lemma removeDotDot_cons (c : ascii) (r : string) :
  Route.removeDotDot (String c r)
  = if Ascii.eqb c "." then
      match r with
      | String d r' =>
          if Ascii.eqb d "." then Route.removeDotDot r'
          else String c (Route.removeDotDot r)
      | "" => String c ""
      end
    else String c (Route.removeDotDot r).
Proof.
  destruct (Ascii.eqb_spec c ".") as [->|Hc].
  - destruct r as [|d r']; [done|].
    destruct (Ascii.eqb_spec d ".") as [->|Hd]; [done|].
    destruct d as [[] [] [] [] [] [] [] []]; try reflexivity. done.
  - destruct c as [[] [] [] [] [] [] [] []]; try reflexivity. done.
Qed.

Lemma contains_cons (sub : string) (c : ascii) (r : string) :
  contains sub (String c r) = startsWith sub (String c r) || contains sub r.
Proof. reflexivity. Qed.

Lemma startsWith_one (a b : ascii) (r : string) :
  startsWith (String a "") (String b r) = Ascii.eqb a b.
Proof. cbn [startsWith]. apply andb_true_r. Qed.

Lemma startsWith_two (a a' b : ascii) (r : string) :
  startsWith (String a (String a' "")) (String b r)
  = Ascii.eqb a b && startsWith (String a' "") r.
Proof. reflexivity. Qed.

Lemma removeDotDot_clean (n : nat) :
  ∀ s, (String.length s ≤ n)%nat → contains ".." (Route.removeDotDot s) = false.
Proof.
  induction n as [|n IH]; intros [|c r] Hlen; try done; [simpl in Hlen; lia|].
  simpl in Hlen. rewrite removeDotDot_cons.
  destruct (Ascii.eqb_spec c ".") as [->|Hc].
  - destruct r as [|d r']; [done|]. simpl in Hlen.
    destruct (Ascii.eqb_spec d ".") as [->|Hd]; [apply IH; lia|].
    rewrite contains_cons, (IH (String d r')) by (simpl; lia).
    rewrite orb_false_r, startsWith_two, removeDotDot_cons.
    destruct (Ascii.eqb_spec d ".") as [|_]; [done|].
    rewrite startsWith_one.
    by destruct (Ascii.eqb_spec "." d).
  - rewrite contains_cons, IH by lia. rewrite startsWith_two.
    by destruct (Ascii.eqb_spec "." c).
Qed.

Lemma contains_tail (sub : string) (c : ascii) (r : string) :
  contains sub (String c r) = false → contains sub r = false.
Proof. rewrite contains_cons. by intros [_ H]%orb_false_iff. Qed.

Lemma collapseSlashes_keeps_clean (s : string) :
  ∀ b, contains ".." s = false →
       contains ".." (Route.collapseSlashes b s) = false.
Proof.
  induction s as [|c r IH]; intros b Hs; [done|].
  pose proof (contains_tail _ _ _ Hs) as Hr.
  cbn [Route.collapseSlashes].
  destruct (Ascii.eqb_spec c "/") as [->|Hc].
  - destruct b; [by apply IH|].
    rewrite contains_cons, IH by done. done.
  - rewrite contains_cons, IH by done. rewrite orb_false_r.
    rewrite contains_cons in Hs. apply orb_false_iff in Hs as [Hs _].
    rewrite startsWith_two in *. revert Hs.
    destruct (Ascii.eqb_spec "." c) as [<-|_]; [|done].
    rewrite !andb_true_l.
    destruct r as [|d r']; [done|]. rewrite startsWith_one. intros Hs.
    cbn [Route.collapseSlashes].
    destruct (Ascii.eqb_spec d "/") as [->|_]; by rewrite startsWith_one.
Qed.

Lemma collapseSlashes_single (s : string) :
  ∀ b, contains "//" (Route.collapseSlashes b s) = false
       ∧ (b = true → startsWith "/" (Route.collapseSlashes b s) = false).
Proof.
  induction s as [|c r IH]; intros b; [done|].
  cbn [Route.collapseSlashes].
  destruct (Ascii.eqb_spec c "/") as [->|Hc].
  - destruct b; [apply IH|]. split; [|done].
    destruct (IH true) as [H1 H2]. rewrite contains_cons, H1, orb_false_r.
    specialize (H2 eq_refl). rewrite startsWith_two, H2. done.
  - destruct (IH false) as [H1 _]. split.
    + rewrite contains_cons, H1, orb_false_r, startsWith_two.
      by destruct (Ascii.eqb_spec "/" c).
    + intros _. rewrite startsWith_one. by destruct (Ascii.eqb_spec "/" c).
Qed.

Lemma removeDotDot_id (n : nat) :
  ∀ s, (String.length s ≤ n)%nat → contains ".." s = false →
       Route.removeDotDot s = s.
Proof.
  induction n as [|n IH]; intros [|c r] Hlen Hs; try done; [simpl in Hlen; lia|].
  simpl in Hlen. rewrite removeDotDot_cons.
  pose proof (contains_tail _ _ _ Hs) as Hr.
  rewrite contains_cons in Hs. apply orb_false_iff in Hs as [Hs _].
  rewrite (IH r) by (done || lia).
  destruct (Ascii.eqb_spec c ".") as [->|Hc]; [|done].
  destruct r as [|d r']; [done|].
  destruct (Ascii.eqb_spec d ".") as [->|Hd]; [|done].
  by rewrite startsWith_two, startsWith_one in Hs.
Qed.

Lemma collapseSlashes_id (s : string) :
  ∀ b, contains "//" s = false → (b = true → startsWith "/" s = false) →
       Route.collapseSlashes b s = s.
Proof.
  induction s as [|c r IH]; intros b Hs Hb; [done|].
  pose proof (contains_tail _ _ _ Hs) as Hr.
  rewrite contains_cons in Hs. apply orb_false_iff in Hs as [Hs _].
  cbn [Route.collapseSlashes].
  destruct (Ascii.eqb_spec c "/") as [->|Hc].
  - destruct b; [by specialize (Hb eq_refl)|].
    f_equal. apply IH; [done|]. intros _.
    destruct r; [done|]. rewrite startsWith_two in Hs. done.
  - f_equal. by apply IH.
Qed.

Lemma sanitize_fixed (p : string) :
  contains ".." p = false → contains "//" p = false → Route.sanitize p = p.
Proof.
  intros H1 H2. unfold Route.sanitize.
  rewrite (removeDotDot_id (String.length p)) by done.
  by apply collapseSlashes_id.
Qed.

Lemma sanitize_no_dotdot (p : string) : contains ".." (Route.sanitize p) = false.
Proof.
  unfold Route.sanitize. apply collapseSlashes_keeps_clean.
  by apply (removeDotDot_clean (String.length p)).
Qed.

Lemma sanitize_no_double_slash (p : string) :
  contains "//" (Route.sanitize p) = false.
Proof. unfold Route.sanitize. apply collapseSlashes_single. Qed.

(** X1.  Whatever path a request carries, the path the routes work with
    holds no ".." and no "//": removing every ".." leaves at most single
    points, and collapsing the slashes brings no two points together. *)
Theorem sanitize_removes_traversal (uploadPath : string) :
  contains ".." (Route.sanitize uploadPath) = false
  ∧ contains "//" (Route.sanitize uploadPath) = false.
Proof. split; [apply sanitize_no_dotdot|apply sanitize_no_double_slash]. Qed.

(** X2.  Sanitizing a path twice is sanitizing it once; a path without ".."
    and "//" is left as it is. *)
Theorem sanitize_idempotent (uploadPath : string) :
  Route.sanitize (Route.sanitize uploadPath) = Route.sanitize uploadPath
  ∧ (contains ".." uploadPath = false → contains "//" uploadPath = false →
     Route.sanitize uploadPath = uploadPath).
Proof.
  split; [|apply sanitize_fixed].
  apply sanitize_fixed; [apply sanitize_no_dotdot|apply sanitize_no_double_slash].
Qed.

Lemma sanitize_idempotent_witness :
  Route.sanitize "/shared/team" = "/shared/team".
Proof.
  destruct (sanitize_idempotent "/shared/team") as [_ H].
  apply H; reflexivity.
Defined.

(** ** Reading back a printed number *)

Lemma pretty_N_char_value (d : N) :
  (d < 10)%N → Js.digitValue (pretty_N_char d) = d.
Proof.
  intros Hd.
  assert (d = 0 ∨ d = 1 ∨ d = 2 ∨ d = 3 ∨ d = 4 ∨ d = 5 ∨ d = 6 ∨ d = 7
          ∨ d = 8 ∨ d = 9)%N as H by lia.
  destruct H as [->|[->|[->|[->|[->|[->|[->|[->|[->| ->]]]]]]]]]; reflexivity.
Qed.

Lemma pretty_N_go_app (x : N) (s : string) :
  pretty_N_go x s = pretty_N_go x "" +:+ s.
Proof.
  revert s. induction (N.lt_wf_0 x) as [x _ IH]; intros s.
  destruct (decide (x = 0%N)) as [->|Hx]; [done|].
  rewrite !(pretty_N_go_step x) by lia.
  rewrite (IH (x `div` 10)%N) by (apply N.div_lt; lia).
  rewrite (IH (x `div` 10)%N ltac:(apply N.div_lt; lia) (String _ "")).
  by rewrite str_app_assoc.
Qed.

Lemma digitsValue_pretty_go (x : N) : Js.digitsValue (pretty_N_go x "") = x.
Proof.
  induction (N.lt_wf_0 x) as [x _ IH].
  destruct (decide (x = 0%N)) as [->|Hx]; [done|].
  rewrite pretty_N_go_step, pretty_N_go_app by lia.
  unfold Js.digitsValue in *. rewrite digitsValueFrom_app.
  rewrite IH by (apply N.div_lt; lia). simpl.
  rewrite pretty_N_char_value by (apply N.mod_lt; lia).
  pose proof (N.div_mod x 10). lia.
Qed.

Lemma digitsValue_pretty (x : N) : Js.digitsValue (pretty x) = x.
Proof.
  unfold pretty, pretty_N. case_decide as Hx; [by subst|].
  apply digitsValue_pretty_go.
Qed.

Lemma digits_not_blank (s : string) :
  Js.allb Js.isDigit s = true → Js.trimStart s = s.
Proof.
  destruct s as [|c r]; [done|]. simpl. intros [Hc _]%andb_true_iff.
  destruct (Js.isWhiteSpace c) eqn:E; [|done].
  exfalso. destruct c as [[] [] [] [] [] [] [] []]; discriminate.
Qed.

(** [parseInt] of a string of decimal digits. *)
Lemma parseInt_digits (s : string) :
  s ≠ "" → Js.allb Js.isDigit s = true →
  Js.parseInt s = Js.Num (Z.of_N (Js.digitsValue s))
  ∧ Js.parseInt (String "-" s) = Js.Num (- Z.of_N (Js.digitsValue s)).
Proof.
  intros Hne Hs.
  assert (Hspan : Js.span Js.isDigit s = (s, "")).
  { rewrite <-(str_app_empty_r s) at 1. by apply span_app. }
  assert (Heq : String.eqb s "" = false) by (by apply String.eqb_neq).
  assert (Hdec : ∀ sign,
    match s with
    | String "0" (String "x" r) =>
        let '(ds, _) := Js.span Js.isHexDigit r in
        if String.eqb ds "" then Js.NaN
        else Js.Num (sign * Z.of_N (Js.hexValueFrom 0 ds))
    | String "0" (String "X" r) =>
        let '(ds, _) := Js.span Js.isHexDigit r in
        if String.eqb ds "" then Js.NaN
        else Js.Num (sign * Z.of_N (Js.hexValueFrom 0 ds))
    | _ =>
        let '(ds, _) := Js.span Js.isDigit s in
        if String.eqb ds "" then Js.NaN
        else Js.Num (sign * Z.of_N (Js.digitsValue ds))
    end = Js.Num (sign * Z.of_N (Js.digitsValue s))).
  { intros sign. rewrite Hspan, Heq.
    destruct s as [|a [|b r]]; [done| |].
    - destruct a as [[] [] [] [] [] [] [] []]; reflexivity.
    - assert (Hb : Js.isDigit b = true).
      { simpl in Hs. by apply andb_true_iff in Hs as [_ [? _]%andb_true_iff]. }
      destruct (Ascii.eqb_spec a "0") as [->|Ha].
      + destruct b as [[] [] [] [] [] [] [] []]; try reflexivity;
          discriminate Hb.
      + destruct a as [[] [] [] [] [] [] [] []]; try reflexivity. done. }
  split.
  - unfold Js.parseInt. rewrite (digits_not_blank s Hs).
    assert (Hsign : match s with
                    | String "-" r => (-1, r)
                    | String "+" r => (1, r)
                    | _ => (1, s)
                    end = (1, s)).
    { destruct s as [|a r]; [done|].
      assert (Ha : Js.isDigit a = true).
      { simpl in Hs. by apply andb_true_iff in Hs as [? _]. }
      destruct a as [[] [] [] [] [] [] [] []]; try reflexivity; discriminate Ha. }
    rewrite Hsign. rewrite (Hdec 1). f_equal; lia.
  - unfold Js.parseInt. cbn [Js.trimStart].
    change (Js.isWhiteSpace "-") with false. cbv iota.
    rewrite (Hdec (-1)). f_equal; lia.
Qed.

(** [parseInt] reads back the decimal text of every integer. *)
Lemma parseInt_pretty (z : Z) : Js.parseInt (pretty z) = Js.Num z.
Proof.
  destruct z as [|p|p].
  - reflexivity.
  - change (pretty (Z.pos p)) with (pretty (N.pos p)).
    destruct (parseInt_digits (pretty (N.pos p))) as [-> _];
      [apply pretty_N_nonempty|apply pretty_N_digits|].
    by rewrite digitsValue_pretty.
  - change (pretty (Z.neg p)) with (String "-" (pretty (N.pos p))).
    destruct (parseInt_digits (pretty (N.pos p))) as [_ ->];
      [apply pretty_N_nonempty|apply pretty_N_digits|].
    by rewrite digitsValue_pretty.
Qed.

(** X3.  The route hands to the chunk handler the very chunk the uploader
    cut: the index and the count it printed, the name of the file, the bytes
    of the slice, and the destination (the root when the destination is
    empty). *)
Theorem chunk_form_reaches_handler (e : Route.env) (fe : nat → Route.env)
    (fs : gmap string (list Byte.byte)) (chunkSize : Z) (file : Route.File)
    (uploadPath : string) (totalChunks chunkIndex : Z) :
  Route.POST e fe fs (chunkForm chunkSize file uploadPath totalChunks chunkIndex)
  = Route.handleChunkedUpload e fs
      (blob (slice (Route.f_bytes file) (chunkIndex * chunkSize)
               (Z.min (chunkIndex * chunkSize + chunkSize) (Route.f_size file))))
      (effectivePath uploadPath) (Js.Num chunkIndex) (Js.Num totalChunks)
      (Route.f_name file).
Proof.
  unfold Route.POST, chunkForm. cbn [Route.fd_files Route.fd_path
    Route.fd_chunkIndex Route.fd_totalChunks Route.fd_fileName].
  by rewrite !parseInt_pretty.
Qed.

(** ** Chunks that meet their temp file *)

Lemma trim_nonempty (s : string) : Js.trim s ≠ "" → s ≠ "".
Proof. by intros H ->. Qed.

(** A chunk before the last one, when nothing fails. *)
Lemma chunk_step_middle (e : Route.env) (fs : gmap string (list Byte.byte))
    (chunk : Route.File) (uploadPath : string) (k n : Z) (fileName : string) :
  allSucceed e = true → Js.trim fileName ≠ "" → 0 ≤ k < n - 1 →
  let temp :=
    Route.pathJoin (directoryOf uploadPath)
      (Route.tempFileName fileName (Route.now e)) in
  Route.handleChunkedUpload e fs chunk uploadPath (Js.Num k) (Js.Num n) fileName
  = (<[temp := (if k =? 0 then [] else default [] (fs !! temp))
               ++ Route.f_bytes chunk]> fs,
     Route.chunkReceived (Js.Num k) (Js.Num n)).
Proof.
  intros Hio Hname Hk temp. unfold allSucceed in Hio.
  apply andb_true_iff in Hio as [Hio _].
  apply andb_true_iff in Hio as [Hio _].
  apply andb_true_iff in Hio as [Hio Happend].
  apply andb_true_iff in Hio as [Hio Hwrite].
  unfold Route.handleChunkedUpload. cbn [Js.lt Js.ge Js.le Js.sub Js.strictEq].
  destruct (k <? 0) eqn:E1; [lia|]. destruct (n <=? k) eqn:E2; [lia|].
  destruct (n <=? 0) eqn:E3; [lia|]. cbn [orb].
  apply trim_nonempty in Hname as Hne.
  apply String.eqb_neq in Hname, Hne. rewrite Hname, Hne. cbn [orb].
  rewrite Hio. cbn [negb]. fold (directoryOf uploadPath). fold temp.
  destruct (k =? n - 1) eqn:E4; [lia|].
  unfold Route.writeFile, Route.appendFile.
  rewrite Hwrite, Happend. by destruct (k =? 0).
Qed.

(** The last chunk, when nothing fails. *)
Lemma chunk_step_last (e : Route.env) (fs : gmap string (list Byte.byte))
    (chunk : Route.File) (uploadPath : string) (k n : Z) (fileName : string) :
  allSucceed e = true → Js.trim fileName ≠ "" → 0 ≤ k → k = n - 1 →
  let dir := directoryOf uploadPath in
  let temp := Route.pathJoin dir (Route.tempFileName fileName (Route.now e)) in
  let data :=
    (if k =? 0 then [] else default [] (fs !! temp)) ++ Route.f_bytes chunk in
  let name := Route.uniqueFileName (<[temp := data]> fs) dir fileName in
  Route.handleChunkedUpload e fs chunk uploadPath (Js.Num k) (Js.Num n) fileName
  = (<[Route.pathJoin dir name := data]> (delete temp fs),
     Route.chunkedCompleted
       (Route.chunkedRecord e chunk (Route.sanitize uploadPath) name fileName
          (Z.of_nat (length data)))
       (Route.sanitize uploadPath)).
Proof.
  intros Hio Hname Hk Hlast dir temp data name. unfold allSucceed in Hio.
  apply andb_true_iff in Hio as [Hio Hstat].
  apply andb_true_iff in Hio as [Hio Hrename].
  apply andb_true_iff in Hio as [Hio Happend].
  apply andb_true_iff in Hio as [Hmkdir Hwrite].
  unfold Route.handleChunkedUpload. cbn [Js.lt Js.ge Js.le Js.sub Js.strictEq].
  destruct (k <? 0) eqn:E1; [lia|]. destruct (n <=? k) eqn:E2; [lia|].
  destruct (n <=? 0) eqn:E3; [lia|]. cbn [orb].
  apply trim_nonempty in Hname as Hne.
  apply String.eqb_neq in Hname, Hne. rewrite Hname, Hne. cbn [orb].
  rewrite Hmkdir. cbn [negb]. fold (directoryOf uploadPath). fold dir. fold temp.
  destruct (k =? n - 1) eqn:E4; [|lia].
  assert (Hw : (if k =? 0
                then Route.writeFile (Route.writeOk e) fs temp (Route.f_bytes chunk)
                else Route.appendFile (Route.appendOk e) fs temp (Route.f_bytes chunk))
               = Some (<[temp := data]> fs)).
  { unfold Route.writeFile, Route.appendFile, data. rewrite Hwrite, Happend.
    by destruct (k =? 0). }
  rewrite Hw. unfold Route.finalize. fold name.
  pose proof (uniqueFileName_free (<[temp := data]> fs) dir fileName) as Hfree.
  fold name in Hfree.
  assert (Hne' : temp ≠ Route.pathJoin dir name).
  { intros E. rewrite <-E, lookup_insert_eq in Hfree. done. }
  unfold Route.rename, Route.stat. rewrite Hrename, Hstat.
  rewrite lookup_insert_eq. rewrite lookup_insert_eq. cbn [fmap option_fmap option_map].
  f_equal. f_equal. apply map_eq. intros p.
  destruct (decide (p = temp)) as [->|Hp].
  - by rewrite !lookup_delete_eq.
  - by rewrite !lookup_delete_ne, lookup_insert_ne.
Qed.

Lemma serveAll_joined (uploadPath fileName : string) (t : N)
    (fs : gmap string (list Byte.byte)) (total : nat) :
  Js.trim fileName ≠ "" →
  let dir := directoryOf uploadPath in
  let temp := Route.pathJoin dir (Route.tempFileName fileName t) in
  ∀ (parts : list (Route.env * list Byte.byte)) (k : nat) (acc : list Byte.byte),
  parts ≠ [] → (k + length parts = total)%nat →
  Forall (λ p, Route.now p.1 = t ∧ allSucceed p.1 = true) parts →
  (k = 0%nat → acc = []) →
  let fsk := if decide (k = 0%nat) then fs else <[temp := acc]> fs in
  let data := acc ++ concat (snd <$> parts) in
  let name := Route.uniqueFileName (<[temp := data]> fs) dir fileName in
  let run := serveAll uploadPath fileName (chunkRequests k total parts) fsk in
  run.1 = <[Route.pathJoin dir name := data]> (delete temp fs)
  ∧ Forall (λ r, Route.status r = 200
                 ∧ Route.success (Route.json r) = Some true) run.2
  ∧ recordNames <$> run.2 = replicate (length parts - 1) [] ++ [[name]]
  ∧ recordSizes <$> run.2
    = replicate (length parts - 1) [] ++ [[Z.of_nat (length data)]].
Proof.
  intros Hname dir temp parts.
  induction parts as [|[e d] rest IH]; intros k acc Hne Hlen Hall Hacc;
    [done|].
  apply Forall_cons in Hall as [[Hnow Hio] Hall]. simpl in Hnow, Hio.
  assert (Hdata : (if Z.of_nat k =? 0 then []
                   else default [] ((if decide (k = 0%nat) then fs
                                     else <[temp := acc]> fs) !! temp))
                  ++ d = acc ++ d).
  { destruct (decide (k = 0%nat)) as [->|Hk].
    - by rewrite (Hacc eq_refl).
    - destruct (Z.of_nat k =? 0) eqn:E; [lia|]. by rewrite lookup_insert_eq. }
  assert (Hins : ∀ x, <[temp := x]> (if decide (k = 0%nat) then fs
                                     else <[temp := acc]> fs)
                      = <[temp := x]> fs).
  { intros x. destruct (decide (k = 0%nat)); [done|]. apply insert_insert_eq. }
  assert (Hdel : delete temp (if decide (k = 0%nat) then fs
                              else <[temp := acc]> fs) = delete temp fs).
  { destruct (decide (k = 0%nat)); [done|]. apply delete_insert_eq. }
  destruct rest as [|p rest].
  - (* the last chunk *)
    intros fsk data name run. subst run fsk.
    cbn [chunkRequests serveAll length concat fmap list_fmap snd] in *.
    pose proof (chunk_step_last e
                  (if decide (k = 0%nat) then fs else <[temp := acc]> fs)
                  (blob d) uploadPath (Z.of_nat k) (Z.of_nat total) fileName
                  Hio Hname ltac:(lia) ltac:(lia)) as Hstep.
    cbv zeta in Hstep. rewrite Hnow in Hstep. fold dir in Hstep.
    fold temp in Hstep. cbn [blob Route.f_bytes] in Hstep.
    rewrite Hdata, Hins, Hdel in Hstep. rewrite Hstep.
    subst data name. rewrite app_nil_r. cbn [fst snd].
    split; [done|]. split; [by repeat constructor|]. done.
  - (* a chunk before the last *)
    intros fsk data name run. subst run fsk.
    assert (Hmore : p :: rest ≠ []) by done.
    assert (Hlen' : (2 ≤ length ((e, d) :: p :: rest))%nat) by (simpl; lia).
    remember (p :: rest) as more eqn:Emore. clear Emore p rest.
    cbn [chunkRequests serveAll].
    pose proof (chunk_step_middle e
                  (if decide (k = 0%nat) then fs else <[temp := acc]> fs)
                  (blob d) uploadPath (Z.of_nat k) (Z.of_nat total) fileName
                  Hio Hname ltac:(simpl in Hlen, Hlen'; lia)) as Hstep.
    cbv zeta in Hstep. rewrite Hnow in Hstep. fold dir in Hstep.
    fold temp in Hstep. cbn [blob Route.f_bytes] in Hstep.
    rewrite Hdata, Hins in Hstep. rewrite Hstep.
    specialize (IH (S k) (acc ++ d) Hmore ltac:(simpl in *; lia) Hall
                  ltac:(done)).
    cbv zeta in IH. destruct (decide (S k = 0%nat)) as [|_]; [done|].
    destruct (serveAll uploadPath fileName (chunkRequests (S k) total more)
                (<[temp := acc ++ d]> fs)) as [fs2 resps] eqn:Hrest.
    cbn [fst snd] in *.
    assert (Hcat : (acc ++ d) ++ concat more.*2
                   = acc ++ concat (((e, d) :: more).*2)).
    { cbn [fmap list_fmap concat snd]. by rewrite <-(assoc_L (++)). }
    subst data name. rewrite <-Hcat.
    destruct IH as (Hfs & Hok & Hnames & Hsizes).
    split; [done|]. split; [by constructor|].
    rewrite !fmap_cons, Hnames, Hsizes.
    replace (length ((e, d) :: more) - 1)%nat with (S (length more - 1))
      by (simpl in *; lia).
    done.
Qed.

(** X4.  The chunks of one upload, served in index order within one
    millisecond and without a failing file-system call, are put end to end:
    the final file holds their concatenation under the collision-free name,
    the temp file is gone, no other file is touched, every request is
    answered 200, and the record of the last response carries that name and
    the total length. *)
Theorem chunks_of_one_millisecond_are_joined (uploadPath fileName : string)
    (t : N) (parts : list (Route.env * list Byte.byte))
    (fs : gmap string (list Byte.byte)) :
  parts ≠ [] → Js.trim fileName ≠ "" →
  Forall (λ p, Route.now p.1 = t ∧ allSucceed p.1 = true) parts →
  let dir := directoryOf uploadPath in
  let temp := Route.pathJoin dir (Route.tempFileName fileName t) in
  let data := concat (snd <$> parts) in
  let name := Route.uniqueFileName (<[temp := data]> fs) dir fileName in
  let run :=
    serveAll uploadPath fileName (chunkRequests 0 (length parts) parts) fs in
  run.1 = <[Route.pathJoin dir name := data]> (delete temp fs)
  ∧ run.1 !! Route.pathJoin dir name = Some data
  ∧ run.1 !! temp = None
  ∧ Forall (λ r, Route.status r = 200
                 ∧ Route.success (Route.json r) = Some true) run.2
  ∧ recordNames <$> run.2 = replicate (length parts - 1) [] ++ [[name]]
  ∧ recordSizes <$> run.2
    = replicate (length parts - 1) [] ++ [[Z.of_nat (length data)]].
Proof.
  intros Hne Hname Hall dir temp data name run.
  pose proof (serveAll_joined uploadPath fileName t fs (length parts) Hname
                parts 0%nat [] Hne eq_refl Hall (λ _, eq_refl)) as H.
  cbv zeta in H. cbn [decide] in H.
  destruct (decide (0%nat = 0%nat)) as [_|]; [|done].
  rewrite app_nil_l in H. fold dir temp data name run in H.
  destruct H as (Hfs & Hok & Hnames & Hsizes).
  pose proof (uniqueFileName_free (<[temp := data]> fs) dir fileName) as Hfree.
  fold name in Hfree.
  assert (Hne' : Route.pathJoin dir name ≠ temp).
  { intros E. rewrite E, lookup_insert_eq in Hfree. done. }
  split; [done|]. rewrite Hfs.
  split; [by rewrite lookup_insert_eq|].
  split; [by rewrite lookup_insert_ne, lookup_delete_eq|]. done.
Qed.

Lemma chunks_of_one_millisecond_are_joined_witness :
  let parts :=
    [ (calmEnv 1000, [Byte.x01; Byte.x02]); (calmEnv 1000, [Byte.x03]);
      (calmEnv 1000, [Byte.x04; Byte.x05]) ] in
  let run := serveAll "/docs" "a.bin" (chunkRequests 0 3 parts) ∅ in
  run.1 !! "/mnt/nas/storage//docs/a.bin"
  = Some [Byte.x01; Byte.x02; Byte.x03; Byte.x04; Byte.x05]
  ∧ recordSizes <$> run.2 = [[]; []; [5]].
Proof.
  intros parts run.
  destruct (chunks_of_one_millisecond_are_joined "/docs" "a.bin" 1000 parts ∅)
    as (_ & Hfile & _ & _ & _ & Hsizes).
  - done.
  - vm_compute. discriminate.
  - repeat constructor.
  - split; [exact Hfile|exact Hsizes].
Defined.

(** ** The uploader in front of the route, within one millisecond *)

Section AnyTransport.

Context {World : Type}.
Variable send : World → Route.formData → World * outcome.

(** An attempt that succeeds ends the loop of its chunk, whatever the
    transport. *)
Lemma sendChunk_first_try (left : nat) (w w1 : World) (o : outcome)
    (form : Route.formData) (chunkIndex totalChunks uploadedChunks : Z)
    (log : list event) (result : Route.body) :
  send w form = (w1, o) → attemptResult o = inr result →
  sendChunk send (S left) w form chunkIndex totalChunks uploadedChunks log
  = (w1, log ++ [Sent form; Progress (uploadedChunks + 1) totalChunks],
     match completedFile result with
     | Some rec => UploadDone rec
     | None => ChunkDone (uploadedChunks + 1)
     end).
Proof.
  intros Hsend H. cbn [sendChunk]. rewrite Hsend, H.
  rewrite <-(assoc_L (++)). by destruct (completedFile result).
Qed.

End AnyTransport.

Lemma served_delivered (net : nat → exchange) (w : world)
    (form : Route.formData) :
  x_delivery (net (w_tick w)) = Delivered →
  served net w form
  = let run := Route.POST (x_env (net (w_tick w))) (x_fileEnv (net (w_tick w)))
                 (w_fs w) form in
    ({| w_fs := run.1; w_tick := S (w_tick w) |},
     Answer (Route.status run.2) (statusTextOf (Route.status run.2))
       (inr (Route.json run.2))).
Proof.
  intros H. unfold served. rewrite H.
  by destruct (Route.POST _ _ _ _) as [fs1 resp].
Qed.

Lemma take_slice (data : list Byte.byte) (k : nat) (chunkSize : Z) :
  0 < chunkSize →
  take (k * Z.to_nat chunkSize) data
  ++ slice data (Z.of_nat k * chunkSize)
       (Z.min (Z.of_nat k * chunkSize + chunkSize) (Z.of_nat (length data)))
  = take (S k * Z.to_nat chunkSize) data.
Proof.
  intros HC. rewrite slice_take_drop by done. rewrite take_take_drop.
  f_equal. lia.
Qed.

Lemma sendChunks_same_millisecond (net : nat → exchange) (t : N) (c : clientEnv)
    (chunkSize : Z) (file : Route.File) (uploadPath : string)
    (fs : gmap string (list Byte.byte)) (tick : nat) :
  sameMillisecond net t → 0 < chunkSize → Js.trim (Route.f_name file) ≠ "" →
  let dir := directoryOf (effectivePath uploadPath) in
  let temp := Route.pathJoin dir (Route.tempFileName (Route.f_name file) t) in
  let name :=
    Route.uniqueFileName (<[temp := Route.f_bytes file]> fs) dir
      (Route.f_name file) in
  let total := ceilDiv (Route.f_size file) chunkSize in
  ∀ (remaining k : nat) (log : list event),
  (1 ≤ remaining)%nat → Z.of_nat (k + remaining) = total →
  let acc := take (k * Z.to_nat chunkSize) (Route.f_bytes file) in
  let fsk := if decide (k = 0%nat) then fs else <[temp := acc]> fs in
  ∃ rec,
    sendChunks (served net) remaining c chunkSize file uploadPath
      {| w_fs := fsk; w_tick := (tick + k)%nat |} (Z.of_nat k) total
      (Z.of_nat k) log
    = ({| w_fs := <[Route.pathJoin dir name := Route.f_bytes file]>
                    (delete temp fs);
          w_tick := (tick + k + remaining)%nat |},
       log ++ smoothLog chunkSize file uploadPath k remaining,
       Resolved rec)
    ∧ Route.r_name rec = name
    ∧ Route.r_originalName rec = Route.f_name file
    ∧ Route.r_size rec = Route.f_size file.
Proof.
  intros Hnet HC Hname dir temp name total.
  assert (Hsize : 0 ≤ Route.f_size file) by (unfold Route.f_size; lia).
  destruct (ceilDiv_bounds (Route.f_size file) chunkSize HC Hsize)
    as (_ & Hup & _). fold total in Hup.
  induction remaining as [|remaining IH]; intros k log Hrem Hk acc fsk; [lia|].
  destruct (Hnet (tick + k)%nat) as (Hdel & Hnow & Hio).
  set (form := chunkForm chunkSize file uploadPath total (Z.of_nat k)).
  set (w := {| w_fs := fsk; w_tick := (tick + k)%nat |}).
  assert (Hpost : Route.POST (x_env (net (tick + k)%nat))
                    (x_fileEnv (net (tick + k)%nat)) fsk form
                  = Route.handleChunkedUpload (x_env (net (tick + k)%nat)) fsk
                      (blob (slice (Route.f_bytes file) (Z.of_nat k * chunkSize)
                               (Z.min (Z.of_nat k * chunkSize + chunkSize)
                                  (Route.f_size file))))
                      (effectivePath uploadPath) (Js.Num (Z.of_nat k))
                      (Js.Num total) (Route.f_name file)).
  { unfold Route.POST, form, chunkForm.
    cbn [Route.fd_files Route.fd_path Route.fd_chunkIndex Route.fd_totalChunks
         Route.fd_fileName].
    by rewrite !parseInt_pretty. }
  assert (Hdata : (if Z.of_nat k =? 0 then [] else default [] (fsk !! temp))
                  ++ slice (Route.f_bytes file) (Z.of_nat k * chunkSize)
                       (Z.min (Z.of_nat k * chunkSize + chunkSize)
                          (Route.f_size file))
                  = take (S k * Z.to_nat chunkSize) (Route.f_bytes file)).
  { rewrite <-take_slice by done. f_equal. unfold fsk, acc.
    destruct (decide (k = 0%nat)) as [->|Hk0]; [done|].
    destruct (Z.of_nat k =? 0) eqn:E; [lia|]. by rewrite lookup_insert_eq. }
  assert (Hins : ∀ x, <[temp := x]> fsk = <[temp := x]> fs).
  { intros x. unfold fsk. destruct (decide (k = 0%nat)); [done|].
    apply insert_insert_eq. }
  assert (Hdelete : delete temp fsk = delete temp fs).
  { unfold fsk. destruct (decide (k = 0%nat)); [done|]. apply delete_insert_eq. }
  cbn [sendChunks]. fold form. change (Z.to_nat maxRetries) with 3%nat.
  destruct remaining as [|remaining].
  - (* the last chunk *)
    pose proof (chunk_step_last (x_env (net (tick + k)%nat)) fsk
                  (blob (slice (Route.f_bytes file) (Z.of_nat k * chunkSize)
                           (Z.min (Z.of_nat k * chunkSize + chunkSize)
                              (Route.f_size file))))
                  (effectivePath uploadPath) (Z.of_nat k) total
                  (Route.f_name file) Hio Hname ltac:(lia) ltac:(lia)) as Hstep.
    cbv zeta in Hstep. rewrite Hnow in Hstep. fold dir in Hstep.
    fold temp in Hstep. cbn [blob Route.f_bytes] in Hstep.
    rewrite Hdata, Hins, Hdelete in Hstep.
    assert (Hall : take (S k * Z.to_nat chunkSize) (Route.f_bytes file)
                   = Route.f_bytes file).
    { apply take_ge. unfold Route.f_size in *. nia. }
    rewrite Hall in Hstep. fold name in Hstep.
    set (rec := Route.chunkedRecord _ _ _ _ _ _) in Hstep.
    exists rec.
    rewrite (sendChunk_first_try (served net) _ w
               {| w_fs := <[Route.pathJoin dir name := Route.f_bytes file]>
                            (delete temp fs);
                  w_tick := S (tick + k) |}
               (Answer 200 "OK"
                  (inr (Route.json
                          (Route.chunkedCompleted rec
                             (Route.sanitize (effectivePath uploadPath))))))
               _ _ _ _ _
               (Route.json (Route.chunkedCompleted rec
                              (Route.sanitize (effectivePath uploadPath))))).
    + cbn [completedFile Route.chunkedCompleted Route.json Route.completed
           Route.files].
      split; [|done].
      replace (tick + k + 1)%nat with (S (tick + k)) by lia.
      unfold smoothLog. cbn [seq fmap list_fmap concat app].
      fold total. fold form. done.
    + rewrite served_delivered by done. cbn [w_fs w_tick w].
      rewrite Hpost, Hstep. reflexivity.
    + reflexivity.
  - (* a chunk before the last *)
    pose proof (chunk_step_middle (x_env (net (tick + k)%nat)) fsk
                  (blob (slice (Route.f_bytes file) (Z.of_nat k * chunkSize)
                           (Z.min (Z.of_nat k * chunkSize + chunkSize)
                              (Route.f_size file))))
                  (effectivePath uploadPath) (Z.of_nat k) total
                  (Route.f_name file) Hio Hname ltac:(lia)) as Hstep.
    cbv zeta in Hstep. rewrite Hnow in Hstep. fold dir in Hstep.
    fold temp in Hstep. cbn [blob Route.f_bytes] in Hstep.
    rewrite Hdata, Hins in Hstep.
    rewrite (sendChunk_first_try (served net) _ w
               {| w_fs := <[temp := take (S k * Z.to_nat chunkSize)
                                       (Route.f_bytes file)]> fs;
                  w_tick := S (tick + k) |}
               (Answer 200 "OK"
                  (inr (Route.json
                          (Route.chunkReceived (Js.Num (Z.of_nat k))
                             (Js.Num total)))))
               _ _ _ _ _
               (Route.json (Route.chunkReceived (Js.Num (Z.of_nat k))
                              (Js.Num total)))).
    + cbn [completedFile Route.chunkReceived Route.json Route.completed].
      destruct (IH (S k)
                  (log ++ [Sent form; Progress (Z.of_nat (S k)) total])
                  ltac:(lia) ltac:(lia)) as (rec & Hrun & Hrec).
      exists rec. split; [|done].
      destruct (decide (S k = 0%nat)) as [|_]; [done|].
      replace (Z.of_nat k + 1) with (Z.of_nat (S k)) by lia.
      replace (S (tick + k)) with (tick + S k)%nat by lia.
      rewrite Hrun. f_equal. f_equal.
      * f_equal. lia.
      * rewrite <-(assoc_L (++)). f_equal. unfold smoothLog.
        cbn [seq fmap list_fmap concat app]. fold total. fold form.
        by replace (Z.of_nat k + 1) with (Z.of_nat (S k)) by lia.
    + rewrite served_delivered by done. cbn [w_fs w_tick w].
      rewrite Hpost, Hstep. reflexivity.
    + reflexivity.
Qed.

(** X5.  A file larger than the chunk size, sent by the uploader to the
    route over a network that delivers every request within one millisecond
    and to a server whose file-system calls succeed, arrives intact: the
    final file holds the bytes of the file under the collision-free name, no
    temp file is left and no other file is touched; the chunks go out once
    each, in order; the uploader resolves with the record of the route, which
    carries that name and the size of the file. *)
Theorem large_file_arrives_intact (net : nat → exchange) (t : N)
    (c : clientEnv) (chunkSize : Z) (file : Route.File) (uploadPath : string)
    (fs : gmap string (list Byte.byte)) (tick : nat) :
  sameMillisecond net t → 0 < chunkSize → chunkSize < Route.f_size file →
  Js.trim (Route.f_name file) ≠ "" →
  let dir := directoryOf (effectivePath uploadPath) in
  let temp := Route.pathJoin dir (Route.tempFileName (Route.f_name file) t) in
  let name :=
    Route.uniqueFileName (<[temp := Route.f_bytes file]> fs) dir
      (Route.f_name file) in
  let total := ceilDiv (Route.f_size file) chunkSize in
  let run :=
    uploadOne (served net) c chunkSize file uploadPath
      {| w_fs := fs; w_tick := tick |} in
  w_fs run.1.1
  = <[Route.pathJoin dir name := Route.f_bytes file]> (delete temp fs)
  ∧ w_fs run.1.1 !! Route.pathJoin dir name = Some (Route.f_bytes file)
  ∧ w_fs run.1.1 !! temp = None
  ∧ sentForms run.1.2 = planFrom chunkSize file uploadPath 0 (Z.to_nat total)
  ∧ ∃ rec, run.2 = Resolved rec
           ∧ Route.r_name rec = name
           ∧ Route.r_originalName rec = Route.f_name file
           ∧ Route.r_size rec = Route.f_size file.
Proof.
  intros Hnet HC Hlarge Hname dir temp name total run.
  pose proof (ceilDiv_large _ _ HC Hlarge) as Htwo. fold total in Htwo.
  destruct (sendChunks_same_millisecond net t c chunkSize file uploadPath fs
              tick Hnet HC Hname (Z.to_nat total) 0%nat [] ltac:(lia)
              ltac:(lia)) as (rec & Hrun & Hrec).
  cbv zeta in Hrun. fold dir temp name total in Hrun.
  destruct (decide (0%nat = 0%nat)) as [_|]; [|done].
  assert (Hone : run
                 = ({| w_fs := <[Route.pathJoin dir name := Route.f_bytes file]>
                                 (delete temp fs);
                       w_tick := (tick + 0 + Z.to_nat total)%nat |},
                    smoothLog chunkSize file uploadPath 0 (Z.to_nat total),
                    Resolved rec)).
  { unfold run, uploadOne. destruct (chunkSize <? Route.f_size file) eqn:E; [|lia].
    unfold uploadLargeFile. fold total.
    replace (tick + 0)%nat with tick in Hrun by lia.
    change (Z.of_nat 0) with 0 in Hrun. rewrite Hrun.
    by replace (tick + 0)%nat with tick by lia. }
  rewrite Hone. cbn [fst snd w_fs].
  pose proof (uniqueFileName_free (<[temp := Route.f_bytes file]> fs) dir
                (Route.f_name file)) as Hfree. fold name in Hfree.
  assert (Hne : Route.pathJoin dir name ≠ temp).
  { intros E. rewrite E, lookup_insert_eq in Hfree. done. }
  split; [done|]. split; [by rewrite lookup_insert_eq|].
  split; [by rewrite lookup_insert_ne, lookup_delete_eq|].
  split; [apply sentForms_smoothLog|]. by exists rec.
Qed.

Lemma large_file_arrives_intact_witness :
  let file :=
    {| Route.f_name := "a.bin"; Route.f_type := "application/octet-stream";
       Route.f_bytes := [Byte.x01; Byte.x02; Byte.x03; Byte.x04; Byte.x05] |} in
  let run := uploadOne (served (steadyNet 1000 0)) quietClient 2 file "/docs"
               emptyWorld in
  w_fs run.1.1 !! "/mnt/nas/storage//docs/a.bin"
  = Some [Byte.x01; Byte.x02; Byte.x03; Byte.x04; Byte.x05]
  ∧ ∃ rec, run.2 = Resolved rec ∧ Route.r_size rec = 5.
Proof.
  intros file run.
  destruct (large_file_arrives_intact (steadyNet 1000 0) 1000 quietClient 2
              file "/docs" ∅ 0)
    as (_ & Hfile & _ & _ & rec & Hrec & _ & _ & Hsize).
  - intros i. split; [reflexivity|]. split; [|reflexivity]. simpl. lia.
  - lia.
  - vm_compute. reflexivity.
  - vm_compute. discriminate.
  - split; [exact Hfile|]. exists rec. split; [exact Hrec|exact Hsize].
Defined.

(** X6.  A file that fits in one chunk, sent by the uploader to the route
    when the request is delivered and the storage can be written: one
    request goes out, the bytes of the file are stored under the generated
    name, and the uploader resolves with the record of the route. *)
Theorem small_file_arrives_intact (net : nat → exchange) (c : clientEnv)
    (chunkSize : Z) (file : Route.File) (uploadPath : string)
    (fs : gmap string (list Byte.byte)) (tick : nat) :
  x_delivery (net tick) = Delivered →
  Route.accessOk (x_env (net tick)) = true →
  Route.mkdirOk (x_env (net tick)) = true →
  Route.writeOk (x_fileEnv (net tick) 0%nat) = true →
  Route.f_size file ≤ chunkSize →
  let e := x_fileEnv (net tick) 0%nat in
  let dir := directoryOf (effectivePath uploadPath) in
  let stored :=
    Route.generatedName (Route.f_name file) (Route.now e) (Route.random e) in
  let run :=
    uploadOne (served net) c chunkSize file uploadPath
      {| w_fs := fs; w_tick := tick |} in
  run.1.1 = {| w_fs := <[Route.pathJoin dir stored := Route.f_bytes file]> fs;
               w_tick := S tick |}
  ∧ run.1.2 = [Sent (wholeForm file uploadPath)]
  ∧ run.2 = Resolved (Route.wholeRecord e file
                        (Route.sanitize (effectivePath uploadPath))).
Proof.
  intros Hdel Haccess Hmkdir Hwrite Hsmall e dir stored run.
  unfold run, uploadOne. destruct (chunkSize <? Route.f_size file) eqn:E; [lia|].
  unfold uploadSmallFile. rewrite served_delivered by done.
  cbn [w_fs w_tick]. unfold Route.POST, wholeForm.
  cbn [Route.fd_files Route.fd_path Route.fd_chunkIndex].
  fold (effectivePath uploadPath).
  unfold Route.wholeUpload. rewrite Haccess, Hmkdir. cbn [negb].
  cbn [Route.storeFiles]. unfold Route.writeFile. rewrite Hwrite.
  cbn [app fst snd Route.status Route.uploadedResponse Route.json
       Route.success Route.files Z.eqb Pos.eqb].
  done.
Qed.

Lemma small_file_arrives_intact_witness :
  let file :=
    {| Route.f_name := "notes.txt"; Route.f_type := "text/plain";
       Route.f_bytes := [Byte.x68; Byte.x69] |} in
  let run := uploadOne (served (steadyNet 1000 40)) quietClient 1048576 file
               "/docs" emptyWorld in
  w_fs run.1.1
  = {[ "/mnt/nas/storage//docs/notes_1000_k3j9xq.txt" := [Byte.x68; Byte.x69] ]}
  ∧ ∃ rec, run.2 = Resolved rec ∧ Route.r_name rec = "notes.txt".
Proof.
  intros file run.
  destruct (small_file_arrives_intact (steadyNet 1000 40) quietClient 1048576
              file "/docs" ∅ 0)
    as (Hw & _ & Hrec); [reflexivity..|vm_compute; discriminate|].
  unfold run, emptyWorld. split.
  - rewrite Hw. reflexivity.
  - eexists. split; [exact Hrec|reflexivity].
Defined.

(** ** What a chunk request leaves alone *)

Lemma finalize_spares (e : Route.env) (fs : gmap string (list Byte.byte))
    (chunk : Route.File) (sp full temp fileName : string)
    (failed : string → Route.response) (p : string) (data : list Byte.byte) :
  fs !! p = Some data → p ≠ temp →
  (Route.finalize e fs chunk sp full temp fileName failed).1 !! p = Some data.
Proof.
  intros Hp Hne.
  pose proof (uniqueFileName_free fs full fileName) as Hfree.
  unfold Route.finalize.
  set (final := Route.pathJoin full (Route.uniqueFileName fs full fileName)) in *.
  assert (Hpf : p ≠ final) by (intros ->; congruence).
  unfold Route.rename, Route.stat, Route.readFile, Route.writeFile, Route.unlink.
  repeat (case_match; simplify_eq/=);
    rewrite ?lookup_delete_ne, ?lookup_insert_ne, ?lookup_delete_ne by done;
    done.
Qed.

(** X7.  Whatever a chunk request carries and whatever fails while it is
    handled, every file that was in the storage, other than the temp file
    of the request, is still there with its contents. *)
Theorem chunk_request_spares_other_files (e : Route.env)
    (fs : gmap string (list Byte.byte)) (chunk : Route.File)
    (uploadPath : string) (chunkIndex totalChunks : Js.number)
    (fileName : string) (p : string) (data : list Byte.byte) :
  fs !! p = Some data →
  p ≠ Route.pathJoin (directoryOf uploadPath)
        (Route.tempFileName fileName (Route.now e)) →
  (Route.handleChunkedUpload e fs chunk uploadPath chunkIndex totalChunks
     fileName).1 !! p = Some data.
Proof.
  intros Hp Hne. unfold Route.handleChunkedUpload.
  fold (directoryOf uploadPath).
  set (temp := Route.pathJoin (directoryOf uploadPath) _) in *.
  destruct (_ || _); [done|]. destruct (Js.le _ _); [done|].
  destruct (_ || _); [done|]. destruct (negb _); [done|].
  unfold Route.writeFile, Route.appendFile.
  destruct (Js.strictEq chunkIndex (Js.Num 0)).
  - destruct (Route.writeOk e); [|done].
    destruct (Js.strictEq chunkIndex _).
    + apply finalize_spares; [|done]. by rewrite lookup_insert_ne.
    + simpl. by rewrite lookup_insert_ne.
  - destruct (Route.appendOk e); [|done].
    destruct (Js.strictEq chunkIndex _).
    + apply finalize_spares; [|done]. by rewrite lookup_insert_ne.
    + simpl. by rewrite lookup_insert_ne.
Qed.

Lemma chunk_request_spares_other_files_witness :
  let fs : gmap string (list Byte.byte) :=
    {[ "/mnt/nas/storage//docs/a.bin" := [Byte.x41] ]} in
  (Route.handleChunkedUpload (calmEnv 1000) fs (blob [Byte.x01]) "/docs"
     (Js.Num 0) (Js.Num 1) "a.bin").1 !! "/mnt/nas/storage//docs/a.bin"
  = Some [Byte.x41].
Proof.
  intros fs.
  apply (chunk_request_spares_other_files (calmEnv 1000) fs (blob [Byte.x01])
           "/docs" (Js.Num 0) (Js.Num 1) "a.bin").
  - reflexivity.
  - vm_compute. discriminate.
Defined.

(** X8.  When [rename] rejects, the copy of the temp file followed by its
    removal leaves the storage, and answers the request, exactly as a
    [rename] that resolves would have. *)
Theorem fallback_equals_rename (e : Route.env)
    (fs : gmap string (list Byte.byte)) (chunk : Route.File)
    (uploadPath : string) (chunkIndex totalChunks : Js.number)
    (fileName : string) :
  Route.handleChunkedUpload (renameFails e) fs chunk uploadPath chunkIndex
    totalChunks fileName
  = Route.handleChunkedUpload (renameWorks e) fs chunk uploadPath chunkIndex
      totalChunks fileName.
Proof.
  unfold Route.handleChunkedUpload.
  cbn [renameFails renameWorks Route.mkdirOk Route.now Route.writeOk
       Route.appendOk Route.ioError].
  fold (directoryOf uploadPath).
  set (temp := Route.pathJoin (directoryOf uploadPath) _).
  destruct (_ || _); [done|]. destruct (Js.le _ _); [done|].
  destruct (_ || _); [done|]. destruct (negb _); [done|].
  assert (Hfin : ∀ data,
    Route.finalize (renameFails e) (<[temp := data]> fs) chunk
      (Route.sanitize uploadPath) (directoryOf uploadPath) temp fileName
      (λ msg, Route.errorResponse 500
                ("Failed to upload chunk "
                 +:+ Js.toString (Js.add chunkIndex (Js.Num 1))
                 +:+ ": " +:+ msg))
    = Route.finalize (renameWorks e) (<[temp := data]> fs) chunk
        (Route.sanitize uploadPath) (directoryOf uploadPath) temp fileName
        (λ msg, Route.errorResponse 500
                  ("Failed to upload chunk "
                   +:+ Js.toString (Js.add chunkIndex (Js.Num 1))
                   +:+ ": " +:+ msg))).
  { intros data.
    pose proof (uniqueFileName_free (<[temp := data]> fs) (directoryOf uploadPath)
                  fileName) as Hfree.
    unfold Route.finalize.
    set (final := Route.pathJoin (directoryOf uploadPath)
                    (Route.uniqueFileName _ _ _)) in *.
    assert (Hne : final ≠ temp).
    { intros E. rewrite E, lookup_insert_eq in Hfree. done. }
    unfold Route.rename, Route.stat, Route.readFile, Route.writeFile,
      Route.unlink.
    cbn [renameFails renameWorks Route.renameOk Route.statOk Route.readOk
         Route.copyOk Route.unlinkOk].
    rewrite !lookup_insert_eq. rewrite lookup_insert_ne by done.
    rewrite lookup_insert_eq. cbn [fmap option_fmap option_map default].
    f_equal. by rewrite delete_insert_ne. }
  unfold Route.writeFile, Route.appendFile.
  destruct (Js.strictEq chunkIndex (Js.Num 0)).
  - destruct (Route.writeOk e); [|done].
    destruct (Js.strictEq chunkIndex _); [apply Hfin|done].
  - destruct (Route.appendOk e); [|done].
    destruct (Js.strictEq chunkIndex _); [apply Hfin|done].
Qed.

(** X9.  The route keeps no account of the chunks it has received.  A
    chunk after the first that is served twice in the millisecond of its
    temp file is appended twice; the first chunk, which overwrites the temp
    file, can be served twice without harm. *)
Theorem retransmitted_chunk_is_appended_twice (e1 e2 : Route.env)
    (fs : gmap string (list Byte.byte)) (chunk : Route.File)
    (uploadPath : string) (k n : Z) (fileName : string) :
  allSucceed e1 = true → allSucceed e2 = true → Route.now e1 = Route.now e2 →
  Js.trim fileName ≠ "" → 0 ≤ k < n - 1 →
  let temp :=
    Route.pathJoin (directoryOf uploadPath)
      (Route.tempFileName fileName (Route.now e1)) in
  let once :=
    Route.handleChunkedUpload e1 fs chunk uploadPath (Js.Num k) (Js.Num n)
      fileName in
  let twice :=
    Route.handleChunkedUpload e2 once.1 chunk uploadPath (Js.Num k) (Js.Num n)
      fileName in
  Route.status twice.2 = 200
  ∧ (k = 0 → twice.1 = once.1)
  ∧ (0 < k →
     twice.1 !! temp
     = Some (default [] (fs !! temp) ++ Route.f_bytes chunk
             ++ Route.f_bytes chunk)).
Proof.
  intros H1 H2 Hnow Hname Hk temp once twice.
  subst twice once.
  rewrite (chunk_step_middle e1 fs chunk uploadPath k n fileName H1 Hname Hk).
  cbn [fst].
  rewrite (chunk_step_middle e2 _ chunk uploadPath k n fileName H2 Hname Hk).
  rewrite <-Hnow. fold temp. cbn [fst snd].
  split; [done|]. split.
  - intros ->. cbn [Z.eqb]. by rewrite insert_insert_eq.
  - intros Hpos. destruct (k =? 0) eqn:E; [lia|].
    rewrite !lookup_insert_eq. cbn [default]. by rewrite ?(assoc_L (++)).
Qed.

Lemma retransmitted_chunk_is_appended_twice_witness :
  let fs : gmap string (list Byte.byte) :=
    {[ "/mnt/nas/storage//docs/temp_YS5iaW4_1000" := [Byte.x01] ]} in
  let once :=
    Route.handleChunkedUpload (calmEnv 1000) fs (blob [Byte.x02]) "/docs"
      (Js.Num 1) (Js.Num 3) "a.bin" in
  let twice :=
    Route.handleChunkedUpload (calmEnv 1000) once.1 (blob [Byte.x02]) "/docs"
      (Js.Num 1) (Js.Num 3) "a.bin" in
  twice.1 !! "/mnt/nas/storage//docs/temp_YS5iaW4_1000"
  = Some [Byte.x01; Byte.x02; Byte.x02].
Proof.
  intros fs once twice.
  destruct (retransmitted_chunk_is_appended_twice (calmEnv 1000) (calmEnv 1000)
              fs (blob [Byte.x02]) "/docs" 1 3 "a.bin")
    as (_ & _ & H); [reflexivity|reflexivity|reflexivity| |lia|].
  - vm_compute. discriminate.
  - apply H. lia.
Defined.

(** ** The answers of the upload route *)

Lemma finalize_answers (e : Route.env) (fs : gmap string (list Byte.byte))
    (chunk : Route.File) (sp full temp fileName : string)
    (failed : string → Route.response) :
  (∀ msg, isError 500 (failed msg)) →
  let run := Route.finalize e fs chunk sp full temp fileName failed in
  isOkResponse run.2 ∨ isError 500 run.2.
Proof.
  intros Hfailed. unfold Route.finalize.
  unfold Route.rename, Route.stat, Route.readFile, Route.writeFile, Route.unlink.
  repeat (case_match; simplify_eq/=); (by left) || (right; apply Hfailed).
Qed.

Lemma errorResponse_isError (code : Z) (msg : string) :
  isError code (Route.errorResponse code msg).
Proof. unfold isError. simpl. eauto. Qed.

(** X10.  Every answer of [POST] is a success with status 200, or an error
    with status 400 or 500 that carries an error text and no file record;
    a request that is answered 400 has changed nothing in the storage. *)
Theorem upload_answers (e : Route.env) (fe : nat → Route.env)
    (fs : gmap string (list Byte.byte)) (form : Route.formData) :
  let run := Route.POST e fe fs form in
  isOkResponse run.2
  ∨ (isError 400 run.2 ∧ run.1 = fs)
  ∨ isError 500 run.2.
Proof.
  unfold Route.POST.
  destruct (Route.fd_files form) as [|first rest];
    [right; left; split; [apply errorResponse_isError|done]|].
  assert (Hwhole : ∀ uploadPath,
    let run := Route.wholeUpload e fe fs (first :: rest) uploadPath in
    isOkResponse run.2 ∨ (isError 400 run.2 ∧ run.1 = fs) ∨ isError 500 run.2).
  { intros uploadPath. unfold Route.wholeUpload.
    destruct (negb (Route.accessOk e));
      [right; right; apply errorResponse_isError|].
    destruct (negb (Route.mkdirOk e));
      [right; right; apply errorResponse_isError|].
    destruct (Route.storeFiles _ _ _ _ _ _ _) as [fs1 [msg|records]].
    - right; right; apply errorResponse_isError.
    - by left. }
  destruct (Route.fd_chunkIndex form) as [ci|]; [|apply Hwhole].
  destruct (Route.fd_totalChunks form) as [tc|]; [|apply Hwhole].
  destruct (Route.fd_fileName form) as [fileName|]; [|apply Hwhole].
  unfold Route.handleChunkedUpload.
  destruct (_ || _); [right; left; split; [apply errorResponse_isError|done]|].
  destruct (Js.le _ _); [right; left; split; [apply errorResponse_isError|done]|].
  destruct (_ || _); [right; left; split; [apply errorResponse_isError|done]|].
  destruct (negb _); [right; right; apply errorResponse_isError|].
  destruct (if Js.strictEq _ _ then _ else _) as [fs1|];
    [|right; right; apply errorResponse_isError].
  destruct (Js.strictEq _ _); [|by left].
  pose proof (finalize_answers e fs1 first
                (Route.sanitize (match Route.fd_path form with
                                 | Some p => if String.eqb p "" then "/" else p
                                 | None => "/"
                                 end))
                (Route.pathJoin Route.STORAGE_PATH
                   (Route.sanitize (match Route.fd_path form with
                                    | Some p => if String.eqb p "" then "/" else p
                                    | None => "/"
                                    end)))
                (Route.pathJoin
                   (Route.pathJoin Route.STORAGE_PATH
                      (Route.sanitize (match Route.fd_path form with
                                       | Some p => if String.eqb p "" then "/" else p
                                       | None => "/"
                                       end)))
                   (Route.tempFileName fileName (Route.now e)))
                fileName
                (λ msg, Route.errorResponse 500
                          ("Failed to upload chunk "
                           +:+ Js.toString (Js.add (Js.parseInt ci) (Js.Num 1))
                           +:+ ": " +:+ msg))
                (λ msg, errorResponse_isError 500 _)) as H.
  cbv zeta in H. destruct H as [H|H]; [by left|by right; right].
Qed.

(** ** Whole-file uploads *)

Lemma generatedNames_cons (fe : nat → Route.env) (first : nat)
    (file : Route.File) (rest : list Route.File) :
  generatedNames fe first (file :: rest)
  = Route.generatedName (Route.f_name file) (Route.now (fe first))
      (Route.random (fe first))
    :: generatedNames fe (S first) rest.
Proof.
  unfold generatedNames. cbn [imap]. rewrite Nat.add_0_r. f_equal.
  apply imap_ext. intros j f _. simpl.
  by replace (first + S j)%nat with (S (first + j)) by lia.
Qed.

Lemma generatedNames_lookup (fe : nat → Route.env) (first : nat)
    (files : list Route.File) (j : nat) (file : Route.File) :
  files !! j = Some file →
  generatedNames fe first files !! j
  = Some (Route.generatedName (Route.f_name file)
            (Route.now (fe (first + j)%nat)) (Route.random (fe (first + j)%nat))).
Proof. intros H. unfold generatedNames. by rewrite list_lookup_imap, H. Qed.

(** The loop stores every file exactly when every write resolves. *)
Lemma storeFiles_all (fe : nat → Route.env) (sp full : string)
    (todo : list Route.File) :
  ∀ (i : nat) (fs : gmap string (list Byte.byte)) (acc : list Route.fileRecord),
  is_Some (match (Route.storeFiles fe i fs sp full todo acc).2 with
           | inr records => Some records
           | inl _ => None
           end)
  ↔ ∀ j, (j < length todo)%nat → Route.writeOk (fe (i + j)%nat) = true.
Proof.
  induction todo as [|file rest IH]; intros i fs acc.
  - simpl. split; [intros _ j Hj; lia|by eexists].
  - cbn [Route.storeFiles]. unfold Route.writeFile.
    destruct (Route.writeOk (fe i)) eqn:Hw.
    + rewrite IH. split.
      * intros H [|j] Hj; [by rewrite Nat.add_0_r|].
        replace (i + S j)%nat with (S i + j)%nat by lia. apply H. simpl in Hj. lia.
      * intros H j Hj. replace (S i + j)%nat with (i + S j)%nat by lia.
        apply H. simpl. lia.
    + simpl. split; [by intros [? ?]|].
      intros H. specialize (H 0%nat ltac:(simpl; lia)).
      rewrite Nat.add_0_r in H. congruence.
Qed.

(** X11.  A whole-file upload is answered 200 exactly when the storage
    directory can be reached, the destination directory can be made, and the
    write of every file resolves. *)
Theorem whole_upload_succeeds_iff (e : Route.env) (fe : nat → Route.env)
    (fs : gmap string (list Byte.byte)) (files : list Route.File)
    (uploadPath : string) :
  Route.status (Route.wholeUpload e fe fs files uploadPath).2 = 200
  ↔ Route.accessOk e = true ∧ Route.mkdirOk e = true
    ∧ ∀ i, (i < length files)%nat → Route.writeOk (fe i) = true.
Proof.
  unfold Route.wholeUpload.
  destruct (Route.accessOk e); [|by split; [|intros [? _]]].
  destruct (Route.mkdirOk e); [|by split; [|intros (_ & ? & _)]].
  cbn [negb].
  pose proof (storeFiles_all fe (Route.sanitize uploadPath)
                (Route.pathJoin Route.STORAGE_PATH (Route.sanitize uploadPath))
                files 0%nat fs []) as H.
  destruct (Route.storeFiles _ _ _ _ _ _ _) as [fs1 [msg|records]];
    cbn [snd] in *.
  - split; [done|]. intros (_ & _ & Hall).
    destruct (proj2 H Hall) as [? ?]. done.
  - split; [|done]. intros _. split; [done|]. split; [done|].
    apply H. by eexists.
Qed.

Lemma whole_upload_succeeds_iff_witness :
  Route.status
    (Route.wholeUpload (calmEnv 1000) (λ _, calmEnv 1000) ∅
       [zeros "a.txt" 1; zeros "b.txt" 2] "/docs").2 = 200.
Proof.
  apply (whole_upload_succeeds_iff (calmEnv 1000) (λ _, calmEnv 1000) ∅
           [zeros "a.txt" 1; zeros "b.txt" 2] "/docs").
  split; [reflexivity|]. split; [reflexivity|]. intros i _. reflexivity.
Defined.

(** The loop up to its first write that rejects. *)
Lemma storeFiles_stops (fe : nat → Route.env) (sp full : string)
    (todo : list Route.File) :
  ∀ (k i : nat) (fs : gmap string (list Byte.byte))
    (acc : list Route.fileRecord) (file : Route.File),
  todo !! k = Some file →
  (∀ j, (j < k)%nat → Route.writeOk (fe (i + j)%nat) = true) →
  Route.writeOk (fe (i + k)%nat) = false →
  Route.storeFiles fe i fs sp full todo acc
  = ((Route.storeFiles fe i fs sp full (take k todo) acc).1,
     inl ("Failed to upload " +:+ Route.f_name file +:+ ": "
          +:+ Route.ioError (fe (i + k)%nat))).
Proof.
  induction todo as [|first rest IH]; intros k i fs acc file Hk Hbefore Hfail;
    [done|].
  destruct k as [|k].
  - simpl in Hk. injection Hk as ->. rewrite Nat.add_0_r in Hfail.
    cbn [take Route.storeFiles]. unfold Route.writeFile. rewrite Hfail.
    by rewrite Nat.add_0_r.
  - simpl in Hk. cbn [take Route.storeFiles]. unfold Route.writeFile.
    pose proof (Hbefore 0%nat ltac:(lia)) as H0. rewrite Nat.add_0_r in H0.
    rewrite H0.
    rewrite (IH k (S i) _ _ file Hk).
    + by replace (S i + k)%nat with (i + S k)%nat by lia.
    + intros j Hj. replace (S i + j)%nat with (i + S j)%nat by lia.
      apply Hbefore. lia.
    + by replace (S i + k)%nat with (i + S k)%nat by lia.
Qed.

(** X12.  When the write of a file rejects, the upload stops there and is
    answered 500 with the name of that file; the files before it stay stored
    as by an upload of them alone, although the answer lists none. *)
Theorem failed_write_keeps_earlier_files (e : Route.env) (fe : nat → Route.env)
    (fs : gmap string (list Byte.byte)) (files : list Route.File)
    (uploadPath : string) (k : nat) (file : Route.File) :
  Route.accessOk e = true → Route.mkdirOk e = true →
  files !! k = Some file →
  (∀ j, (j < k)%nat → Route.writeOk (fe j) = true) →
  Route.writeOk (fe k) = false →
  let earlier := Route.wholeUpload e fe fs (take k files) uploadPath in
  Route.wholeUpload e fe fs files uploadPath
  = (earlier.1,
     Route.errorResponse 500
       ("Failed to upload " +:+ Route.f_name file +:+ ": "
        +:+ Route.ioError (fe k)))
  ∧ Route.status earlier.2 = 200
  ∧ ∀ j before, (take k files) !! j = Some before →
      is_Some (earlier.1 !! Route.pathJoin (directoryOf uploadPath)
                               (Route.generatedName (Route.f_name before)
                                  (Route.now (fe j)) (Route.random (fe j)))).
Proof.
  intros Haccess Hmkdir Hk Hbefore Hfail earlier.
  assert (Hok : Route.status earlier.2 = 200).
  { subst earlier. unfold Route.wholeUpload. rewrite Haccess, Hmkdir. cbn [negb].
    pose proof (storeFiles_all fe (Route.sanitize uploadPath)
                  (Route.pathJoin Route.STORAGE_PATH (Route.sanitize uploadPath))
                  (take k files) 0%nat fs []) as H.
    destruct (Route.storeFiles _ _ _ _ _ (take k files) _)
      as [fs1 [msg|records]]; [|done].
    cbn [snd] in H. destruct (proj2 H) as [? ?]; [|done].
    intros j Hj. apply Hbefore. rewrite length_take in Hj. simpl. lia. }
  split; [|split; [done|]].
  - subst earlier. unfold Route.wholeUpload. rewrite Haccess, Hmkdir. cbn [negb].
    rewrite (storeFiles_stops fe _ _ files k 0%nat fs [] file Hk Hbefore Hfail).
    by destruct (Route.storeFiles _ _ _ _ _ (take k files) _) as [fs1 [msg|records]].
  - intros j before Hj. subst earlier. unfold Route.wholeUpload in *.
    rewrite Haccess, Hmkdir in *. cbn [negb] in *.
    fold (directoryOf uploadPath) in *.
    destruct (Route.storeFiles _ _ _ _ _ (take k files) _)
      as [fs1 [msg|records]] eqn:Hstore; [done|].
    apply storeFiles_records in Hstore as (new & _ & _ & Hrec & _ & _).
    cbn [fst]. by destruct (Hrec j before Hj) as [_ H].
Qed.

Lemma failed_write_keeps_earlier_files_witness :
  let fe (i : nat) : Route.env :=
    {| Route.now := 1000 + N.of_nat i; Route.idNow := 1000;
       Route.random := "k3j9xq"; Route.isoNow := "2024-05-01T10:00:00.000Z";
       Route.accessOk := true; Route.mkdirOk := true;
       Route.writeOk := negb (Nat.eqb i 1); Route.appendOk := true;
       Route.renameOk := true; Route.statOk := true; Route.readOk := true;
       Route.copyOk := true; Route.unlinkOk := true;
       Route.ioError := "ENOSPC: no space left on device" |} in
  let files := [zeros "a.txt" 1; zeros "b.txt" 2; zeros "c.txt" 3] in
  Route.wholeUpload (calmEnv 1000) fe ∅ files "/docs"
  = ({[ "/mnt/nas/storage//docs/a_1000_k3j9xq.txt" := [Byte.x00] ]},
     Route.errorResponse 500
       "Failed to upload b.txt: ENOSPC: no space left on device").
Proof.
  intros fe files.
  destruct (failed_write_keeps_earlier_files (calmEnv 1000) fe ∅ files "/docs"
              1 (zeros "b.txt" 2)) as (H & _ & _);
    [reflexivity|reflexivity|reflexivity| |reflexivity|].
  - intros j Hj. by replace j with 0%nat by lia.
  - rewrite H. reflexivity.
Defined.


Lemma storeFiles_contents (fe : nat → Route.env) (sp full : string)
    (todo : list Route.File) :
  ∀ (i : nat) (fs fs' : gmap string (list Byte.byte))
    (acc records : list Route.fileRecord),
  Route.storeFiles fe i fs sp full todo acc = (fs', inr records) →
  NoDup (generatedNames fe i todo) →
  ∀ j file, todo !! j = Some file →
    fs' !! Route.pathJoin full
             (Route.generatedName (Route.f_name file)
                (Route.now (fe (i + j)%nat)) (Route.random (fe (i + j)%nat)))
    = Some (Route.f_bytes file).
Proof.
  induction todo as [|first rest IH]; intros i fs fs' acc records Hrun Hnodup;
    [done|].
  rewrite generatedNames_cons in Hnodup. apply NoDup_cons in Hnodup as [Hnew Hnodup].
  cbn [Route.storeFiles] in Hrun. unfold Route.writeFile in Hrun.
  destruct (Route.writeOk (fe i)); [|done].
  intros [|j] file Hj; simpl in Hj.
  - injection Hj as ->. rewrite Nat.add_0_r.
    apply storeFiles_records in Hrun as (new & _ & _ & _ & _ & Hframe).
    rewrite Hframe; [by rewrite lookup_insert_eq|].
    intros j' file' Hj' E. apply pathJoin_inj in E. apply Hnew.
    rewrite E. apply list_elem_of_lookup. exists j'.
    rewrite (generatedNames_lookup _ _ _ _ _ Hj').
    by replace (S i + j')%nat with (i + S j')%nat by lia.
  - replace (i + S j)%nat with (S i + j)%nat by lia.
    by apply (IH _ _ _ _ _ Hrun).
Qed.

(** X13.  A whole-file upload that succeeds, of files whose generated names
    differ, holds the bytes of every file at the path its record reports,
    and the record carries the length of those bytes. *)
Theorem whole_files_are_stored (e : Route.env) (fe : nat → Route.env)
    (fs fs' : gmap string (list Byte.byte)) (files : list Route.File)
    (uploadPath : string) (resp : Route.response) :
  Route.wholeUpload e fe fs files uploadPath = (fs', resp) →
  Route.success (Route.json resp) = Some true →
  NoDup (generatedNames fe 0 files) →
  ∃ records,
    Route.files (Route.json resp) = Some records
    ∧ length records = length files
    ∧ ∀ i file, files !! i = Some file →
        ∃ rec,
          records !! i = Some rec
          ∧ fs' !! Route.pathJoin Route.STORAGE_PATH (Route.r_path rec)
            = Some (Route.f_bytes file)
          ∧ Route.r_size rec = Z.of_nat (length (Route.f_bytes file))
          ∧ Route.r_sizeFormatted rec = StorageUtils.formatSize (Route.r_size rec).
Proof.
  intros Hrun Hok Hnodup. unfold Route.wholeUpload in Hrun.
  destruct (Route.accessOk e); [|simpl in Hrun; simplify_eq; done].
  destruct (Route.mkdirOk e); [|simpl in Hrun; simplify_eq; done].
  cbn [negb] in Hrun.
  destruct (Route.storeFiles _ _ _ _ _ _ _) as [fs1 [msg|records]] eqn:Hstore;
    [simplify_eq; done|].
  injection Hrun as <- <-.
  pose proof (storeFiles_contents _ _ _ _ _ _ _ _ _ Hstore Hnodup) as Hbytes.
  apply storeFiles_records in Hstore as (new & -> & Hlen & Hrec & _ & _).
  exists new. split; [done|]. split; [done|].
  intros i file Hi. destruct (Hrec i file Hi) as [Hnew _].
  eexists. split; [exact Hnew|]. cbn [Route.wholeRecord Route.r_path
    Route.r_size Route.r_sizeFormatted].
  split; [|done].
  rewrite <-(Hbytes i file Hi). unfold Route.pathJoin.
  by rewrite !str_app_assoc.
Qed.

Lemma whole_files_are_stored_witness :
  let files :=
    [ {| Route.f_name := "a.txt"; Route.f_type := "text/plain";
         Route.f_bytes := [Byte.x61] |};
      {| Route.f_name := "b.txt"; Route.f_type := "text/plain";
         Route.f_bytes := [Byte.x62; Byte.x63] |} ] in
  let run := Route.wholeUpload (calmEnv 1000) (λ _, calmEnv 1000) ∅ files "/docs" in
  ∃ records,
    Route.files (Route.json run.2) = Some records
    ∧ length records = 2%nat
    ∧ ∀ i file, files !! i = Some file →
        ∃ rec,
          records !! i = Some rec
          ∧ run.1 !! Route.pathJoin Route.STORAGE_PATH (Route.r_path rec)
            = Some (Route.f_bytes file)
          ∧ Route.r_size rec = Z.of_nat (length (Route.f_bytes file))
          ∧ Route.r_sizeFormatted rec = StorageUtils.formatSize (Route.r_size rec).
Proof.
  intros files run.
  apply (whole_files_are_stored (calmEnv 1000) (λ _, calmEnv 1000) ∅ run.1 files
           "/docs" run.2).
  - apply surjective_pairing.
  - reflexivity.
  - compute_done.
Defined.

(** ** Several files in one call of the uploader *)

Section EachFile.

Context {World : Type}.
Variable send : World → Route.formData → World * outcome.

Lemma uploadEach_results (c : clientEnv) (chunkSize : Z) (uploadPath : string)
    (todo : list Route.File) :
  ∀ (w w' : World) (results results' : list Route.fileRecord)
    (hasError : bool) (log log' : list event),
  uploadEach send c chunkSize todo uploadPath w results hasError log
  = (w', log', results', false) →
  hasError = false
  ∧ length results' = (length results + length todo)%nat.
Proof.
  induction todo as [|file rest IH];
    intros w w' results results' hasError log log' Hrun.
  - simpl in Hrun. injection Hrun as _ _ <- ->. simpl. split; [done|lia].
  - cbn [uploadEach] in Hrun.
    destruct (uploadOne send c chunkSize file uploadPath w) as [[w1 log1] [rec|msg]].
    + apply IH in Hrun as [-> Hlen]. split; [done|].
      rewrite Hlen, length_app. simpl. lia.
    + by apply IH in Hrun as [? _].
Qed.

Lemma uploadEach_small (c : clientEnv) (chunkSize : Z) (uploadPath : string)
    (todo : list Route.File) :
  Forall (λ file, Route.f_size file ≤ chunkSize) todo →
  ∀ (w : World) (results : list Route.fileRecord) (hasError : bool)
    (log : list event),
  sentForms (uploadEach send c chunkSize todo uploadPath w results hasError
               log).1.1.2
  = sentForms log ++ ((λ file, wholeForm file uploadPath) <$> todo).
Proof.
  induction 1 as [|file rest Hsmall _ IH]; intros w results hasError log.
  - simpl. by rewrite app_nil_r.
  - cbn [uploadEach]. unfold uploadOne.
    destruct (chunkSize <? Route.f_size file) eqn:E; [lia|].
    unfold uploadSmallFile.
    destruct (send w (wholeForm file uploadPath)) as [w1 o].
    assert (Hlog : sentForms (log ++ [Sent (wholeForm file uploadPath)])
                   = sentForms log ++ [wholeForm file uploadPath]).
    { unfold sentForms. by rewrite omap_app. }
    destruct (match o with NetworkError _ => _ | Answer _ _ _ => _ end);
      rewrite IH, Hlog, <-(assoc_L (++)); done.
Qed.

End EachFile.

(** X14.  Files that fit in one chunk go out in one request each, in order,
    whatever the answers are: a file that fails is not sent again and does
    not keep the next ones from being sent.  The call resolves only when no
    file failed, with one record per file; otherwise it throws
    "Some files failed to upload". *)
Theorem small_files_one_request_each {World : Type}
    (send : World → Route.formData → World * outcome) (c : clientEnv)
    (chunkSize : Z) (files : list Route.File) (uploadPath : string) (w : World) :
  Forall (λ file, Route.f_size file ≤ chunkSize) files →
  let run := uploadFiles send c chunkSize files uploadPath w in
  sentForms run.1.2 = (λ file, wholeForm file uploadPath) <$> files
  ∧ ((∃ results, run.2 = Resolved results ∧ length results = length files)
     ∨ run.2 = Thrown "Some files failed to upload").
Proof.
  intros Hsmall run. subst run. unfold uploadFiles.
  pose proof (uploadEach_small send c chunkSize uploadPath files Hsmall w [] false [])
    as Hsent.
  destruct (uploadEach send c chunkSize files uploadPath w [] false [])
    as [[[w1 log] results] [|]] eqn:Hrun; cbn [fst snd] in *.
  - split; [done|]. by right.
  - split; [done|]. left. exists results. split; [done|].
    by apply uploadEach_results in Hrun as [_ ->].
Qed.

Lemma small_files_one_request_each_witness :
  let files := [zeros "a.txt" 1; zeros "b.txt" 2; zeros "c.txt" 3] in
  let script :=
    [ Answer 500 "Internal Server Error"
        (inr (Route.json (Route.errorResponse 500 "Failed to upload a.txt: EIO")));
      NetworkError "Failed to fetch" ] in
  let run := uploadFiles scripted quietClient 1048576 files "/docs" script in
  sentForms run.1.2 = (λ file, wholeForm file "/docs") <$> files
  ∧ run.2 = Thrown "Some files failed to upload".
Proof.
  intros files script run.
  destruct (small_files_one_request_each scripted quietClient 1048576 files
              "/docs" script) as [Hsent _].
  - repeat constructor; vm_compute; discriminate.
  - split; [exact Hsent|reflexivity].
Defined.

(** ** Formatting a size and reading it back *)

Lemma pretty_Z_value (z : Z) : 0 ≤ z → Js.digitsValue (pretty z) = Z.to_N z.
Proof.
  destruct z as [|p|p]; [done| |lia]. intros _.
  apply (digitsValue_pretty (N.pos p)).
Qed.

Lemma pretty_Z_nonempty (z : Z) : 0 ≤ z → pretty z ≠ "".
Proof.
  destruct z as [|p|p]; [done| |lia]. intros _.
  apply (pretty_N_nonempty (N.pos p)).
Qed.

Lemma pretty_digit (d : Z) :
  0 ≤ d < 10 → String.length (pretty d) = 1%nat.
Proof.
  intros H.
  assert (d = 0 ∨ d = 1 ∨ d = 2 ∨ d = 3 ∨ d = 4 ∨ d = 5 ∨ d = 6 ∨ d = 7
          ∨ d = 8 ∨ d = 9) as Hd by lia.
  destruct Hd as [->|[->|[->|[->|[->|[->|[->|[->|[->| ->]]]]]]]]]; reflexivity.
Qed.

(** The number a formatted mantissa is read as. *)
Lemma parseSize_hundredths (m : Z) (u : string) (k : Z) :
  0 ≤ m → UnitOf u k →
  (StorageUtils.parseSize (Js.hundredthsToString m +:+ " " +:+ u)
   == inject_Z m / 100 * inject_Z k)%Q.
Proof.
  intros Hm Hu. unfold Js.hundredthsToString.
  assert (Hip : 0 ≤ m / 100) by (apply Z.div_pos; lia).
  assert (Hfr : 0 ≤ m `mod` 100 < 100) by (apply Z.mod_pos_bound; lia).
  assert (Hd1 : 0 ≤ (m `mod` 100) / 10 < 10).
  { split; [apply Z.div_pos; lia|apply Z.div_lt_upper_bound; lia]. }
  assert (Hd2 : 0 ≤ (m `mod` 100) `mod` 10 < 10) by (apply Z.mod_pos_bound; lia).
  pose proof (Z.div_mod m 100 ltac:(lia)) as Hm100.
  pose proof (Z.div_mod (m `mod` 100) 10 ltac:(lia)) as Hm10.
  set (ip := m / 100) in *. set (fr := m `mod` 100) in *.
  destruct (fr =? 0) eqn:E0.
  - rewrite (parseSize_integer (pretty ip) " " u k);
      [|apply pretty_Z_nonempty; lia|apply pretty_Z_digits; lia|reflexivity|done].
    rewrite pretty_Z_value, Z2N.id by done.
    unfold Qeq, Qdiv, Qmult, Qinv, inject_Z. simpl. lia.
  - destruct (fr `mod` 10 =? 0) eqn:E1.
    + rewrite !str_app_assoc.
      rewrite (parseSize_fraction (pretty ip) (pretty (fr / 10)) " " u k);
        [|apply pretty_Z_nonempty; lia|apply pretty_Z_digits; lia
         |apply pretty_Z_nonempty; lia|apply pretty_Z_digits; lia|reflexivity|done].
      rewrite !pretty_Z_value, !Z2N.id, pretty_digit by lia.
      unfold Qeq, Qplus, Qdiv, Qmult, Qinv, inject_Z. simpl. lia.
    + rewrite !str_app_assoc. rewrite <-(str_app_assoc (pretty (fr / 10))).
      rewrite (parseSize_fraction (pretty ip)
                 (pretty (fr / 10) +:+ pretty (fr `mod` 10)) " " u k);
        [|apply pretty_Z_nonempty; lia|apply pretty_Z_digits; lia
         | |rewrite allb_app, !pretty_Z_digits by lia; done|reflexivity|done].
      * unfold Js.digitsValue at 2.
        rewrite digitsValueFrom_app, digitsValueFrom_shift.
        fold (Js.digitsValue (pretty (fr / 10))).
        rewrite !pretty_Z_value, str_length_app, !pretty_digit by lia.
        rewrite Z2N.id by lia.
        rewrite N2Z.inj_add, N2Z.inj_mul, !Z2N.id by lia.
        unfold Qeq, Qplus, Qdiv, Qmult, Qinv, inject_Z. simpl. lia.
      * intros E. apply (f_equal String.length) in E.
        rewrite str_length_app, !pretty_digit in E by lia. done.
Qed.

Lemma sizeName_unit (i : Z) :
  0 ≤ i ≤ 4 → UnitOf (StorageUtils.sizeName i) (1024 ^ i).
Proof.
  intros H. assert (i = 0 ∨ i = 1 ∨ i = 2 ∨ i = 3 ∨ i = 4) as Hi by lia.
  unfold UnitOf.
  destruct Hi as [->|[->|[->|[->| ->]]]]; rewrite !elem_of_cons; vm_compute;
    auto 10.
Qed.

(** X15.  A size below 1024^5 - 3 bytes that is formatted and parsed back
    comes out as its mantissa of two decimals times its unit: within half a
    hundredth of the unit of the size, and the size itself below 1024 bytes.
    The three sizes from 1024^5 - 3 to 1024^5 - 1 are formatted as
    "1 undefined", which parses to 0. *)
Theorem format_then_parse (bytes : Z) :
  let i := StorageUtils.unitIndex bytes in
  let back := StorageUtils.parseSize (StorageUtils.formatSize bytes) in
  (0 ≤ bytes < 1024 ^ 5 - 3 →
   (back == inject_Z (StorageUtils.mantissaHundredths bytes i) / 100
            * inject_Z (1024 ^ i))%Q
   ∧ (inject_Z bytes - inject_Z (1024 ^ i) / 200 <= back)%Q
   ∧ (back <= inject_Z bytes + inject_Z (1024 ^ i) / 200)%Q
   ∧ (bytes < 1024 → (back == inject_Z bytes)%Q))
  ∧ (1024 ^ 5 - 3 ≤ bytes < 1024 ^ 5 →
     StorageUtils.formatSize bytes = "1 undefined" ∧ (back == 0)%Q).
Proof.
  intros i back. split; cycle 1.
  { intros H.
    assert (bytes = 1024 ^ 5 - 3 ∨ bytes = 1024 ^ 5 - 2 ∨ bytes = 1024 ^ 5 - 1)
      as [->|[->| ->]] by lia; subst back i; vm_compute; by split. }
  intros H.
  destruct (decide (bytes = 0)) as [->|Hpos].
  { subst back i. vm_compute. repeat split; (done || discriminate). }
  assert (Hb : 1 ≤ bytes < 1024 ^ 5 - 3) by lia.
  pose proof (unitIndex_small _ Hb) as Hi. fold i in Hi.
  assert (Hex : i = Z.log2 bytes / 10) by (apply unitIndex_exact; lia).
  assert (HU : 0 < 1024 ^ i) by (apply Z.pow_pos_nonneg; lia).
  assert (Hlo : 1024 ^ i ≤ bytes).
  { rewrite Hex.
    change 1024 with (2 ^ 10). rewrite <-Z.pow_mul_r by (lia || (apply Z.div_pos; [apply Z.log2_nonneg|lia])).
    pose proof (Z.log2_spec bytes ltac:(lia)) as [Hl _].
    etrans; [|exact Hl]. apply Z.pow_le_mono_r; [lia|].
    pose proof (Z.mul_div_le (Z.log2 bytes) 10 ltac:(lia)). lia. }
  pose proof (mantissaHundredths_nonneg bytes i ltac:(lia) ltac:(lia)) as Hm.
  assert (Hback : (back == inject_Z (StorageUtils.mantissaHundredths bytes i) / 100
                           * inject_Z (1024 ^ i))%Q).
  { subst back. unfold StorageUtils.formatSize.
    destruct (bytes =? 0) eqn:E0; [lia|]. destruct (bytes <? 0) eqn:E1; [lia|].
    fold i. apply parseSize_hundredths; [done|]. by apply sizeName_unit. }
  assert (Hround : 2 * 1024 ^ i * StorageUtils.mantissaHundredths bytes i
                   ≤ 200 * bytes + 1024 ^ i
                   < 2 * 1024 ^ i * (StorageUtils.mantissaHundredths bytes i + 1)).
  { unfold StorageUtils.mantissaHundredths.
    pose proof (Z.div_mod (200 * bytes + 1024 ^ i) (2 * 1024 ^ i) ltac:(lia)).
    pose proof (Z.mod_pos_bound (200 * bytes + 1024 ^ i) (2 * 1024 ^ i) ltac:(lia)).
    lia. }
  assert (Hi0 : bytes < 1024 → i = 0).
  { intros Hsmall. rewrite Hex.
    assert (Z.log2 bytes < 10) by (apply Z.log2_lt_pow2; lia).
    pose proof (Z.log2_nonneg bytes). apply Z.div_small. lia. }
  clear Hex.
  set (m := StorageUtils.mantissaHundredths bytes i) in *.
  set (U := 1024 ^ i) in *.
  split; [done|]. split; [|split].
  - rewrite Hback. unfold Qle, Qminus, Qplus, Qopp, Qdiv, Qmult, Qinv, inject_Z.
    simpl. nia.
  - rewrite Hback. unfold Qle, Qminus, Qplus, Qopp, Qdiv, Qmult, Qinv, inject_Z.
    simpl. nia.
  - intros Hsmall. rewrite Hback. specialize (Hi0 Hsmall).
    subst U m. rewrite Hi0 in *. unfold StorageUtils.mantissaHundredths.
    change (1024 ^ 0) with 1.
    replace ((200 * bytes + 1) / (2 * 1)) with (100 * bytes).
    + unfold Qeq, Qdiv, Qmult, Qinv, inject_Z. simpl. lia.
    + apply Z.div_unique with (r := 1); lia.
Qed.

Lemma format_then_parse_witness :
  (StorageUtils.parseSize (StorageUtils.formatSize 1234567) == 123731968 # 100)%Q
  ∧ (StorageUtils.parseSize (StorageUtils.formatSize 1000) == 1000)%Q
  ∧ StorageUtils.formatSize (1024 ^ 5 - 1) = "1 undefined"
  ∧ (StorageUtils.parseSize (StorageUtils.formatSize (1024 ^ 5 - 1)) == 0)%Q.
Proof.
  split; [|split].
  - destruct (format_then_parse 1234567) as [H _].
    destruct H as (H & _); [lia|]. rewrite H. reflexivity.
  - destruct (format_then_parse 1000) as [H _].
    destruct H as (_ & _ & _ & H); [lia|]. apply H. lia.
  - destruct (format_then_parse (1024 ^ 5 - 1)) as [_ H]. apply H. lia.
Defined.

(** ** The storage figures *)

Lemma parseFloat_nonneg (s : string) : (0 <= Js.parseFloat s)%Q.
Proof.
  unfold Js.parseFloat. destruct (Js.span Js.isDigit s) as [ip r].
  assert (Hfr : ∀ f, (0 <= (let '(fp, _) := Js.span Js.isDigit f in
                            Z.of_N (Js.digitsValue (ip +:+ fp))
                            # Z.to_pos (10 ^ Z.of_nat (String.length fp))))%Q).
  { intros f. destruct (Js.span Js.isDigit f) as [fp ?].
    unfold Qle. simpl. lia. }
  assert (Hint : (0 <= inject_Z (Z.of_N (Js.digitsValue ip)))%Q).
  { unfold Qle. simpl. lia. }
  destruct r as [|c f]; [done|].
  destruct (Ascii.eqb_spec c ".") as [->|Hc]; [apply Hfr|].
  destruct c as [[] [] [] [] [] [] [] []]; try exact Hint. done.
Qed.

Lemma parseSize_nonneg (s : string) : (0 <= StorageUtils.parseSize s)%Q.
Proof.
  unfold StorageUtils.parseSize.
  destruct (StorageUtils.sizePattern s) as [[m1 m2]|]; [|done].
  rewrite Qred_correct. apply Qmult_le_0_compat; [apply parseFloat_nonneg|].
  unfold StorageUtils.units. repeat case_match; done.
Qed.

Lemma sum_from (acc : Z) (l : list Z) : foldl Z.add acc l = acc + Js.sum l.
Proof.
  unfold Js.sum. revert acc. induction l as [|x l IH]; intros acc; simpl; [lia|].
  rewrite (IH (acc + x)), (IH (0 + x)). lia.
Qed.

Lemma sum_app (l1 l2 : list Z) : Js.sum (l1 ++ l2) = Js.sum l1 + Js.sum l2.
Proof. unfold Js.sum at 1. rewrite foldl_app. fold (Js.sum l1). apply sum_from. Qed.

Lemma calculatePercentage_range (used total : Q) :
  (0 <= used)%Q → (0 <= total)%Q →
  (0 <= StorageUtils.calculatePercentage used total
   ∧ StorageUtils.calculatePercentage used total <= 100)%Q.
Proof.
  intros Hu Ht. unfold StorageUtils.calculatePercentage.
  destruct (Qeq_bool total 0) eqn:E0; [done|].
  apply Qeq_bool_neq in E0.
  assert (0 < total)%Q as Hpos.
  { apply Qle_lteq in Ht as [?|E]; [done|]. by destruct E0. }
  destruct (Qle_bool _ 100) eqn:E.
  - split; [|by apply Qle_bool_iff].
    apply Qmult_le_0_compat; [|done].
    apply Qle_shift_div_l; [done|]. by rewrite Qmult_0_l.
  - done.
Qed.

(** X16.  The usage shown by the page for files of non-negative sizes is a
    percentage between 0 and 100, whatever the text of the limit; it is the
    exact ratio while the usage is within the limit, 100 beyond it, and 0
    when the limit does not parse. *)
Theorem usage_percentage (uploadedFiles : list Z) (maxTotalUploads : string) :
  Forall (λ size, 0 ≤ size) uploadedFiles →
  let info := Page.calculateStorageUsage uploadedFiles maxTotalUploads in
  (0 <= Page.percentage info ∧ Page.percentage info <= 100)%Q
  ∧ ((0 < Page.total info)%Q →
     (inject_Z (Page.used info) <= Page.total info)%Q →
     (Page.percentage info == inject_Z (Page.used info) / Page.total info * 100)%Q)
  ∧ ((0 < Page.total info)%Q →
     (Page.total info <= inject_Z (Page.used info))%Q →
     (Page.percentage info == 100)%Q)
  ∧ (StorageUtils.sizePattern maxTotalUploads = None →
     Page.percentage info = 0%Q).
Proof.
  intros Hsizes info.
  assert (Hused : 0 ≤ Js.sum uploadedFiles).
  { clear info. induction Hsizes as [|x l Hx _ IH]; [done|].
    change (x :: l) with ([x] ++ l). rewrite sum_app.
    unfold Js.sum at 1. simpl. lia. }
  pose proof (parseSize_nonneg maxTotalUploads) as Htotal.
  subst info. unfold Page.calculateStorageUsage.
  cbn [Page.percentage Page.total Page.used].
  split; [|split; [|split]].
  - apply calculatePercentage_range; [|done]. unfold Qle. simpl. lia.
  - intros Hpos Hle. unfold StorageUtils.calculatePercentage.
    destruct (Qeq_bool _ 0) eqn:E0.
    { apply Qeq_bool_iff in E0. rewrite E0 in Hpos. by apply Qlt_irrefl in Hpos. }
    destruct (Qle_bool _ 100) eqn:E; [done|].
    exfalso. apply not_true_iff_false in E. apply E, Qle_bool_iff.
    apply Qle_trans with (1 * 100)%Q; [|done].
    apply Qmult_le_compat_r; [|done].
    apply Qle_shift_div_r; [done|]. by rewrite Qmult_1_l.
  - intros Hpos Hle. unfold StorageUtils.calculatePercentage.
    destruct (Qeq_bool _ 0) eqn:E0.
    { apply Qeq_bool_iff in E0. rewrite E0 in Hpos. by apply Qlt_irrefl in Hpos. }
    destruct (Qle_bool _ 100) eqn:E; [|done].
    apply Qle_bool_iff in E. apply Qle_antisym; [done|].
    apply Qle_trans with (1 * 100)%Q; [done|].
    apply Qmult_le_compat_r; [|done].
    apply Qle_shift_div_l; [done|]. by rewrite Qmult_1_l.
  - intros Hno. unfold StorageUtils.parseSize. rewrite Hno. reflexivity.
Qed.

Lemma usage_percentage_witness :
  let some := Page.calculateStorageUsage [1048576; 1048576] "8MB" in
  let none := Page.calculateStorageUsage [5; 7] "ten gigabytes" in
  (Page.percentage some == 25)%Q ∧ Page.percentage none = 0%Q.
Proof.
  intros some none. split.
  - destruct (usage_percentage [1048576; 1048576] "8MB") as (_ & H & _);
      [repeat constructor; lia|].
    unfold some. rewrite H; vm_compute; (reflexivity || discriminate).
  - destruct (usage_percentage [5; 7] "ten gigabytes") as (_ & _ & _ & H);
      [repeat constructor; lia|].
    apply H. reflexivity.
Defined.

(** X17.  The colour of the storage bar and the text of the sidebar change
    at the same percentages: 90, 75 and 50. *)
Theorem status_colour_and_text (percentage : Q) :
  ((90 <= percentage)%Q →
     StorageUtils.getStorageStatusColor percentage = "from-red-500 to-red-600"
     ∧ Sidebar.getStorageStatusText percentage = "Critical")
  ∧ ((75 <= percentage)%Q → (percentage < 90)%Q →
     StorageUtils.getStorageStatusColor percentage
     = "from-yellow-500 to-yellow-600"
     ∧ Sidebar.getStorageStatusText percentage = "Warning")
  ∧ ((50 <= percentage)%Q → (percentage < 75)%Q →
     StorageUtils.getStorageStatusColor percentage
     = "from-orange-500 to-orange-600"
     ∧ Sidebar.getStorageStatusText percentage = "Moderate")
  ∧ ((percentage < 50)%Q →
     StorageUtils.getStorageStatusColor percentage
     = "from-green-500 to-green-600"
     ∧ Sidebar.getStorageStatusText percentage = "Good").
Proof.
  unfold StorageUtils.getStorageStatusColor, Sidebar.getStorageStatusText.
  destruct (Qle_bool 90 percentage) eqn:E90;
    [apply Qle_bool_iff in E90|apply not_true_iff_false in E90;
       rewrite Qle_bool_iff in E90; apply Qnot_le_lt in E90];
  (destruct (Qle_bool 75 percentage) eqn:E75;
    [apply Qle_bool_iff in E75|apply not_true_iff_false in E75;
       rewrite Qle_bool_iff in E75; apply Qnot_le_lt in E75]);
  (destruct (Qle_bool 50 percentage) eqn:E50;
    [apply Qle_bool_iff in E50|apply not_true_iff_false in E50;
       rewrite Qle_bool_iff in E50; apply Qnot_le_lt in E50]);
  repeat split; intros;
    repeat match goal with
    | H1 : (?a <= ?p)%Q, H2 : (?p < ?b)%Q |- _ =>
        exfalso; apply (Qlt_irrefl a);
        apply (Qle_lt_trans _ _ _ H1), (Qlt_trans _ _ _ H2); reflexivity
    | H1 : (?a <= ?p)%Q, H2 : (?p < ?a)%Q |- _ =>
        exfalso; apply (Qlt_irrefl a), (Qle_lt_trans _ _ _ H1 H2)
    end; try done.
Qed.

Lemma status_colour_and_text_witness :
  StorageUtils.getStorageStatusColor 95 = "from-red-500 to-red-600"
  ∧ Sidebar.getStorageStatusText 95 = "Critical".
Proof.
  destruct (status_colour_and_text 95) as (H & _).
  apply H. vm_compute. discriminate.
Defined.

(** X18.  An upload that the limit check of the page allows fits: with the
    new files the usage stays within the limit that was parsed and the
    number of files within the count that was parsed.  A limit text that
    does not parse is a limit of 0 bytes, which blocks every upload that
    has bytes; a count text that does not parse is no limit at all. *)
Theorem allowed_upload_fits (uploadedFiles newFiles : list Z)
    (maxTotalUploads maxFilesCount : string) :
  let check :=
    Page.checkUploadLimits uploadedFiles newFiles maxTotalUploads maxFilesCount in
  let after :=
    Page.calculateStorageUsage (uploadedFiles ++ newFiles) maxTotalUploads in
  (check = Page.Allowed →
     (inject_Z (Page.used after) <= Page.total after)%Q
     ∧ ∀ maxFiles, Js.parseInt maxFilesCount = Js.Num maxFiles →
                   Page.fileCount after ≤ maxFiles)
  ∧ (StorageUtils.sizePattern maxTotalUploads = None →
     0 < Js.sum uploadedFiles + Js.sum newFiles →
     check ≠ Page.Allowed)
  ∧ (Js.parseInt maxFilesCount = Js.NaN →
     (inject_Z (Js.sum uploadedFiles + Js.sum newFiles)
      <= StorageUtils.parseSize maxTotalUploads)%Q →
     check = Page.Allowed).
Proof.
  intros check after. subst check after.
  unfold Page.checkUploadLimits, Page.calculateStorageUsage.
  cbn [Page.used Page.total Page.fileCount]. rewrite sum_app, length_app.
  split; [|split].
  - destruct (Js.lt _ _) eqn:Ecount; [done|].
    destruct (Qle_bool _ _) eqn:Esize; [|done]. intros _.
    split; [by apply Qle_bool_iff|].
    intros maxFiles Hmax. rewrite Hmax in Ecount. simpl in Ecount. lia.
  - intros Hno Hbytes. unfold StorageUtils.parseSize. rewrite Hno.
    destruct (Js.lt _ _); [done|].
    destruct (Qle_bool _ 0) eqn:Esize; [|done].
    apply Qle_bool_iff in Esize. unfold Qle in Esize. simpl in Esize. lia.
  - intros Hnan Hfits. rewrite Hnan. cbn [Js.lt].
    apply Qle_bool_iff in Hfits. by rewrite Hfits.
Qed.

Lemma allowed_upload_fits_witness :
  let after := Page.calculateStorageUsage ([1048576] ++ [1048576]) "8MB" in
  (inject_Z (Page.used after) <= Page.total after)%Q
  ∧ Page.checkUploadLimits [] [1] "unlimited" "1000" ≠ Page.Allowed
  ∧ Page.checkUploadLimits [1; 2; 3] [4] "8MB" "many" = Page.Allowed.
Proof.
  intros after. split; [|split].
  - destruct (allowed_upload_fits [1048576] [1048576] "8MB" "1000") as (H & _).
    apply H. reflexivity.
  - destruct (allowed_upload_fits [] [1] "unlimited" "1000") as (_ & H & _).
    apply H; [reflexivity|]. vm_compute. reflexivity.
  - destruct (allowed_upload_fits [1; 2; 3] [4] "8MB" "many") as (_ & _ & H).
    apply H; [reflexivity|]. vm_compute. discriminate.
Defined.

(** ** The type of a listed file *)

Lemma last_segment (stem ext : string) :
  noDot ext = true →
  (Js.pop (Js.split "." (stem +:+ "." +:+ ext))).1 = ext
  ∧ (Js.pop (Js.split "." ext)).1 = ext.
Proof.
  intros Hext. unfold Js.pop. cbn [fst].
  change ("." +:+ ext) with (String "." ext).
  rewrite split_app, (split_none "." ext Hext). split; [|done].
  by rewrite last_last.
Qed.

Lemma lower_lower (c : ascii) : Js.lower (Js.lower c) = Js.lower c.
Proof. destruct c as [[] [] [] [] [] [] [] []]; reflexivity. Qed.

Lemma toLowerCase_idem (s : string) :
  Js.toLowerCase (Js.toLowerCase s) = Js.toLowerCase s.
Proof.
  unfold Js.toLowerCase. induction s as [|c s IH]; [done|].
  simpl. by rewrite lower_lower, IH.
Qed.

Lemma lower_dot (c : ascii) : Ascii.eqb (Js.lower c) "." = Ascii.eqb c ".".
Proof. destruct c as [[] [] [] [] [] [] [] []]; reflexivity. Qed.

Lemma toLowerCase_noDot (s : string) : noDot (Js.toLowerCase s) = noDot s.
Proof.
  unfold noDot, Js.toLowerCase. induction s as [|c s IH]; [done|].
  simpl. by rewrite lower_dot, IH.
Qed.

(** X19.  The type of a listed file is decided by the text after its last
    point, whatever the letter case; a name without a point is taken as a
    whole for its extension. *)
Theorem file_type_by_extension (stem ext : string) :
  noDot ext = true →
  FilesRoute.getFileType (stem +:+ "." +:+ ext) = FilesRoute.getFileType ext
  ∧ FilesRoute.getFileType ext = FilesRoute.getFileType (Js.toLowerCase ext).
Proof.
  intros Hext. unfold FilesRoute.getFileType.
  destruct (last_segment stem ext Hext) as [-> ->].
  destruct (last_segment "" (Js.toLowerCase ext)) as [_ ->];
    [by rewrite toLowerCase_noDot|].
  by rewrite toLowerCase_idem.
Qed.

Lemma file_type_by_extension_witness :
  FilesRoute.getFileType "holiday.2024.JPG" = "image/*"
  ∧ FilesRoute.getFileType "pdf" = "application/pdf".
Proof.
  split.
  - destruct (file_type_by_extension "holiday.2024" "JPG") as [H _];
      [reflexivity|]. etrans; [exact H|reflexivity].
  - destruct (file_type_by_extension "" "pdf") as [_ H]; [reflexivity|].
    etrans; [exact H|reflexivity].
Defined.

(** ** The listing *)

Lemma insertSorted_perm (x : FilesRoute.listed) (l : list FilesRoute.listed) :
  Js.insertSorted FilesRoute.byDate x l ≡ₚ x :: l.
Proof.
  induction l as [|y l IH]; [done|]. simpl.
  destruct (0 <? FilesRoute.byDate x y); [|done].
  rewrite IH. apply Permutation_swap.
Qed.

Lemma sort_perm (l : list FilesRoute.listed) :
  Js.sort FilesRoute.byDate l ≡ₚ l.
Proof.
  unfold Js.sort. induction l as [|x l IH]; [done|]. simpl.
  by rewrite insertSorted_perm, IH.
Qed.

Lemma insertSorted_newestFirst (x : FilesRoute.listed)
    (l : list FilesRoute.listed) :
  newestFirst l → newestFirst (Js.insertSorted FilesRoute.byDate x l).
Proof.
  induction l as [|y l IH]; [by repeat constructor|].
  intros [Hy Hl]. cbn [Js.insertSorted]. unfold FilesRoute.byDate at 1.
  destruct (0 <? _) eqn:E.
  - split; [|by apply IH].
    rewrite insertSorted_perm. constructor; [lia|done].
  - split; [|done]. constructor; [lia|].
    eapply Forall_impl; [exact Hy|]. simpl. intros g Hg. lia.
Qed.

Lemma sort_newestFirst (l : list FilesRoute.listed) :
  newestFirst (Js.sort FilesRoute.byDate l).
Proof.
  unfold Js.sort. induction l as [|x l IH]; [done|].
  by apply insertSorted_newestFirst.
Qed.

Lemma insertSorted_stable (t : Z) (x : FilesRoute.listed)
    (l : list FilesRoute.listed) :
  filter (λ f, FilesRoute.l_uploadedAt f = t)
    (Js.insertSorted FilesRoute.byDate x l)
  = filter (λ f, FilesRoute.l_uploadedAt f = t) (x :: l).
Proof.
  induction l as [|y l IH]; [done|]. cbn [Js.insertSorted].
  unfold FilesRoute.byDate at 1. destruct (0 <? _) eqn:E; [|done].
  rewrite filter_cons, IH, !filter_cons.
  repeat case_decide; try done. lia.
Qed.

Lemma sort_stable (t : Z) (l : list FilesRoute.listed) :
  filter (λ f, FilesRoute.l_uploadedAt f = t) (Js.sort FilesRoute.byDate l)
  = filter (λ f, FilesRoute.l_uploadedAt f = t) l.
Proof.
  unfold Js.sort. induction l as [|x l IH]; [done|]. simpl.
  rewrite insertSorted_stable, !filter_cons. by rewrite IH.
Qed.

Lemma listed_names (sp : string) (items : list FilesRoute.dirent) :
  FilesRoute.l_name <$> omap (FilesRoute.listedFile sp) items
  = FilesRoute.d_name <$> filter (λ item, isListed item = true) items.
Proof.
  induction items as [|item items IH]; [done|].
  cbn [omap list_omap]. rewrite filter_cons.
  assert (H : (FilesRoute.listedFile sp item = None ∧ isListed item = false)
              ∨ ∃ f, FilesRoute.listedFile sp item = Some f
                     ∧ FilesRoute.l_name f = FilesRoute.d_name item
                     ∧ isListed item = true).
  { unfold FilesRoute.listedFile, isListed.
    destruct (FilesRoute.d_isFile item); [|by left].
    destruct (FilesRoute.d_stat item) as [st|].
    - right. eexists. split; [done|]. split; [done|].
      by rewrite bool_decide_true by (by eexists).
    - left. split; [done|]. by rewrite bool_decide_false by (by intros [? ?]). }
  destruct H as [[-> E]|(f & -> & Hf & E)]; case_decide; try congruence.
  cbn [fmap list_fmap]. rewrite Hf. f_equal. exact IH.
Qed.

(** X20.  The listing of a directory that can be read reports exactly the
    regular files whose [stat] resolves, each once, the newest first;
    files of the same date stay in the order of the directory; [count] is
    their number.  Every record has the sanitized path in front of its name
    and the size formatted by [formatSize]; other entries are left out
    without an error.  A directory that does not exist is listed as empty. *)
Theorem listing_newest_first (path : option string)
    (items : list FilesRoute.dirent) :
  let sanitizedPath := Route.sanitize (effectivePath (default "" path)) in
  let pushed := omap (FilesRoute.listedFile sanitizedPath) items in
  ∃ files,
    FilesRoute.GET path (FilesRoute.Entries items)
    = FilesRoute.Listing files sanitizedPath (Z.of_nat (length files))
    ∧ files ≡ₚ pushed
    ∧ FilesRoute.l_name <$> pushed
      = FilesRoute.d_name <$> filter (λ item, isListed item = true) items
    ∧ newestFirst files
    ∧ (∀ t, filter (λ f, FilesRoute.l_uploadedAt f = t) files
            = filter (λ f, FilesRoute.l_uploadedAt f = t) pushed)
    ∧ Forall (λ f, FilesRoute.l_path f
                   = sanitizedPath +:+ "/" +:+ FilesRoute.l_name f
                   ∧ FilesRoute.l_sizeFormatted f
                     = StorageUtils.formatSize (FilesRoute.l_size f)
                   ∧ FilesRoute.l_type f
                     = FilesRoute.getFileType (FilesRoute.l_name f)) files
    ∧ FilesRoute.GET path FilesRoute.ENOENT
      = FilesRoute.Listing [] sanitizedPath 0.
Proof.
  intros sanitizedPath pushed.
  assert (Hpath : Route.sanitize
                    match path with
                    | Some p => if String.eqb p "" then "/" else p
                    | None => "/"
                    end = sanitizedPath).
  { unfold sanitizedPath, effectivePath. by destruct path. }
  exists (Js.sort FilesRoute.byDate pushed).
  unfold FilesRoute.GET. rewrite Hpath. fold pushed.
  split; [done|]. split; [apply sort_perm|]. split; [apply listed_names|].
  split; [apply sort_newestFirst|]. split; [intros t; apply sort_stable|].
  split; [|done].
  rewrite sort_perm. unfold pushed. clear.
  induction items as [|item items IH]; [constructor|].
  cbn [omap list_omap]. unfold FilesRoute.listedFile at 1.
  destruct (FilesRoute.d_isFile item); [|exact IH].
  destruct (FilesRoute.d_stat item); [|exact IH].
  constructor; [done|exact IH].
Qed.

(** ** The delete route *)

(** X21.  A delete request touches at most one file, the one at its
    sanitized path, which holds no ".."; it answers with the deleted path
    exactly when that file exists, can be reached and can be unlinked, and
    then the file is gone; in every other case the storage is as it was.  A
    path that names nothing is answered 404, a request without a path
    400. *)
Theorem delete_removes_only_its_target (e : FilesRoute.deleteEnv)
    (fs : gmap string (list Byte.byte)) (filePath : string) :
  let run := FilesRoute.DELETE e fs (Some filePath) in
  let target := deleteTarget filePath in
  contains ".." (Route.sanitize filePath) = false
  ∧ (∀ p, p ≠ target → run.1 !! p = fs !! p)
  ∧ ((filePath ≠ "" ∧ is_Some (fs !! target)
      ∧ FilesRoute.accessOk e = true ∧ FilesRoute.unlinkOk e = true)
     → run = (delete target fs, FilesRoute.Deleted (Route.sanitize filePath)))
  ∧ (∀ deletedPath, run.2 = FilesRoute.Deleted deletedPath →
       filePath ≠ "" ∧ is_Some (fs !! target) ∧ run.1 !! target = None)
  ∧ (∀ status error, run.2 = FilesRoute.DeleteError status error → run.1 = fs)
  ∧ (filePath ≠ "" → fs !! target = None → FilesRoute.isDirectory e = false →
     run.2 = FilesRoute.DeleteError 404 "File not found or not accessible")
  ∧ (FilesRoute.DELETE e fs None).2
    = FilesRoute.DeleteError 400 "File path is required"
  ∧ (FilesRoute.DELETE e fs (Some "")).2
    = FilesRoute.DeleteError 400 "File path is required".
Proof.
  intros run target. subst run. unfold FilesRoute.DELETE.
  fold (deleteTarget filePath). fold target.
  split; [apply sanitize_no_dotdot|].
  destruct (String.eqb_spec filePath "") as [->|Hne].
  { repeat split; try done. by intros [? _]. }
  unfold Route.unlink, Route.existsSync.
  destruct (fs !! target) as [data|] eqn:Hin.
  - rewrite bool_decide_true by (by eexists). cbn [orb].
    destruct (FilesRoute.accessOk e), (FilesRoute.unlinkOk e); cbn [negb andb];
      repeat split; try done; try (by intros (_ & _ & ? & ?));
      try (intros p Hp; cbn [fst]; by rewrite lookup_delete_ne);
      try (by eexists); try (cbn [fst]; by rewrite lookup_delete_eq).
  - rewrite bool_decide_false by (by intros [? ?]). cbn [orb].
    destruct (FilesRoute.accessOk e), (FilesRoute.isDirectory e),
      (FilesRoute.unlinkOk e); cbn [negb andb];
      repeat split; try done; try (by intros (_ & [? ?] & _)).
Qed.

Lemma delete_removes_only_its_target_witness :
  let fs : gmap string (list Byte.byte) :=
    {[ "/mnt/nas/storage//docs/a.txt" := [Byte.x61];
       "/mnt/nas/storage//docs/b.txt" := [Byte.x62] ]} in
  FilesRoute.DELETE calmDelete fs (Some "/docs/../a.txt")
  = ({[ "/mnt/nas/storage//docs/b.txt" := [Byte.x62] ]},
     FilesRoute.Deleted "/docs/a.txt").
Proof.
  intros fs.
  destruct (delete_removes_only_its_target calmDelete fs "/docs/../a.txt")
    as (_ & _ & H & _).
  rewrite H; [reflexivity|].
  split; [done|]. split; [by eexists|done].
Defined.


(** ** The path of a record and the file it names *)

Example path_samples :
  Path.join ["/mnt/nas/storage"; "/"] = "/mnt/nas/storage/"
  ∧ Path.join ["/mnt/nas/storage/"; "a.txt"] = "/mnt/nas/storage/a.txt"
  ∧ Path.join ["/mnt/nas/storage"; ""] = "/mnt/nas/storage"
  ∧ Path.join ["/docs"; "..../../b.txt"] = "/docs/b.txt"
  ∧ Path.join ["/a"; "../../b"] = "/b"
  ∧ Path.normalize "a/../../b/./c/" = "../b/c/"
  ∧ Path.normalize "./" = "./"
  ∧ Path.join [""; ""] = ".".
Proof. vm_compute. repeat split. Qed.

Lemma trailingSeparator_app (a b : string) :
  b ≠ "" → Path.trailingSeparator (a +:+ b) = Path.trailingSeparator b.
Proof.
  intros Hb. induction a as [|c a IH]; [done|].
  rewrite str_app_cons. cbn [Path.trailingSeparator].
  destruct (a +:+ b) eqn:E; [|done].
  destruct a; [by rewrite str_app_empty_l in E|done].
Qed.

Lemma trailingSeparator_collapse (x : string) :
  ∀ b pre, (b = true → Path.trailingSeparator pre = true) →
    Path.trailingSeparator (pre +:+ Route.collapseSlashes b x)
    = Path.trailingSeparator (pre +:+ x).
Proof.
  induction x as [|c r IH]; intros b pre Hb; [done|].
  cbn [Route.collapseSlashes].
  destruct (Ascii.eqb_spec c "/") as [->|Hc].
  - replace (pre +:+ String "/" r) with ((pre +:+ "/") +:+ r)
      by (by rewrite str_app_assoc).
    rewrite <-(IH true (pre +:+ "/")) by (intros _; by apply trailingSeparator_app).
    destruct b.
    + destruct (Route.collapseSlashes true r) as [|d y] eqn:E.
      * rewrite !str_app_empty_r, (Hb eq_refl). symmetry.
        by apply trailingSeparator_app.
      * by rewrite !trailingSeparator_app.
    + by rewrite str_app_assoc.
  - replace (pre +:+ String c r) with ((pre +:+ String c "") +:+ r)
      by (by rewrite str_app_assoc).
    rewrite <-(IH false (pre +:+ String c "")) by done.
    by rewrite str_app_assoc.
Qed.

Lemma split_collapse (f : string → bool) (x : string) :
  f "" = false →
  ∀ b s0, Js.allb (λ c, negb (Ascii.eqb c "/")) s0 = true →
    (b = true → s0 = "") →
    List.filter f (Js.split "/" (s0 +:+ Route.collapseSlashes b x))
    = List.filter f (Js.split "/" (s0 +:+ x)).
Proof.
  intros Hf. induction x as [|c r IH]; intros b s0 Hs0 Hb; [done|].
  cbn [Route.collapseSlashes].
  destruct (Ascii.eqb_spec c "/") as [->|Hc].
  - rewrite (split_app "/" s0 r), List.filter_app.
    pose proof (IH true "" eq_refl (λ _, eq_refl)) as IH'.
    rewrite !str_app_empty_l in IH'. rewrite <-IH'.
    destruct b.
    + rewrite (Hb eq_refl), str_app_empty_l. simpl. by rewrite Hf.
    + by rewrite (split_app "/" s0 _), List.filter_app.
  - replace (s0 +:+ String c r) with ((s0 +:+ String c "") +:+ r)
      by (by rewrite str_app_assoc).
    rewrite <-(IH false (s0 +:+ String c "")).
    + by rewrite str_app_assoc.
    + rewrite allb_app, Hs0. simpl.
      by destruct (Ascii.eqb_spec c "/").
    + done.
Qed.

Lemma collapseSlashes_nonempty (x : string) :
  x ≠ "" → Route.collapseSlashes false x ≠ "".
Proof.
  destruct x as [|c r]; [done|]. intros _. cbn [Route.collapseSlashes].
  by destruct (Ascii.eqb c "/").
Qed.

(** A segment of a path is a part of its text. *)
Lemma split_head (sep : ascii) (s : string) :
  ∃ p ps, Js.split sep s = p :: ps ∧ startsWith p s = true.
Proof.
  induction s as [|c s (p & ps & E & Hp)]; [by exists "", []|].
  simpl. destruct (Ascii.eqb c sep); [by exists "", (Js.split sep s)|].
  rewrite E. exists (String c p), ps. split; [done|].
  cbn [startsWith]. by rewrite Ascii.eqb_refl.
Qed.

Lemma segment_contained (sep : ascii) (x s : string) :
  x ∈ Js.split sep s → contains x s = true.
Proof.
  induction s as [|c s IH]; cbn [Js.split].
  - intros ->%list_elem_of_singleton. done.
  - rewrite contains_cons. destruct (Ascii.eqb c sep).
    + intros [->|H]%elem_of_cons; [done|].
      rewrite IH by done. apply orb_true_r.
    + destruct (split_head sep s) as (p & ps & E & Hp). rewrite E in *.
      intros [->|H]%elem_of_cons.
      * cbn [startsWith]. by rewrite Ascii.eqb_refl, Hp.
      * rewrite IH; [apply orb_true_r|]. by right.
Qed.

Lemma contains_joined (a b : string) :
  contains ".." a = false → contains ".." b = false →
  contains ".." (a +:+ "/" +:+ b) = false.
Proof.
  intros Ha Hb. change ("/" +:+ b) with (String "/" b).
  induction a as [|c a IH].
  - rewrite str_app_empty_l. by rewrite contains_cons, Hb.
  - pose proof (contains_tail _ _ _ Ha) as Ha'.
    rewrite contains_cons in Ha. apply orb_false_iff in Ha as [Hc _].
    rewrite str_app_cons, contains_cons, (IH Ha'), orb_false_r.
    rewrite startsWith_two in *.
    destruct (Ascii.eqb "." c); [|done]. cbn [andb] in *.
    destruct a as [|d a]; [done|].
    rewrite str_app_cons. by rewrite startsWith_one in *.
Qed.

(** Without a ".." among the segments, [normalizeString] keeps the segments
    that are neither empty nor ".", in their order. *)
Lemma normalizeSegments_plain (allowAboveRoot : bool) (segments : list string) :
  ∀ res, ".." ∉ segments →
    foldl (Path.normalizeSegment allowAboveRoot) res segments
    = rev (List.filter keptSegment segments) ++ res.
Proof.
  induction segments as [|s segments IH]; intros res Hno; [done|].
  apply not_elem_of_cons in Hno as [Hs Hno].
  cbn [foldl List.filter]. rewrite IH by done.
  unfold Path.normalizeSegment, keptSegment.
  destruct (String.eqb s "" || String.eqb s "."); [done|].
  apply not_eq_sym, String.eqb_neq in Hs. rewrite Hs. cbn [negb rev].
  by rewrite <-(assoc_L (++)).
Qed.

Lemma join_kept_nonempty (segments : list string) :
  Forall (λ s, s ≠ "") segments → segments ≠ [] → Js.join "/" segments ≠ "".
Proof.
  intros Hall Hne. destruct segments as [|s [|t rest]]; [done| |].
  - simpl. by inversion Hall.
  - rewrite join_cons by done. inversion Hall as [|? ? Hs _]; subst.
    by destruct s.
Qed.

Lemma plainSegments_nonempty (path : string) :
  Forall (λ s, s ≠ "") (plainSegments path).
Proof.
  unfold plainSegments. rewrite Forall_forall. intros s Hs.
  apply list_elem_of_In, List.filter_In in Hs as [_ Hs].
  unfold keptSegment in Hs. by intros ->.
Qed.

(** The normal form of an absolute path without ".." segments. *)
Lemma normalize_plain (path : string) :
  startsWith "/" path = true → ".." ∉ Js.split "/" path →
  Path.normalize path
  = match plainSegments path with
    | [] => "/"
    | segments =>
        "/" +:+ Js.join "/" segments
        +:+ (if Path.trailingSeparator path then "/" else "")
    end.
Proof.
  intros Habs Hno. unfold Path.normalize, Path.normalizeString.
  destruct (String.eqb_spec path "") as [->|_]; [done|].
  rewrite Habs. cbn [negb].
  rewrite normalizeSegments_plain, app_nil_r, rev_involutive by done.
  fold (plainSegments path).
  pose proof (plainSegments_nonempty path) as Hall.
  destruct (plainSegments path) as [|s rest] eqn:E; [done|].
  pose proof (join_kept_nonempty (s :: rest) Hall ltac:(done)) as Hne.
  apply String.eqb_neq in Hne. by rewrite Hne.
Qed.

Lemma split_join (segments : list string) :
  Forall (λ s, Js.allb (λ c, negb (Ascii.eqb c "/")) s = true) segments →
  segments ≠ [] → Js.split "/" (Js.join "/" segments) = segments.
Proof.
  induction segments as [|s rest IH]; [done|]. intros Hall _.
  inversion Hall as [|? ? Hs Hrest]; subst.
  destruct rest as [|t rest]; [by apply split_none|].
  rewrite join_cons by done.
  change ("/" +:+ Js.join "/" (t :: rest)) with (String "/" (Js.join "/" (t :: rest))).
  rewrite split_app, (split_none "/" s Hs), IH by done. done.
Qed.

Lemma plainPath_join (a b : string) (ka kb : list string) :
  plainPath a ka → ".." ∉ Js.split "/" b → plainSegments b = kb →
  plainPath (a +:+ "/" +:+ b) (ka ++ kb).
Proof.
  intros (Habs & Hno & Hk) Hnob Hkb.
  change ("/" +:+ b) with (String "/" b). split; [|split].
  - destruct a as [|c a]; [done|]. by rewrite str_app_cons.
  - rewrite split_app, not_elem_of_app. by split.
  - unfold plainSegments in *. by rewrite split_app, List.filter_app, Hk, Hkb.
Qed.

Lemma plainPath_normalize (path : string) (kept : list string) :
  plainPath path kept → kept ≠ [] → plainPath (Path.normalize path) kept.
Proof.
  intros (Habs & Hno & Hk) Hne.
  pose proof (split_segments "/" path) as Hseg.
  assert (Hkept : Forall (λ s, Js.allb (λ c, negb (Ascii.eqb c "/")) s = true
                              ∧ keptSegment s = true ∧ s ≠ "..") kept).
  { rewrite <-Hk. unfold plainSegments. rewrite Forall_forall in *.
    intros s Hs. apply list_elem_of_In, List.filter_In in Hs as [Hin Hs].
    apply list_elem_of_In in Hin. split; [by apply Hseg|]. split; [done|].
    by intros ->. }
  assert (Hfilter : List.filter keptSegment kept = kept).
  { clear -Hkept. induction Hkept as [|s rest (_ & Hs & _) _ IH]; [done|].
    simpl. by rewrite Hs, IH. }
  assert (Hsplit : Js.split "/" (Js.join "/" kept) = kept).
  { apply split_join; [|done]. eapply Forall_impl; [exact Hkept|]. by intros s [? _]. }
  assert (Hnokept : ".." ∉ kept).
  { rewrite Forall_forall in Hkept. intros Hin. by destruct (Hkept _ Hin) as (_ & _ & ?). }
  rewrite normalize_plain by done. rewrite Hk.
  destruct kept as [|s rest] eqn:E; [done|]. rewrite <-E in *.
  split; [done|].
  destruct (Path.trailingSeparator path).
  - change ("/" +:+ Js.join "/" kept +:+ "/")
      with (String "/" (Js.join "/" kept +:+ String "/" "")).
    unfold plainSegments. cbn [Js.split]. rewrite Ascii.eqb_refl.
    rewrite split_app, Hsplit. cbn [Js.split]. split.
    + rewrite not_elem_of_cons, not_elem_of_app, not_elem_of_cons.
      repeat split; try done. apply not_elem_of_nil.
    + cbn [List.filter]. rewrite List.filter_app, Hfilter. cbn.
      by rewrite app_nil_r.
  - rewrite str_app_empty_r.
    change ("/" +:+ Js.join "/" kept) with (String "/" (Js.join "/" kept)).
    unfold plainSegments. cbn [Js.split]. rewrite Ascii.eqb_refl, Hsplit. split.
    + rewrite not_elem_of_cons. by split.
    + cbn [List.filter]. by rewrite Hfilter.
Qed.

(** Two plain paths with the same segments kept and the same trailing
    separator are one path for the file system. *)
Lemma plainPath_same (p q : string) (kept : list string) :
  plainPath p kept → plainPath q kept →
  Path.trailingSeparator p = Path.trailingSeparator q →
  Path.normalize p = Path.normalize q.
Proof.
  intros (Hp1 & Hp2 & Hp3) (Hq1 & Hq2 & Hq3) Ht.
  by rewrite !normalize_plain, Hp3, Hq3, Ht.
Qed.

Lemma join_two (a b : string) :
  a ≠ "" → b ≠ "" → Path.join [a; b] = Path.normalize (a +:+ "/" +:+ b).
Proof.
  intros Ha%String.eqb_neq Hb%String.eqb_neq. unfold Path.join.
  cbn [List.filter]. by rewrite Ha, Hb.
Qed.

Lemma no_dotdot_segment (path : string) :
  contains ".." path = false → ".." ∉ Js.split "/" path.
Proof. intros H Hin. apply segment_contained in Hin. congruence. Qed.

(** X22.  The path of a record names the file that was written.  A file
    uploaded whole is written at [join(join(STORAGE_PATH, sanitizedPath),
    uniqueFileName)]; a delete request that carries the path of its record
    looks at [join(STORAGE_PATH, sanitized record path)].  When the
    generated name holds no "..", the two are the same path, for every
    destination, the default "/" and destinations with a trailing slash
    included.  The two keys of the model, which are the texts before
    normalization, are spellings of that path. *)
Theorem record_path_names_the_stored_file (e : Route.env) (file : Route.File)
    (uploadPath : string) :
  let sanitizedPath := Route.sanitize uploadPath in
  let uniqueFileName :=
    Route.generatedName (Route.f_name file) (Route.now e) (Route.random e) in
  let reported := Route.r_path (Route.wholeRecord e file sanitizedPath) in
  let written :=
    Path.join [Path.join [Route.STORAGE_PATH; sanitizedPath]; uniqueFileName] in
  let deleted := Path.join [Route.STORAGE_PATH; Route.sanitize reported] in
  contains ".." uniqueFileName = false →
  deleted = written
  ∧ written
    = Path.normalize (Route.pathJoin (directoryOf uploadPath) uniqueFileName)
  ∧ deleted = Path.normalize (deleteTarget reported).
Proof.
  intros sp name reported written deleted Hname.
  set (root := ["mnt"; "nas"; "storage"]).
  set (kept := root ++ plainSegments sp ++ plainSegments name).
  assert (Hroot : plainPath Route.STORAGE_PATH root).
  { split; [done|]. split; [by apply no_dotdot_segment|done]. }
  assert (Hsp : contains ".." sp = false) by apply sanitize_no_dotdot.
  assert (Hne : name ≠ "").
  { intros E. pose proof (generatedName_longer (Route.f_name file) (Route.now e)
                            (Route.random e)) as Hlen.
    fold name in Hlen. rewrite E in Hlen. simpl in Hlen. lia. }
  assert (Hrep : reported = sp +:+ "/" +:+ name) by done.
  assert (Hclean : contains ".." reported = false).
  { rewrite Hrep. by apply contains_joined. }
  assert (Hsan : Route.sanitize reported = Route.collapseSlashes false reported).
  { unfold Route.sanitize. by rewrite (removeDotDot_id (String.length reported)). }
  assert (Htail : ∀ a, Path.trailingSeparator (a +:+ "/" +:+ name)
                       = Path.trailingSeparator name).
  { intros a. rewrite <-str_app_assoc. by apply trailingSeparator_app. }
  (* the key of the upload *)
  assert (H1 : plainPath (Route.pathJoin (directoryOf uploadPath) name) kept).
  { unfold directoryOf, Route.pathJoin. fold sp. unfold kept.
    rewrite (assoc_L (++)). apply plainPath_join; [|by apply no_dotdot_segment|done].
    apply plainPath_join; [done|by apply no_dotdot_segment|done]. }
  (* the key of the delete request *)
  assert (H2 : plainPath (deleteTarget reported) kept).
  { unfold deleteTarget, Route.pathJoin. unfold kept.
    apply plainPath_join; [done|..].
    - apply no_dotdot_segment. rewrite Hsan.
      by apply collapseSlashes_keeps_clean.
    - rewrite Hsan. unfold plainSegments.
      pose proof (split_collapse keptSegment reported eq_refl false ""
                    eq_refl ltac:(done)) as Hc.
      rewrite !str_app_empty_l in Hc. rewrite Hc, Hrep.
      change ("/" +:+ name) with (String "/" name).
      by rewrite split_app, List.filter_app. }
  assert (Ht2 : Path.trailingSeparator (deleteTarget reported)
                = Path.trailingSeparator name).
  { unfold deleteTarget, Route.pathJoin. rewrite <-str_app_assoc.
    rewrite trailingSeparator_app, Hsan.
    - pose proof (trailingSeparator_collapse reported false "" ltac:(done)) as Hc.
      rewrite !str_app_empty_l in Hc. rewrite Hc, Hrep. apply Htail.
    - rewrite Hsan. apply collapseSlashes_nonempty. rewrite Hrep.
      intros E. apply (f_equal String.length) in E.
      rewrite !str_length_app in E. simpl in E. lia. }
  (* the directory the upload writes into *)
  set (dir := Path.join [Route.STORAGE_PATH; sp]).
  assert (Hdir : plainPath dir (root ++ plainSegments sp)).
  { unfold dir. destruct (String.eqb_spec sp "") as [E|E].
    - rewrite E. change (Path.join [Route.STORAGE_PATH; ""])
        with (Path.normalize Route.STORAGE_PATH).
      apply plainPath_normalize; [|done].
      change (plainSegments "") with (@nil string). by rewrite app_nil_r.
    - rewrite join_two by done. apply plainPath_normalize; [|done].
      apply plainPath_join; [done|by apply no_dotdot_segment|done]. }
  assert (Hd : dir ≠ "") by (destruct Hdir as [Habs _]; by destruct dir).
  assert (H3 : plainPath (dir +:+ "/" +:+ name) kept).
  { unfold kept. rewrite (assoc_L (++)).
    apply plainPath_join; [done|by apply no_dotdot_segment|done]. }
  assert (Hw : written = Path.normalize (dir +:+ "/" +:+ name)).
  { unfold written. fold dir. by apply join_two. }
  assert (Hdel : deleted = Path.normalize (deleteTarget reported)).
  { unfold deleted. rewrite join_two; [done|done|].
    rewrite Hsan. apply collapseSlashes_nonempty. rewrite Hrep.
    intros E. apply (f_equal String.length) in E.
    rewrite !str_length_app in E. simpl in E. lia. }
  split; [|split; [|done]].
  - rewrite Hdel, Hw. apply (plainPath_same _ _ kept); [done|done|].
    by rewrite Ht2, Htail.
  - rewrite Hw. apply (plainPath_same _ _ kept); [done|done|].
    unfold Route.pathJoin. by rewrite !Htail.
Qed.

Lemma record_path_names_the_stored_file_witness :
  let file :=
    {| Route.f_name := "notes.txt"; Route.f_type := "text/plain";
       Route.f_bytes := [Byte.x68; Byte.x69] |} in
  Route.r_path (Route.wholeRecord (calmEnv 1000) file (Route.sanitize "/"))
  = "//notes_1000_k3j9xq.txt"
  ∧ Path.join [Route.STORAGE_PATH; Route.sanitize "//notes_1000_k3j9xq.txt"]
    = Path.join [Path.join [Route.STORAGE_PATH; "/"]; "notes_1000_k3j9xq.txt"]
  ∧ Path.join [Path.join [Route.STORAGE_PATH; "/"]; "notes_1000_k3j9xq.txt"]
    = "/mnt/nas/storage/notes_1000_k3j9xq.txt".
Proof.
  intros file. split; [reflexivity|]. split; [|reflexivity].
  destruct (record_path_names_the_stored_file (calmEnv 1000) file "/")
    as [H _]; [reflexivity|].
  exact H.
Defined.

(** The points of a name decide: with ".." inside a word the record leads
    elsewhere, with ".." as a segment of its own it can still lead to the
    file. *)
Example record_paths_with_points :
  let inside := Route.generatedName "a..b.txt" 1000 "k3j9xq" in
  let segment := Route.generatedName "..../../b.txt" 1000 "k3j9xq" in
  Path.join [Path.join [Route.STORAGE_PATH; "/docs"]; inside]
  = "/mnt/nas/storage/docs/a..b_1000_k3j9xq.txt"
  ∧ Path.join [Route.STORAGE_PATH; Route.sanitize ("/docs" +:+ "/" +:+ inside)]
    = "/mnt/nas/storage/docs/ab_1000_k3j9xq.txt"
  ∧ Path.join [Path.join [Route.STORAGE_PATH; "/docs"]; segment]
    = "/mnt/nas/storage/docs/b_1000_k3j9xq.txt"
  ∧ Path.join [Route.STORAGE_PATH; Route.sanitize ("/docs" +:+ "/" +:+ segment)]
    = "/mnt/nas/storage/docs/b_1000_k3j9xq.txt".
Proof. vm_compute. repeat split. Qed.

(** ** Names that share their temp file *)

Lemma utf8_app (s t : string) :
  Route.utf8 (s +:+ t) = Route.utf8 s ++ Route.utf8 t.
Proof.
  induction s as [|c s IH]; [done|]. rewrite str_app_cons. simpl.
  rewrite IH. by destruct (_ <? _)%N.
Qed.

Lemma filter_app_all (p : ascii → bool) (h r : string) :
  Js.allb p h = true → Js.filter p (h +:+ r) = h +:+ Js.filter p r.
Proof.
  induction h as [|c h IH]; [done|]. rewrite !str_app_cons. simpl.
  intros [-> Hh]%andb_true_iff. by rewrite (IH Hh).
Qed.

Lemma prefix_app_length (h r : string) :
  Js.prefix (String.length h) (h +:+ r) = h.
Proof.
  induction h as [|c h IH]; [by destruct r|].
  rewrite str_app_cons. simpl. by rewrite IH.
Qed.

Lemma base64_twelve (l m : list N) :
  length l = 12%nat →
  Route.base64 (l ++ m) = Route.base64 l +:+ Route.base64 m
  ∧ String.length (Route.base64 l) = 16%nat.
Proof.
  intros H.
  do 12 (destruct l as [|? l]; [discriminate H|]).
  destruct l; [|discriminate H]. split; reflexivity.
Qed.

Lemma fileHash_prefix (p rest : string) :
  length (Route.utf8 p) = 12%nat →
  Js.allb Js.isAlnum (Route.base64 (Route.utf8 p)) = true →
  Route.fileHash (p +:+ rest) = Route.base64 (Route.utf8 p).
Proof.
  intros Hlen Halnum. unfold Route.fileHash. rewrite utf8_app.
  destruct (base64_twelve (Route.utf8 p) (Route.utf8 rest) Hlen) as [-> H16].
  rewrite filter_app_all by done. rewrite <-H16. apply prefix_app_length.
Qed.

(** X23.  The temp file of an upload is named after the first twelve bytes
    of the name of the file only, when their base64 text is alphanumeric:
    two names that share such a beginning have the same temp file in a given
    millisecond, and the first chunk of the one overwrites what the other
    has sent. *)
Theorem names_sharing_a_prefix_share_the_temp_file (p a b : string) (t : N) :
  length (Route.utf8 p) = 12%nat →
  Js.allb Js.isAlnum (Route.base64 (Route.utf8 p)) = true →
  Route.fileHash (p +:+ a) = Route.base64 (Route.utf8 p)
  ∧ Route.tempFileName (p +:+ a) t = Route.tempFileName (p +:+ b) t
  ∧ ∀ e1 e2 fs chunkA chunkB uploadPath nA nB,
      allSucceed e1 = true → allSucceed e2 = true →
      Route.now e1 = t → Route.now e2 = t →
      Js.trim (p +:+ a) ≠ "" → Js.trim (p +:+ b) ≠ "" → 1 < nA → 1 < nB →
      let temp :=
        Route.pathJoin (directoryOf uploadPath)
          (Route.tempFileName (p +:+ a) t) in
      let afterA :=
        Route.handleChunkedUpload e1 fs chunkA uploadPath (Js.Num 0)
          (Js.Num nA) (p +:+ a) in
      let afterB :=
        Route.handleChunkedUpload e2 afterA.1 chunkB uploadPath (Js.Num 0)
          (Js.Num nB) (p +:+ b) in
      afterA.1 !! temp = Some (Route.f_bytes chunkA)
      ∧ afterB.1 !! temp = Some (Route.f_bytes chunkB)
      ∧ Route.status afterB.2 = 200.
Proof.
  intros Hlen Halnum.
  assert (Htemp : ∀ x, Route.tempFileName (p +:+ x) t
                       = "temp_" +:+ Route.base64 (Route.utf8 p) +:+ "_" +:+ pretty t).
  { intros x. unfold Route.tempFileName. by rewrite fileHash_prefix. }
  split; [by apply fileHash_prefix|]. split; [by rewrite !Htemp|].
  intros e1 e2 fs chunkA chunkB uploadPath nA nB H1 H2 Hn1 Hn2 Ha Hb HnA HnB
    temp afterA afterB.
  subst afterB afterA.
  rewrite (chunk_step_middle e1 fs chunkA uploadPath 0 nA (p +:+ a) H1 Ha)
    by lia.
  cbn [fst].
  rewrite (chunk_step_middle e2 _ chunkB uploadPath 0 nB (p +:+ b) H2 Hb)
    by lia.
  rewrite Hn1, Hn2. cbn [fst snd Z.eqb app].
  unfold temp. rewrite !Htemp. by rewrite !lookup_insert_eq.
Qed.

Lemma names_sharing_a_prefix_share_the_temp_file_witness :
  Route.tempFileName "IMG_20240501_0001.jpg" 1000
  = Route.tempFileName "IMG_20240501_0002.jpg" 1000.
Proof.
  destruct (names_sharing_a_prefix_share_the_temp_file "IMG_20240501"
              "_0001.jpg" "_0002.jpg" 1000) as (_ & H & _);
    [reflexivity|reflexivity|].
  exact H.
Defined.

(** ** How the upload of a large file ends *)

(** X24.  The uploader believes what it is told.  When every chunk is
    acknowledged and no answer reports the upload as completed, it resolves
    all the same, with a record it fills in itself from the file and the
    destination.  When an answer reports the upload as completed, it
    resolves with the record of that answer at once, and the chunks after
    it are never sent. *)
Theorem uploader_trusts_the_answers (c : clientEnv) (chunkSize : Z)
    (file : Route.File) (uploadPath : string) :
  let total := ceilDiv (Route.f_size file) chunkSize in
  (∀ acks rest,
     length acks = Z.to_nat total →
     Forall (λ o, isAck o = true) acks →
     uploadLargeFile scripted c chunkSize file uploadPath (acks ++ rest)
     = (rest, smoothLog chunkSize file uploadPath 0 (Z.to_nat total),
        Resolved (fallbackRecord c file uploadPath))
     ∧ Route.r_path (fallbackRecord c file uploadPath)
       = uploadPath +:+ "/" +:+ Route.f_name file
     ∧ Route.r_size (fallbackRecord c file uploadPath) = Route.f_size file)
  ∧ (∀ acks rec sanitizedPath rest,
       (length acks < Z.to_nat total)%nat →
       Forall (λ o, isAck o = true) acks →
       let run :=
         uploadLargeFile scripted c chunkSize file uploadPath
           (acks ++ completedOutcome rec sanitizedPath :: rest) in
       run = (rest, smoothLog chunkSize file uploadPath 0 (S (length acks)),
              Resolved rec)
       ∧ sentForms run.1.2
         = planFrom chunkSize file uploadPath 0 (S (length acks))).
Proof.
  intros total. split.
  - intros acks rest Hlen Hacks. split; [|done].
    unfold uploadLargeFile. fold total.
    replace (Z.to_nat total) with (length acks + 0)%nat at 1 by lia.
    unfold total. rewrite upload_smooth_prefix by done. fold total.
    cbn [sendChunks]. by rewrite Hlen.
  - intros acks rec sanitizedPath rest Hlen Hacks run.
    assert (Hrun : run
                   = (rest, smoothLog chunkSize file uploadPath 0 (S (length acks)),
                      Resolved rec)).
    { subst run. unfold uploadLargeFile. fold total.
      replace (Z.to_nat total)
        with (length acks + S (Z.to_nat total - S (length acks)))%nat by lia.
      unfold total. rewrite upload_smooth_prefix by done. fold total.
      cbn [sendChunks]. change (Z.to_nat maxRetries) with 3%nat.
      rewrite (sendChunk_success _ _ _ _ _ _ _ _
                 (Route.json (Route.chunkedCompleted rec sanitizedPath)))
        by reflexivity.
      cbn [completedFile Route.chunkedCompleted Route.json Route.completed
           Route.files].
      unfold total. by rewrite smoothLog_snoc. }
    split; [done|]. rewrite Hrun. cbn [fst snd]. apply sentForms_smoothLog.
Qed.

Lemma uploader_trusts_the_answers_witness :
  uploadLargeFile scripted quietClient 2 (zeros "a.bin" 5) "/docs"
    ([ackOutcome 0 3; ackOutcome 1 3; ackOutcome 2 3] ++ [])
  = ([], smoothLog 2 (zeros "a.bin" 5) "/docs" 0 3,
     Resolved (fallbackRecord quietClient (zeros "a.bin" 5) "/docs")).
Proof.
  destruct (uploader_trusts_the_answers quietClient 2 (zeros "a.bin" 5) "/docs")
    as [H _].
  apply (H [ackOutcome 0 3; ackOutcome 1 3; ackOutcome 2 3] []).
  - reflexivity.
  - repeat constructor.
Defined.

(** ** The shape of the stored names *)

(** X25.  The names the route makes up.  For a name <stem>.<ext>, the
    name of a whole-file upload is <stem>_<timestamp>_<random>.<ext> and the
    name tried after a collision is <stem>_<counter>.<ext>.  For a name
    without a point the whole name is taken for the extension: the upload is
    stored as <name>_<timestamp>_<random>.<name>, and the name tried after
    a collision is _<counter>.<name>. *)
Theorem stored_name_shapes (stem ext : string) (timestamp : N)
    (randomSuffix : string) (counter : Z) :
  noDot ext = true → noSlash ext = true → ext ≠ "" →
  Route.generatedName (stem +:+ "." +:+ ext) timestamp randomSuffix
  = stem +:+ "_" +:+ pretty timestamp +:+ "_" +:+ randomSuffix +:+ "." +:+ ext
  ∧ Route.candidate (stem +:+ "." +:+ ext) counter
    = stem +:+ "_" +:+ pretty counter +:+ "." +:+ ext
  ∧ Route.generatedName ext timestamp randomSuffix
    = ext +:+ "_" +:+ pretty timestamp +:+ "_" +:+ randomSuffix +:+ "." +:+ ext
  ∧ Route.candidate ext counter = "_" +:+ pretty counter +:+ "." +:+ ext.
Proof.
  intros Hdot Hslash Hne.
  destruct (name_segments stem ext Hdot) as [Hfull Hbare].
  pose proof (split_nonempty "." stem) as Hparts.
  unfold Route.generatedName, Route.candidate, Route.stripExtension.
  rewrite Hfull, Hbare. cbn [fst snd].
  apply String.eqb_neq in Hne. rewrite Hne.
  unfold noSlash in Hslash. rewrite Hslash. cbn [negb orb].
  rewrite (join_split "." stem).
  destruct (Js.split "." stem) as [|p ps] eqn:E; [done|].
  repeat split; reflexivity.
Qed.

Lemma stored_name_shapes_witness :
  Route.generatedName "a.tar.gz" 1000 "k3j9xq" = "a.tar_1000_k3j9xq.gz"
  ∧ Route.candidate "README" 1 = "_1.README".
Proof.
  destruct (stored_name_shapes "a.tar" "gz" 1000 "k3j9xq" 1) as (H & _);
    [reflexivity|reflexivity|discriminate|].
  destruct (stored_name_shapes "" "README" 1000 "k3j9xq" 1) as (_ & _ & _ & H');
    [reflexivity|reflexivity|discriminate|].
  split; [exact H|exact H'].
Defined.

(** ** A last chunk in a millisecond of its own *)

Lemma serveAll_app (uploadPath fileName : string)
    (first second : list (Route.env * Route.File * Js.number * Js.number))
    (fs : gmap string (list Byte.byte)) :
  serveAll uploadPath fileName (first ++ second) fs
  = let run1 := serveAll uploadPath fileName first fs in
    let run2 := serveAll uploadPath fileName second run1.1 in
    (run2.1, run1.2 ++ run2.2).
Proof.
  revert fs. induction first as [|[[[e chunk] ci] tc] first IH]; intros fs.
  - simpl. by destruct (serveAll uploadPath fileName second fs).
  - cbn [app serveAll].
    destruct (Route.handleChunkedUpload e fs chunk uploadPath ci tc fileName)
      as [fs1 resp].
    rewrite IH. cbv zeta.
    destruct (serveAll uploadPath fileName first fs1) as [fs2 resps].
    cbn [fst snd].
    by destruct (serveAll uploadPath fileName second fs2).
Qed.

Lemma chunkRequests_app (k total : nat)
    (first second : list (Route.env * list Byte.byte)) :
  chunkRequests k total (first ++ second)
  = chunkRequests k total first
    ++ chunkRequests (k + length first) total second.
Proof.
  revert k. induction first as [|[e d] first IH]; intros k.
  - simpl. by rewrite Nat.add_0_r.
  - cbn [app chunkRequests length]. rewrite IH.
    by replace (S k + length first)%nat with (k + S (length first))%nat by lia.
Qed.

Lemma tempFileName_time (fileName : string) (t t' : N) :
  Route.tempFileName fileName t = Route.tempFileName fileName t' → t = t'.
Proof.
  unfold Route.tempFileName. intros H.
  apply (inj (String.app _)) in H. apply (inj (String.app _)) in H.
  apply (inj (String.app _)) in H. by apply (inj pretty) in H.
Qed.

(** Chunks before the last one, each in a millisecond other than [t]: the
    temp file of [t] is not touched. *)
Lemma earlier_chunks_elsewhere (uploadPath fileName : string) (t : N)
    (total : nat) (earlier : list (Route.env * list Byte.byte)) :
  Js.trim fileName ≠ "" →
  let temp :=
    Route.pathJoin (directoryOf uploadPath) (Route.tempFileName fileName t) in
  ∀ (k : nat) (fs : gmap string (list Byte.byte)),
  (k + length earlier < total)%nat →
  Forall (λ p, allSucceed p.1 = true ∧ Route.now p.1 ≠ t) earlier →
  let run := serveAll uploadPath fileName (chunkRequests k total earlier) fs in
  run.1 !! temp = fs !! temp
  ∧ Forall (λ r, Route.status r = 200 ∧ recordNames r = []) run.2
  ∧ length run.2 = length earlier.
Proof.
  intros Hname temp.
  induction earlier as [|[e d] earlier IH]; intros k fs Hk Hall run; [done|].
  apply Forall_cons in Hall as [[Hio Hnow] Hall]. simpl in Hio, Hnow.
  subst run. cbn [chunkRequests serveAll].
  rewrite (chunk_step_middle e fs (blob d) uploadPath (Z.of_nat k)
             (Z.of_nat total) fileName Hio Hname)
    by (simpl in Hk; lia).
  specialize (IH (S k)
                (<[Route.pathJoin (directoryOf uploadPath)
                     (Route.tempFileName fileName (Route.now e)) :=
                   (if Z.of_nat k =? 0 then []
                    else default []
                           (fs !! Route.pathJoin (directoryOf uploadPath)
                                    (Route.tempFileName fileName (Route.now e))))
                   ++ Route.f_bytes (blob d)]> fs)
                ltac:(simpl in Hk; lia) Hall).
  cbv zeta in IH.
  destruct (serveAll uploadPath fileName (chunkRequests (S k) total earlier) _)
    as [fs2 resps].
  cbn [fst snd] in *. destruct IH as (Hfs & Hresps & Hlen).
  split; [|split].
  - rewrite Hfs. apply lookup_insert_ne. intros E.
    apply pathJoin_inj, tempFileName_time in E. done.
  - by constructor.
  - simpl. by rewrite Hlen.
Qed.

(** X26.  A last chunk that is served in a millisecond in which no earlier
    chunk of the upload was served, and that finds no temp file of that
    millisecond, is promoted alone: the final file holds the bytes of the
    last chunk and nothing of the chunks before it, and the record reports
    the length of the last chunk, while every request is answered 200. *)
Theorem last_chunk_in_its_own_millisecond (uploadPath fileName : string)
    (earlier : list (Route.env * list Byte.byte)) (e : Route.env)
    (lastBytes : list Byte.byte) (fs : gmap string (list Byte.byte)) :
  Js.trim fileName ≠ "" →
  Forall (λ p, allSucceed p.1 = true ∧ Route.now p.1 ≠ Route.now e) earlier →
  allSucceed e = true →
  fs !! Route.pathJoin (directoryOf uploadPath)
          (Route.tempFileName fileName (Route.now e)) = None →
  let parts := earlier ++ [(e, lastBytes)] in
  let run :=
    serveAll uploadPath fileName (chunkRequests 0 (length parts) parts) fs in
  Forall (λ r, Route.status r = 200) run.2
  ∧ ∃ name,
      recordNames <$> run.2 = replicate (length earlier) [] ++ [[name]]
      ∧ recordSizes <$> run.2
        = replicate (length earlier) [] ++ [[Z.of_nat (length lastBytes)]]
      ∧ run.1 !! Route.pathJoin (directoryOf uploadPath) name = Some lastBytes.
Proof.
  intros Hname Hall Hio Hfresh parts run. subst run parts.
  rewrite length_app. cbn [length]. rewrite chunkRequests_app, serveAll_app.
  cbv zeta.
  pose proof (earlier_chunks_elsewhere uploadPath fileName (Route.now e)
                (length earlier + 1) earlier Hname 0%nat fs ltac:(lia) Hall)
    as H.
  cbv zeta in H.
  destruct (serveAll uploadPath fileName
              (chunkRequests 0 (length earlier + 1) earlier) fs)
    as [fs1 resps].
  cbn [fst snd] in *. destruct H as (Hfs & Hresps & Hlen).
  rewrite Hfresh in Hfs.
  cbn [chunkRequests serveAll Nat.add].
  rewrite (chunk_step_last e fs1 (blob lastBytes) uploadPath
             (Z.of_nat (length earlier)) (Z.of_nat (length earlier + 1))
             fileName Hio Hname) by lia.
  rewrite Hfs. cbn [default fst snd blob Route.f_bytes].
  assert (Hdata : (if Z.of_nat (length earlier) =? 0 then [] else [])
                  ++ lastBytes = lastBytes) by (by destruct (_ =? _)).
  rewrite Hdata.
  split.
  - apply Forall_app. split; [|by repeat constructor].
    eapply Forall_impl; [exact Hresps|]. by intros r [? _].
  - eexists. rewrite !fmap_app. cbn [fmap list_fmap].
    assert (Hnone0 : ∀ (f : Route.response → list Z),
              Forall (λ r, f r = []) resps →
              f <$> resps = replicate (length earlier) []).
    { intros f Hf. rewrite <-Hlen. clear -Hf.
      induction Hf as [|r l Hr _ IH]; [done|]. by rewrite fmap_cons, Hr, IH. }
    assert (Hnone : ∀ (f : Route.response → list string),
              Forall (λ r, f r = []) resps →
              f <$> resps = replicate (length earlier) []).
    { intros f Hf. rewrite <-Hlen. clear -Hf.
      induction Hf as [|r l Hr _ IH]; [done|]. by rewrite fmap_cons, Hr, IH. }
    split; [|split].
    + rewrite (Hnone recordNames); [reflexivity|].
      eapply Forall_impl; [exact Hresps|]. by intros r [_ ?].
    + assert (Hsz : Forall (λ r, recordSizes r = []) resps).
      { eapply Forall_impl; [exact Hresps|]. intros r [_ Hr].
        unfold recordNames, recordSizes in *.
        destruct (Route.files (Route.json r)) as [[|? ?]|]; done. }
      by rewrite (Hnone0 recordSizes).
    + by rewrite lookup_insert_eq.
Qed.

Lemma last_chunk_in_its_own_millisecond_witness :
  let earlier := [ (calmEnv 1000, [Byte.x01; Byte.x02]) ] in
  let parts := earlier ++ [(calmEnv 1040, [Byte.x03])] in
  let run := serveAll "/docs" "a.bin" (chunkRequests 0 (length parts) parts) ∅ in
  ∃ name,
    recordNames <$> run.2 = replicate (length earlier) [] ++ [[name]]
    ∧ recordSizes <$> run.2 = replicate (length earlier) [] ++ [[1]]
    ∧ run.1 !! Route.pathJoin (directoryOf "/docs") name = Some [Byte.x03].
Proof.
  intros earlier parts run.
  destruct (last_chunk_in_its_own_millisecond "/docs" "a.bin" earlier
              (calmEnv 1040) [Byte.x03] ∅) as [_ H].
  - vm_compute. discriminate.
  - repeat constructor. vm_compute. discriminate.
  - reflexivity.
  - reflexivity.
  - exact H.
Defined.

(** ** A last chunk that is sent again *)

(** X27.  A last chunk (not the only one) that is served again, in the
    millisecond of the upload and after the upload was completed, starts a
    temp file of its own, which is promoted at once: besides the complete
    file there is now a second file, under the next free name, that holds
    the last chunk only, and the second answer reports that file and its
    length as a completed upload. *)
Theorem retransmitted_last_chunk_makes_a_second_file (e1 e2 : Route.env)
    (fs : gmap string (list Byte.byte)) (chunk : Route.File)
    (uploadPath : string) (n : Z) (fileName : string) :
  allSucceed e1 = true → allSucceed e2 = true → Route.now e1 = Route.now e2 →
  Js.trim fileName ≠ "" → 1 < n →
  let dir := directoryOf uploadPath in
  let temp := Route.pathJoin dir (Route.tempFileName fileName (Route.now e1)) in
  let once :=
    Route.handleChunkedUpload e1 fs chunk uploadPath (Js.Num (n - 1)) (Js.Num n)
      fileName in
  let twice :=
    Route.handleChunkedUpload e2 once.1 chunk uploadPath (Js.Num (n - 1))
      (Js.Num n) fileName in
  ∃ name1 name2,
    recordNames once.2 = [name1] ∧ recordNames twice.2 = [name2]
    ∧ name1 ≠ name2
    ∧ twice.1 !! Route.pathJoin dir name1
      = Some (default [] (fs !! temp) ++ Route.f_bytes chunk)
    ∧ twice.1 !! Route.pathJoin dir name2 = Some (Route.f_bytes chunk)
    ∧ recordSizes twice.2 = [Route.f_size chunk]
    ∧ Route.status twice.2 = 200.
Proof.
  intros H1 H2 Hnow Hname Hn dir temp once twice. subst twice once.
  rewrite (chunk_step_last e1 fs chunk uploadPath (n - 1) n fileName H1 Hname)
    by lia.
  fold dir. fold temp. cbn [fst snd].
  destruct (n - 1 =? 0) eqn:E; [lia|].
  set (data := default [] (fs !! temp) ++ Route.f_bytes chunk).
  set (name1 := Route.uniqueFileName (<[temp := data]> fs) dir fileName).
  pose proof (uniqueFileName_free (<[temp := data]> fs) dir fileName) as Hfree1.
  fold name1 in Hfree1.
  assert (Hne1 : Route.pathJoin dir name1 ≠ temp).
  { intros Eq. rewrite Eq, lookup_insert_eq in Hfree1. done. }
  set (fs1 := <[Route.pathJoin dir name1 := data]> (delete temp fs)).
  rewrite (chunk_step_last e2 fs1 chunk uploadPath (n - 1) n fileName H2 Hname)
    by lia.
  rewrite <-Hnow. fold dir. fold temp. rewrite E. cbn [fst snd].
  assert (Hgone : fs1 !! temp = None).
  { unfold fs1. by rewrite lookup_insert_ne, lookup_delete_eq. }
  rewrite Hgone. cbn [default app].
  set (name2 := Route.uniqueFileName (<[temp := Route.f_bytes chunk]> fs1) dir
                  fileName).
  pose proof (uniqueFileName_free (<[temp := Route.f_bytes chunk]> fs1) dir
                fileName) as Hfree2.
  fold name2 in Hfree2.
  assert (Hne2 : Route.pathJoin dir name2 ≠ temp).
  { intros Eq. rewrite Eq, lookup_insert_eq in Hfree2. done. }
  rewrite lookup_insert_ne in Hfree2 by done.
  assert (Hne12 : Route.pathJoin dir name1 ≠ Route.pathJoin dir name2).
  { intros Eq. rewrite <-Eq in Hfree2. unfold fs1 in Hfree2.
    rewrite lookup_insert_eq in Hfree2. done. }
  exists name1, name2.
  split; [done|]. split; [done|]. split; [by intros Eq; rewrite Eq in Hne12|].
  split; [|split; [|done]].
  - rewrite lookup_insert_ne, lookup_delete_ne by done.
    unfold fs1. by rewrite lookup_insert_eq.
  - by rewrite lookup_insert_eq.
Qed.

Lemma retransmitted_last_chunk_makes_a_second_file_witness :
  let fs : gmap string (list Byte.byte) :=
    {[ "/mnt/nas/storage//docs/temp_YS5iaW4_1000" := [Byte.x01; Byte.x02] ]} in
  let once :=
    Route.handleChunkedUpload (calmEnv 1000) fs (blob [Byte.x03]) "/docs"
      (Js.Num (2 - 1)) (Js.Num 2) "a.bin" in
  let twice :=
    Route.handleChunkedUpload (calmEnv 1000) once.1 (blob [Byte.x03]) "/docs"
      (Js.Num (2 - 1)) (Js.Num 2) "a.bin" in
  ∃ name1 name2,
    recordNames once.2 = [name1] ∧ recordNames twice.2 = [name2]
    ∧ name1 ≠ name2
    ∧ twice.1 !! Route.pathJoin (directoryOf "/docs") name1
      = Some (default [] (fs !! "/mnt/nas/storage//docs/temp_YS5iaW4_1000")
              ++ [Byte.x03])
    ∧ twice.1 !! Route.pathJoin (directoryOf "/docs") name2 = Some [Byte.x03]
    ∧ recordSizes twice.2 = [1]
    ∧ Route.status twice.2 = 200.
Proof.
  intros fs once twice.
  apply (retransmitted_last_chunk_makes_a_second_file (calmEnv 1000)
           (calmEnv 1000) fs (blob [Byte.x03]) "/docs" 2 "a.bin");
    [reflexivity|reflexivity|reflexivity| |lia].
  vm_compute. discriminate.
Defined.

(** ** The unit a size is shown in *)

Lemma unitIndex_bounds (bytes : Z) :
  1 ≤ bytes → ¬ (1024 ^ 5 - 3 ≤ bytes < 1024 ^ 5) →
  1024 ^ StorageUtils.unitIndex bytes ≤ bytes
  < 1024 ^ (StorageUtils.unitIndex bytes + 1).
Proof.
  intros H Hedge. rewrite unitIndex_exact by done.
  pose proof (Z.log2_nonneg bytes) as Hl0.
  pose proof (Z.log2_spec bytes ltac:(lia)) as [Hlo Hhi].
  assert (Hi : 0 ≤ Z.log2 bytes / 10) by (apply Z.div_pos; lia).
  pose proof (Z.div_mod (Z.log2 bytes) 10 ltac:(lia)) as Hdm.
  pose proof (Z.mod_pos_bound (Z.log2 bytes) 10 ltac:(lia)) as Hm.
  change 1024 with (2 ^ 10). rewrite <-!Z.pow_mul_r by lia. split.
  - etrans; [|exact Hlo]. apply Z.pow_le_mono_r; lia.
  - eapply Z.lt_le_trans; [exact Hhi|]. apply Z.pow_le_mono_r; lia.
Qed.

(** X28.  A size from 1 byte up to 1024^5 - 4 bytes is shown in the
    largest unit that does not exceed it, with a number between 1 and 1024:
    the unit is [sizes[i]] for the [i] with 1024^i <= bytes < 1024^(i+1),
    and the number, in hundredths, lies between 100 and 102400.  For the
    three sizes from 1024^5 - 3 to 1024^5 - 1 the index is 5 already,
    past the last unit, and the text is "1 undefined". *)
Theorem formatSize_magnitude (bytes : Z) :
  let i := StorageUtils.unitIndex bytes in
  let m := StorageUtils.mantissaHundredths bytes i in
  (1 ≤ bytes < 1024 ^ 5 - 3 →
   ∃ unit,
     StorageUtils.sizes !! Z.to_nat i = Some unit
     ∧ StorageUtils.formatSize bytes
       = Js.hundredthsToString m +:+ " " +:+ unit
     ∧ 1024 ^ i ≤ bytes < 1024 ^ (i + 1)
     ∧ 100 ≤ m ≤ 102400)
  ∧ (1024 ^ 5 - 3 ≤ bytes < 1024 ^ 5 →
     i = 5
     ∧ StorageUtils.sizes !! Z.to_nat i = None
     ∧ StorageUtils.formatSize bytes = "1 undefined").
Proof.
  intros i m. split; cycle 1.
  { intros H.
    assert (bytes = 1024 ^ 5 - 3 ∨ bytes = 1024 ^ 5 - 2 ∨ bytes = 1024 ^ 5 - 1)
      as [->|[->| ->]] by lia; subst m i; vm_compute; by repeat split. }
  intros H.
  pose proof (unitIndex_small _ H) as Hi. fold i in Hi.
  pose proof (unitIndex_bounds bytes ltac:(lia) ltac:(lia)) as Hb. fold i in Hb.
  assert (HU : 0 < 1024 ^ i) by (apply Z.pow_pos_nonneg; lia).
  rewrite Z.pow_add_r in Hb by lia. change (1024 ^ 1) with 1024 in Hb.
  destruct (StorageUtils.sizes !! Z.to_nat i) as [unit|] eqn:E.
  2:{ apply lookup_ge_None in E. simpl in E. lia. }
  exists unit. split; [done|]. split; [|split].
  - unfold StorageUtils.formatSize.
    destruct (bytes =? 0) eqn:E0; [lia|]. destruct (bytes <? 0) eqn:E1; [lia|].
    fold i. fold m. unfold StorageUtils.sizeName. by rewrite E.
  - rewrite Z.pow_add_r by lia. change (1024 ^ 1) with 1024. lia.
  - unfold m, StorageUtils.mantissaHundredths. set (U := 1024 ^ i) in *.
    clearbody U. clear -HU Hb. split.
    + apply Z.div_le_lower_bound; lia.
    + assert ((200 * bytes + U) / (2 * U) < 102401); [|lia].
      apply Z.div_lt_upper_bound; lia.
Qed.

Lemma formatSize_magnitude_witness :
  (∃ unit,
     StorageUtils.sizes !! Z.to_nat (StorageUtils.unitIndex 1234567) = Some unit
     ∧ StorageUtils.formatSize 1234567
       = Js.hundredthsToString
           (StorageUtils.mantissaHundredths 1234567
              (StorageUtils.unitIndex 1234567)) +:+ " " +:+ unit
     ∧ 1024 ^ StorageUtils.unitIndex 1234567 ≤ 1234567
       < 1024 ^ (StorageUtils.unitIndex 1234567 + 1)
     ∧ 100 ≤ StorageUtils.mantissaHundredths 1234567
                (StorageUtils.unitIndex 1234567) ≤ 102400)
  ∧ StorageUtils.formatSize (1024 ^ 5 - 1) = "1 undefined".
Proof.
  split.
  - apply (formatSize_magnitude 1234567). lia.
  - destruct (formatSize_magnitude (1024 ^ 5 - 1)) as [_ H].
    destruct H as (_ & _ & H); [lia|]. exact H.
Defined.
